(** * unusedsymbols: RGBDS object files and the unreferenced-globals tally

    A shallow embedding of [tools/unusedsymbols.py]: the binary reader
    ([unpack_file], [read_string]), the object parser ([parse_object]), the
    RPN scan loop and the reference tally of the module's top level, with
    the properties the specification states about them. *)

From Stdlib Require Import List ZArith Lia Bool Arith Permutation.
From Stdlib.Strings Require Import Byte String.
Import ListNotations.

Local Open Scope Z_scope.

(** ** Outcomes of running Python code *)

(** The exceptions the program can raise. None is caught anywhere in the
    source, so a raised exception ends the run. *)
Inductive exn : Type :=
| StructError          (* struct.error: unpack on a buffer of the wrong size *)
| ValueError           (* an Enum constructor applied to a value it lacks *)
| UnicodeDecodeError   (* bytearray.decode on bytes that are not UTF-8 *)
| TypeError            (* a call that misses a required argument *)
| IndexError           (* sequence index out of range *)
| KeyError             (* dict key absent *)
| SystemExit (code : option Z)    (* exit(code); exit() is SystemExit(None) *)
| UnicodeEncodeError.             (* print of a text the encoding of stdout lacks *)

(** [OutOfFuel] is how a loop that has not finished within the given number
    of iterations shows; a computation that is [OutOfFuel] for every amount
    of fuel does not terminate. *)
Inductive result (A : Type) : Type :=
| Ok (a : A)
| Raise (e : exn)
| OutOfFuel.
Arguments Ok {A} a.
Arguments Raise {A} e.
Arguments OutOfFuel {A}.

Definition rbind {A B} (r : result A) (k : A -> result B) : result B :=
  match r with
  | Ok a => k a
  | Raise e => Raise e
  | OutOfFuel => OutOfFuel
  end.

(** ** Bytes and little-endian integers *)

Definition byte_val (b : byte) : Z := Z.of_N (Byte.to_N b).

(** [int.from_bytes(bs, "little")], which is what [unpack("<I", bs)] and
    [unpack("<B", bs)] compute on 4 and 1 bytes. *)
Fixpoint le_int (bs : list byte) : Z :=
  match bs with
  | [] => 0
  | b :: bs' => byte_val b + 256 * le_int bs'
  end.

(** ** The file object *)

(** The format characters the source passes to [struct]. *)
Inductive fmtchar : Type :=
| fI        (* I: unsigned 32-bit *)
| fB        (* B: unsigned 8-bit *)
| f4s.      (* 4s: four raw bytes *)

Definition format := list fmtchar.

(** Where in the source a [file.read] call stands. *)
Inductive read_site : Type :=
| InUnpackFile (fmt : format)   (* line 36, inside unpack_file(fmt, file) *)
| InReadString                  (* line 41, inside read_string *)
| SectionData                   (* line 96 *)
| PatchRpn                      (* line 111 *)
| AssertionRpn.                 (* line 129 *)

(** One [file.read(size)] call: where it was made, the size asked for and
    the bytes returned. *)
Record read_event : Type := mkEvent {
  ev_site : read_site;
  ev_size : nat;
  ev_got : list byte
}.

(** A binary file opened for reading: the bytes after the cursor, and the
    history of the reads made so far. *)
Record file : Type := mkFile {
  rest : list byte;
  reads : list read_event
}.

Definition open (content : list byte) : file := mkFile content [].

(** Computations that use the file. *)
Definition M (A : Type) : Type := file -> result (A * file).

Definition ret {A} (a : A) : M A := fun f => Ok (a, f).
Definition raise {A} (e : exn) : M A := fun _ => Raise e.
Definition bind {A B} (m : M A) (k : A -> M B) : M B :=
  fun f => match m f with
           | Ok (a, f') => k a f'
           | Raise e => Raise e
           | OutOfFuel => OutOfFuel
           end.
Definition lift {A} (r : result A) : M A :=
  fun f => match r with
           | Ok a => Ok (a, f)
           | Raise e => Raise e
           | OutOfFuel => OutOfFuel
           end.

Declare Scope py_scope.
Delimit Scope py_scope with py.
Notation "x <- m ;; k" := (bind m (fun x => k))
  (at level 61, m at next level, right associativity) : py_scope.
Notation "' pat <- m ;; k" := (bind m (fun x => match x with pat => k end))
  (at level 61, pat pattern, m at next level, right associativity) : py_scope.
Local Open Scope py_scope.

(** [file.read(size)]: at most [size] bytes, fewer when the file ends
    first, and [b''] at the end of the file. It never fails and never
    returns [None]. *)
Definition file_read (site : read_site) (size : nat) : M (list byte) :=
  fun f =>
    let got := firstn size (rest f) in
    Ok (got, mkFile (skipn size (rest f)) (reads f ++ [mkEvent site size got])).

(** ** Binary reader *)

Definition fmt_size (c : fmtchar) : nat :=
  match c with
  | fI => 4
  | fB => 1
  | f4s => 4
  end.

(** [calcsize(fmt)]; every format of the source is little-endian ([<]) or a
    single [4s], so there is no padding. *)
Definition calcsize (fmt : format) : nat :=
  fold_right (fun c n => (fmt_size c + n)%nat) 0%nat fmt.

Definition fmt_val (c : fmtchar) : Type :=
  match c with
  | fI => Z
  | fB => Z
  | f4s => list byte
  end.

(** The tuple [unpack] returns, one component per format character. *)
Fixpoint fmt_tuple (fmt : format) : Type :=
  match fmt with
  | [] => unit
  | c :: fmt' => (fmt_val c * fmt_tuple fmt')%type
  end.

Definition decode_field (c : fmtchar) (bs : list byte) : fmt_val c :=
  match c with
  | fI => le_int bs
  | fB => le_int bs
  | f4s => bs
  end.

Fixpoint decode_fields (fmt : format) (bs : list byte) : fmt_tuple fmt :=
  match fmt with
  | [] => tt
  | c :: fmt' =>
      (decode_field c (firstn (fmt_size c) bs),
       decode_fields fmt' (skipn (fmt_size c) bs))
  end.

(** [struct.unpack(fmt, buffer)]: the buffer must have exactly
    [calcsize(fmt)] bytes. *)
Definition unpack (fmt : format) (buffer : list byte) : result (fmt_tuple fmt) :=
  if (List.length buffer =? calcsize fmt)%nat
  then Ok (decode_fields fmt buffer)
  else Raise StructError.

Definition unpack_file (fmt : format) : M (fmt_tuple fmt) :=
  buffer <- file_read (InUnpackFile fmt) (calcsize fmt) ;;
  lift (unpack fmt buffer).

(** Strict UTF-8, the default of [bytearray.decode]: shortest forms only, no
    surrogates, nothing above U+10FFFF. *)
Definition in_range (lo hi : Z) (b : byte) : bool :=
  (lo <=? byte_val b) && (byte_val b <=? hi).

Definition cont (b : byte) : bool := in_range 128 191 b.

Fixpoint utf8_valid (bs : list byte) : bool :=
  match bs with
  | [] => true
  | b0 :: t0 =>
      if in_range 0 127 b0 then utf8_valid t0
      else match t0 with
      | [] => false
      | b1 :: t1 =>
          if in_range 194 223 b0 then cont b1 && utf8_valid t1
          else match t1 with
          | [] => false
          | b2 :: t2 =>
              if in_range 224 239 b0 then
                (if byte_val b0 =? 224 then in_range 160 191 b1
                 else if byte_val b0 =? 237 then in_range 128 159 b1
                 else cont b1)
                && cont b2 && utf8_valid t2
              else match t2 with
              | [] => false
              | b3 :: t3 =>
                  in_range 240 244 b0
                  && (if byte_val b0 =? 240 then in_range 144 191 b1
                      else if byte_val b0 =? 244 then in_range 128 143 b1
                      else cont b1)
                  && cont b2 && cont b3 && utf8_valid t3
              end
          end
      end
  end.

(** [buf.decode()]. A Python [str] is held as its UTF-8 bytes: UTF-8 is
    one-to-one on the byte strings it accepts, so two decoded names are
    equal exactly when their bytes are. *)
Definition decode (buf : list byte) : result string :=
  if utf8_valid buf then Ok (string_of_list_byte buf) else Raise UnicodeDecodeError.

(** [a == b] on [bytes]. *)
Definition bytes_eqb (a b : list byte) : bool :=
  if list_eq_dec Byte.byte_eq_dec a b then true else false.

(** The [while True] loop of [read_string]. [b] is [b''] at the end of the
    file, which is neither [None] nor [b'\0']: the loop then appends nothing
    and goes round again. *)
Fixpoint read_string_loop (fuel : nat) (buf : list byte) : M string :=
  match fuel with
  | O => fun _ => OutOfFuel
  | S fuel' =>
      b <- file_read InReadString 1 ;;
      if bytes_eqb b [x00] then lift (decode buf)
      else read_string_loop fuel' (buf ++ b)
  end.

Definition read_string (fuel : nat) : M string := read_string_loop fuel [].

(** ** Data model *)

Inductive symtype : Type := LOCAL | IMPORT | EXPORT.
Inductive sectype : Type := WRAM0 | VRAM | ROMX | ROM0 | HRAM | WRAMX | SRAM | OAM.
Inductive patchtype : Type := BYTE | WORD | LONG | JR.
Inductive asserttype : Type := WARN | ERROR | FAIL.

(** [symtype(v)] and the other Enum constructors: [ValueError] on a value
    that names no member. *)
Definition symtype_of (v : Z) : result symtype :=
  match v with
  | 0 => Ok LOCAL | 1 => Ok IMPORT | 2 => Ok EXPORT
  | _ => Raise ValueError
  end.

Definition sectype_of (v : Z) : result sectype :=
  match v with
  | 0 => Ok WRAM0 | 1 => Ok VRAM | 2 => Ok ROMX | 3 => Ok ROM0
  | 4 => Ok HRAM | 5 => Ok WRAMX | 6 => Ok SRAM | 7 => Ok OAM
  | _ => Raise ValueError
  end.

Definition patchtype_of (v : Z) : result patchtype :=
  match v with
  | 0 => Ok BYTE | 1 => Ok WORD | 2 => Ok LONG | 3 => Ok JR
  | _ => Raise ValueError
  end.

Definition asserttype_of (v : Z) : result asserttype :=
  match v with
  | 0 => Ok WARN | 1 => Ok ERROR | 2 => Ok FAIL
  | _ => Raise ValueError
  end.

Definition is_local (t : symtype) : bool :=
  match t with LOCAL => true | _ => false end.
Definition is_import (t : symtype) : bool :=
  match t with IMPORT => true | _ => false end.
Definition is_export (t : symtype) : bool :=
  match t with EXPORT => true | _ => false end.

(** [type == sectype.ROMX or type == sectype.ROM0] *)
Definition is_rom (t : sectype) : bool :=
  match t with ROMX | ROM0 => true | _ => false end.

(** The dicts the parser builds. A key that is set only on some paths is an
    [option] field: [None] when the dict lacks the key. *)
Record symbol : Type := mkSymbol {
  sym_name : string;
  sym_type : symtype;
  sym_filename : option string;
  sym_line_num : option Z;
  sym_section : option Z;
  sym_value : option Z
}.

Record patch : Type := mkPatch {
  patch_filename : string;
  patch_line : option Z;
  patch_offset : Z;
  patch_pcsectionid : option Z;
  patch_pcoffset : option Z;
  patch_type : patchtype;
  patch_rpn : list byte
}.

Record section : Type := mkSection {
  sec_name : string;
  sec_org : Z;
  sec_bank : Z;
  sec_type : sectype;
  sec_align : Z;
  sec_offset : option Z;
  sec_data : option (list byte);
  sec_patches : option (list patch)
}.

Record assertion : Type := mkAssertion {
  assert_filename : string;
  assert_offset : Z;
  assert_section : option Z;
  assert_pcoffset : option Z;
  assert_type : asserttype;
  assert_rpn : list byte;
  assert_message : string
}.

Record object : Type := mkObject {
  symbols : list symbol;
  sections : list section;
  version : Z;
  assertions : option (list assertion)
}.

(** ** Object parser *)

(** [for x in range(n): ... ; items.append(item)] *)
Fixpoint for_range {A} (n : nat) (body : M A) : M (list A) :=
  match n with
  | O => ret []
  | S n' =>
      item <- body ;;
      items <- for_range n' body ;;
      ret (item :: items)
  end.

Definition RGB6 : list byte := [x52; x47; x42; x36].
Definition RGB9 : list byte := [x52; x47; x42; x39].

(** [obj_ver in [6, 10, 11, 13, 14]] *)
Definition supported_version (v : Z) : bool :=
  (v =? 6) || (v =? 10) || (v =? 11) || (v =? 13) || (v =? 14).

Section Parser.

(** The iterations allowed to each [read_string] call. *)
Variable fuel : nat.

Definition parse_symbol : M symbol :=
  name <- read_string fuel ;;
  '(t, tt) <- unpack_file [fB] ;;
  type <- lift (symtype_of t) ;;
  if is_import type then
    ret (mkSymbol name type None None None None)
  else
    filename <- read_string fuel ;;
    '(line_num, (section, (value, tt))) <- unpack_file [fI; fI; fI] ;;
    ret (mkSymbol name type (Some filename) (Some line_num) (Some section) (Some value)).

Variable obj_ver : Z.

Definition parse_patch : M patch :=
  filename <- read_string fuel ;;
  line <- (if obj_ver <? 11
           then '(l, tt) <- unpack_file [fI] ;; ret (Some l)
           else ret None) ;;
  '(offset, tt) <- unpack_file [fI] ;;
  '(pcsectionid, pcoffset) <-
      (if 14 <=? obj_ver
       then '(s, (o, tt)) <- unpack_file [fI; fI] ;; ret (Some s, Some o)
       else ret (None, None)) ;;
  '(t, (rpn_size, tt)) <- unpack_file [fB; fI] ;;
  type <- lift (patchtype_of t) ;;
  rpn <- file_read PatchRpn (Z.to_nat rpn_size) ;;
  ret (mkPatch filename line offset pcsectionid pcoffset type rpn).

Definition parse_section : M section :=
  name <- read_string fuel ;;
  '(size, (t, (org, (bank, tt)))) <- unpack_file [fI; fB; fI; fI] ;;
  type <- lift (sectype_of t) ;;
  '(align, offset) <-
      (if 14 <=? obj_ver
       then '(a, (o, tt)) <- unpack_file [fB; fI] ;; ret (a, Some o)
       else '(a, tt) <- unpack_file [fI] ;; ret (a, None)) ;;
  if is_rom type then
    data <- file_read SectionData (Z.to_nat size) ;;
    '(num_patches, tt) <- unpack_file [fI] ;;
    patches <- for_range (Z.to_nat num_patches) parse_patch ;;
    ret (mkSection name org bank type align offset (Some data) (Some patches))
  else
    ret (mkSection name org bank type align offset None None).

(** Line 126 calls [unpack_file("<II")] with one argument where the
    function takes two: Python raises [TypeError] at the call, before
    anything is read. *)
Definition parse_assertion : M assertion :=
  filename <- read_string fuel ;;
  '(offset, tt) <- unpack_file [fI] ;;
  '(section, pcoffset) <-
      (if 14 <=? obj_ver
       then raise TypeError
       else ret (@None Z, @None Z)) ;;
  '(t, (rpn_size, tt)) <- unpack_file [fB; fI] ;;
  type <- lift (asserttype_of t) ;;
  rpn <- file_read AssertionRpn (Z.to_nat rpn_size) ;;
  message <- read_string fuel ;;
  ret (mkAssertion filename offset section pcoffset type rpn message).

(** [parse_object] from line 70 on, once [obj_ver] is known. *)
Definition parse_tables : M object :=
  '(num_symbols, (num_sections, tt)) <- unpack_file [fI; fI] ;;
  symbols <- for_range (Z.to_nat num_symbols) parse_symbol ;;
  sections <- for_range (Z.to_nat num_sections) parse_section ;;
  assertions <-
      (if 13 <=? obj_ver
       then '(num_assertions, tt) <- unpack_file [fI] ;;
            items <- for_range (Z.to_nat num_assertions) parse_assertion ;;
            ret (Some items)
       else ret None) ;;
  ret (mkObject symbols sections obj_ver assertions).

End Parser.

(** Lines 55 to 66: the magic and the version. [None] is the [return None]
    of the two unknown-format paths. *)
Definition parse_header : M (option Z) :=
  '(magic, tt) <- unpack_file [f4s] ;;
  if bytes_eqb magic RGB6 then ret (Some 6)
  else if bytes_eqb magic RGB9 then
    '(revision, tt) <- unpack_file [fI] ;; ret (Some (10 + revision))
  else ret None.

Definition parse_stream (fuel : nat) : M (option object) :=
  ver <- parse_header ;;
  match ver with
  | None => ret None
  | Some obj_ver =>
      if supported_version obj_ver then
        obj <- parse_tables fuel obj_ver ;;
        ret (Some obj)
      else ret None
  end.

(** [parse_object(filename)], on the content of the file of that name. *)
Definition parse_object (fuel : nat) (content : list byte) : result (option object * file) :=
  parse_stream fuel (open content).

(** ** Dicts *)

(** A Python dict from names to counts: the entries in insertion order, each
    key once. Assigning to a key that is present keeps its place; a new key
    goes to the end. *)
Definition dict : Type := list (string * Z).

Fixpoint dict_get (k : string) (d : dict) : option Z :=
  match d with
  | [] => None
  | (k', v) :: d' => if String.eqb k k' then Some v else dict_get k d'
  end.

(** [k in d] *)
Definition dict_mem (k : string) (d : dict) : bool :=
  match dict_get k d with Some _ => true | None => false end.

(** [d[k] = v] *)
Fixpoint dict_set (k : string) (v : Z) (d : dict) : dict :=
  match d with
  | [] => [(k, v)]
  | (k', v') :: d' =>
      if String.eqb k k' then (k, v) :: d' else (k', v') :: dict_set k v d'
  end.

(** [d[k] += 1] *)
Definition dict_incr (k : string) (d : dict) : result dict :=
  match dict_get k d with
  | None => Raise KeyError
  | Some v => Ok (dict_set k (v + 1) d)
  end.

(** The keys as [for k in d] visits them. *)
Definition dict_keys (d : dict) : list string := map fst d.

(** ** RPN scan loop (lines 190 to 208) *)

Definition x50 := Byte.x50.
Definition x51 := Byte.x51.
Definition x80 := Byte.x80.
Definition x81 := Byte.x81.

(** [rpn[lo:hi]] *)
Definition slice (rpn : list byte) (lo hi : nat) : list byte :=
  firstn (hi - lo) (skipn lo rpn).

(** [while rpn[pos] != 0: pos += 1], run on the bytes from [pos] on: the
    byte at [pos] is the head of that suffix, and indexing past the end of
    [rpn] is the empty suffix. Returns [pos] as the loop leaves it. *)
Fixpoint skip_to_zero (suffix : list byte) (pos : nat) : result nat :=
  match suffix with
  | [] => Raise IndexError
  | b :: suffix' =>
      if Byte.eqb b x00 then Ok pos else skip_to_zero suffix' (S pos)
  end.

Section RpnLoop.

(** What the loop does with a symbol id (lines 201 to 205), on a state of
    its own. *)
Context {S : Type} (on_symbol : Z -> S -> result S).

Variable rpn : list byte.

(** One iteration of the outer [while], entered with [pos < len(rpn)]. *)
Definition rpn_step (pos : nat) (st : S) : result (nat * S) :=
  match nth_error rpn pos with
  | None => Raise IndexError
  | Some op =>
      if Byte.eqb op x51 then
        rbind (skip_to_zero (skipn (pos + 1) rpn) (pos + 1))
              (fun pos' => Ok ((pos' + 1)%nat, st))
      else if Byte.eqb op x80 then
        Ok ((pos + 5)%nat, st)
      else if Byte.eqb op x50 || Byte.eqb op x81 then
        rbind (unpack [fI] (slice rpn (pos + 1) (pos + 5)))
              (fun '(symbol_id, _) =>
                 rbind (on_symbol symbol_id st)
                       (fun st' => Ok ((pos + 5)%nat, st')))
      else
        Ok ((pos + 1)%nat, st)
  end.

(** [while pos < len(rpn): ...]; the result is the cursor and the state
    when the loop ends. *)
Fixpoint rpn_loop (fuel : nat) (pos : nat) (st : S) : result (nat * S) :=
  if (pos <? List.length rpn)%nat then
    match fuel with
    | O => OutOfFuel
    | Datatypes.S fuel' =>
        rbind (rpn_step pos st) (fun '(pos', st') => rpn_loop fuel' pos' st')
    end
  else Ok (pos, st).

End RpnLoop.

(** What the scanner does with a symbol id: it adds it to the ids yielded
    so far. *)
Definition collect (symbol_id : Z) (ids : list Z) : result (list Z) :=
  Ok (ids ++ [symbol_id]).

(** The scanner alone: the loop, from cursor 0, with the symbol ids
    collected in the order they are met. The result is the final cursor and
    the ids. *)
Definition scan_symbol_references (fuel : nat) (rpn : list byte) : result (nat * list Z) :=
  rpn_loop collect rpn fuel 0%nat [].

(** ** Reference tally (lines 164 to 208) *)

(** The state of the registration loop: [localsyms], [globalsyms],
    [imports], [exports]. *)
Record registry : Type := mkRegistry {
  reg_locals : dict;
  reg_globals : dict;
  reg_imports : Z;
  reg_exports : Z
}.

(** [if name not in d: d[name] = 0] *)
Definition dict_touch (name : string) (d : dict) : dict :=
  if dict_mem name d then d else dict_set name 0 d.

Definition register_symbol (r : registry) (symbol : symbol) : registry :=
  match sym_type symbol with
  | LOCAL =>
      mkRegistry (dict_touch (sym_name symbol) (reg_locals r)) (reg_globals r)
                 (reg_imports r) (reg_exports r)
  | IMPORT =>
      mkRegistry (reg_locals r) (dict_touch (sym_name symbol) (reg_globals r))
                 (reg_imports r + 1) (reg_exports r)
  | EXPORT =>
      mkRegistry (reg_locals r) (dict_touch (sym_name symbol) (reg_globals r))
                 (reg_imports r) (reg_exports r + 1)
  end.

(** Lines 164 to 179, on the shared [globalsyms]. *)
Definition register_symbols (obj : object) (globalsyms : dict) : registry :=
  fold_left register_symbol (symbols obj) (mkRegistry [] globalsyms 0 0).

(** The two maps the counting pass updates: [(localsyms, globalsyms)]. *)
Definition tally : Type := (dict * dict)%type.

(** Lines 201 to 205. [symbol_id] comes from an unsigned field, so it never
    indexes from the end. *)
Definition count_reference (syms : list symbol) (symbol_id : Z) (t : tally) : result tally :=
  match nth_error syms (Z.to_nat symbol_id) with
  | None => Raise IndexError
  | Some symbol =>
      if is_local (sym_type symbol)
      then rbind (dict_incr (sym_name symbol) (fst t)) (fun l => Ok (l, snd t))
      else rbind (dict_incr (sym_name symbol) (snd t)) (fun g => Ok (fst t, g))
  end.

Section Counting.

Variable fuel : nat.
Variable syms : list symbol.

(** Lines 188 to 208 for one patch. *)
Definition count_patch (t : tally) (p : patch) : result tally :=
  rbind (rpn_loop (count_reference syms) (patch_rpn p) fuel 0%nat t)
        (fun '(_, t') => Ok t').

Fixpoint count_patches (patches : list patch) (t : tally) : result tally :=
  match patches with
  | [] => Ok t
  | p :: patches' => rbind (count_patch t p) (count_patches patches')
  end.

(** Lines 186 and 187. [section["patches"]] is a [KeyError] on a section
    dict without that key. *)
Definition count_section (t : tally) (s : section) : result tally :=
  if is_rom (sec_type s) then
    match sec_patches s with
    | None => Raise KeyError
    | Some patches => count_patches patches t
    end
  else Ok t.

Fixpoint count_sections (secs : list section) (t : tally) : result tally :=
  match secs with
  | [] => Ok t
  | s :: secs' => rbind (count_section t s) (count_sections secs')
  end.

End Counting.

(** The body of the file loop in analysis mode, from line 164: the locals
    and globals maps when the file is done. *)
Definition analyse_object (fuel : nat) (obj : object) (globalsyms : dict) : result tally :=
  let r := register_symbols obj globalsyms in
  count_sections fuel (symbols obj) (sections obj) (reg_locals r, reg_globals r).

(** The file loop on objects already parsed. *)
Fixpoint analyse_all (fuel : nat) (objs : list object) (globalsyms : dict) : result dict :=
  match objs with
  | [] => Ok globalsyms
  | obj :: objs' =>
      rbind (analyse_object fuel obj globalsyms)
            (fun t => analyse_all fuel objs' (snd t))
  end.

(** Lines 216 to 218: the names printed, one per line. *)
Definition report (globalsyms : dict) : list string :=
  filter (fun name => match dict_get name globalsyms with
                      | Some 0 => true
                      | _ => false
                      end)
         (dict_keys globalsyms).

(** ** The file loop (lines 150 to 218) *)

(** [print(name)] for each name of a list in turn, on a standard output that
    holds [stdout] already. [print] encodes the text as it writes it:
    [encodes name] says whether the encoding of [sys.stdout] has the
    characters of [name]. A name it lacks raises [UnicodeEncodeError]; the
    names before it are written, that one and the ones after it are not. *)
Fixpoint print_all (encodes : string -> bool) (names : list string)
    (stdout : list string) : list string * result unit :=
  match names with
  | [] => (stdout, Ok tt)
  | name :: names' =>
      if encodes name then print_all encodes names' (stdout ++ [name])
      else (stdout, Raise UnicodeEncodeError)
  end.

(** What the program has written to standard output, an element per [print],
    and how the loop ended: [Ok] with the shared [globalsyms] when every
    file is done. The lines written to [stderr] are left out; Python writes
    them with the [backslashreplace] handler, so they do not fail on a
    name. *)
Fixpoint file_loop (encodes : string -> bool) (fuel : nat) (just_dump : bool)
    (files : list (list byte)) (globalsyms : dict) (stdout : list string)
    : list string * result dict :=
  match files with
  | [] => (stdout, Ok globalsyms)
  | content :: files' =>
      match parse_object fuel content with
      | OutOfFuel => (stdout, OutOfFuel)
      | Raise e => (stdout, Raise e)
      | Ok (None, _) => (stdout, Raise (SystemExit (Some 1)))
      | Ok (Some obj, _) =>
          if just_dump then
            match print_all encodes (map sym_name (symbols obj)) stdout with
            | (stdout', Ok _) =>
                file_loop encodes fuel just_dump files' globalsyms stdout'
            | (stdout', Raise e) => (stdout', Raise e)
            | (stdout', OutOfFuel) => (stdout', OutOfFuel)
            end
          else
            match analyse_object fuel obj globalsyms with
            | Ok t => file_loop encodes fuel just_dump files' (snd t) stdout
            | Raise e => (stdout, Raise e)
            | OutOfFuel => (stdout, OutOfFuel)
            end
      end
  end.

(** The module from line 150 on, given the encoding of [sys.stdout],
    [just_dump] and the contents of the files named on the command line.
    [Ok tt] is a run that reaches the end of the module. *)
Definition main (encodes : string -> bool) (fuel : nat) (just_dump : bool)
    (files : list (list byte)) : list string * result unit :=
  match file_loop encodes fuel just_dump files [] [] with
  | (stdout, Ok globalsyms) =>
      if just_dump then (stdout, Raise (SystemExit None))
      else print_all encodes (report globalsyms) stdout
  | (stdout, Raise e) => (stdout, Raise e)
  | (stdout, OutOfFuel) => (stdout, OutOfFuel)
  end.

(** A standard output in UTF-8 has every character: it encodes every name;
    one in ASCII encodes the names whose bytes are all below 128. *)
Definition utf8_stdout (name : string) : bool := true.

Definition ascii_stdout (name : string) : bool :=
  forallb (fun b => byte_val b <? 128) (list_byte_of_string name).

(** ** Writing object files, for the examples *)

Definition byte_of (z : Z) : byte :=
  match Byte.of_N (Z.to_N (z mod 256)) with
  | Some b => b
  | None => x00
  end.

(** The four bytes of an unsigned 32-bit value, low byte first. *)
Definition le32 (z : Z) : list byte :=
  [byte_of z; byte_of (z / 256); byte_of (z / 65536); byte_of (z / 16777216)].

(** A name and its terminator. *)
Definition cstr (s : string) : list byte := list_byte_of_string s ++ [x00].

Module Examples.

(** Version 6, one EXPORT symbol [X] at index 0, one ROM0 section of two
    data bytes with one patch whose expression is [0x50 <0> 0x80 <7>]. *)
Definition export_X_referenced : list byte :=
  RGB6 ++ le32 1 ++ le32 1
  ++ cstr "X" ++ [x02] ++ cstr "a.asm" ++ le32 3 ++ le32 0 ++ le32 16
  ++ cstr "code" ++ le32 2 ++ [x03] ++ le32 0 ++ le32 0 ++ le32 1
  ++ [xc3; x00]
  ++ le32 1
  ++ cstr "a.asm" ++ le32 9 ++ le32 0 ++ [x01] ++ le32 10
  ++ (x50 :: le32 0 ++ x80 :: le32 7).

(** Version 6, the IMPORT symbols [X] and [Y] with a LOCAL symbol [tmp]
    between them, a WRAM0 section: nothing is referenced. *)
Definition import_X_unreferenced : list byte :=
  RGB6 ++ le32 3 ++ le32 1
  ++ cstr "X" ++ [x01]
  ++ cstr "tmp" ++ [x00] ++ cstr "b.asm" ++ le32 1 ++ le32 0 ++ le32 0
  ++ cstr "Y" ++ [x01]
  ++ cstr "vars" ++ le32 4 ++ [x00] ++ le32 0 ++ le32 0 ++ le32 1.

(** Version 14 (revision 4), no symbol, no section, one assertion of kind
    WARN with a one-byte expression and the message [msg]. *)
Definition one_assertion : list byte :=
  cstr "a.asm" ++ le32 0 ++ le32 0 ++ le32 0 ++ [x00] ++ le32 1 ++ [x00]
  ++ cstr "msg".

Definition v14_one_assertion : list byte :=
  RGB9 ++ le32 4 ++ le32 0 ++ le32 0 ++ le32 1 ++ one_assertion.

(** Version 6, one ROM0 section with one patch that declares an expression
    of 5 bytes; the file ends after 2 of them. *)
Definition truncated_rpn : list byte :=
  RGB6 ++ le32 0 ++ le32 1
  ++ cstr "code" ++ le32 0 ++ [x03] ++ le32 0 ++ le32 0 ++ le32 1
  ++ le32 1
  ++ cstr "a.asm" ++ le32 9 ++ le32 0 ++ [x00] ++ le32 5
  ++ [x80; x07].

(** The objects the first two files above parse to. *)
Definition object_B : object :=
  mkObject
    [mkSymbol "X" EXPORT (Some "a.asm"%string) (Some 3) (Some 0) (Some 16)]
    [mkSection "code" 0 0 ROM0 1 None (Some [xc3; x00])
       (Some [mkPatch "a.asm" (Some 9) 0 None None WORD
                (x50 :: le32 0 ++ x80 :: le32 7)])]
    6 None.

Definition object_A : object :=
  mkObject
    [mkSymbol "X" IMPORT None None None None;
     mkSymbol "tmp" LOCAL (Some "b.asm"%string) (Some 1) (Some 0) (Some 0);
     mkSymbol "Y" IMPORT None None None None]
    [mkSection "vars" 0 0 WRAM0 1 None None None]
    6 None.

(** An object with the symbols and sections of [object_B], of version 13,
    with an assertion whose expression names symbol 0. *)
Definition object_B_asserting : object :=
  mkObject (symbols object_B) (sections object_B) 13
    (Some [mkAssertion "a.asm" 0 None None FAIL (x50 :: le32 0) "must hold"]).

End Examples.

(** * Properties *)

(** ** Inversion of computations on the file *)

Lemma bind_ok {A B} (m : M A) (k : A -> M B) f b f' :
  bind m k f = Ok (b, f') ->
  exists a f1, m f = Ok (a, f1) /\ k a f1 = Ok (b, f').
Proof.
  unfold bind. destruct (m f) as [[a f1]| |]; try discriminate.
  intros H. now exists a, f1.
Qed.

Lemma ret_ok {A} (a b : A) f f' : ret a f = Ok (b, f') -> b = a /\ f' = f.
Proof. unfold ret. intros H. injection H as -> ->. now split. Qed.

Lemma lift_ok {A} (r : result A) a f f' :
  lift r f = Ok (a, f') -> r = Ok a /\ f' = f.
Proof.
  unfold lift. destruct r; try discriminate.
  intros H. injection H as -> ->. now split.
Qed.

Lemma file_read_ok site size f got f' :
  file_read site size f = Ok (got, f') ->
  got = firstn size (rest f)
  /\ rest f' = skipn size (rest f)
  /\ reads f' = reads f ++ [mkEvent site size got].
Proof.
  unfold file_read. intros H. injection H as <- <-. now repeat split.
Qed.

Lemma bytes_eqb_eq a b : bytes_eqb a b = true <-> a = b.
Proof.
  unfold bytes_eqb. destruct (list_eq_dec byte_eq_dec a b); split;
    congruence.
Qed.

Lemma unpack_ok fmt buffer v :
  unpack fmt buffer = Ok v ->
  List.length buffer = calcsize fmt /\ v = decode_fields fmt buffer.
Proof.
  unfold unpack. destruct (Nat.eqb_spec (List.length buffer) (calcsize fmt));
    try discriminate.
  intros H. injection H as <-. now split.
Qed.

(** A fixed-width read that succeeds got every byte of its format. *)
Lemma unpack_file_ok fmt f v f' :
  unpack_file fmt f = Ok (v, f') ->
  exists got,
    rest f = got ++ rest f'
    /\ List.length got = calcsize fmt
    /\ v = decode_fields fmt got
    /\ reads f' = reads f ++ [mkEvent (InUnpackFile fmt) (calcsize fmt) got].
Proof.
  unfold unpack_file. intros H.
  apply bind_ok in H. destruct H as (got & f1 & Hr & Hu).
  apply file_read_ok in Hr. destruct Hr as (Hgot & Hrest & Hreads).
  apply lift_ok in Hu. destruct Hu as (Hu & ->).
  apply unpack_ok in Hu. destruct Hu as (Hlen & ->).
  exists got. repeat split; auto.
  rewrite Hrest, Hgot. symmetry. apply firstn_skipn.
Qed.

(** With fewer bytes left than the format needs, [unpack_file] raises. *)
Lemma unpack_file_short fmt f :
  (List.length (rest f) < calcsize fmt)%nat ->
  unpack_file fmt f = Raise StructError.
Proof.
  intros Hlt. unfold unpack_file, bind, file_read, lift, unpack. simpl.
  rewrite firstn_all2 by lia.
  destruct (Nat.eqb_spec (List.length (rest f)) (calcsize fmt)); [lia|reflexivity].
Qed.

(** The events of a trace that come from [read_string]. *)
Definition from_read_string (ev : read_event) : Prop :=
  ev_site ev = InReadString.

Lemma read_string_loop_ok fuel : forall buf f s f',
  read_string_loop fuel buf f = Ok (s, f') ->
  exists evs, reads f' = reads f ++ evs /\ Forall from_read_string evs.
Proof.
  induction fuel as [|fuel IH]; intros buf f s f' H; [discriminate|].
  simpl in H. apply bind_ok in H. destruct H as (b & f1 & Hr & Hk).
  apply file_read_ok in Hr. destruct Hr as (_ & _ & Hreads).
  destruct (bytes_eqb b [x00]).
  - apply lift_ok in Hk. destruct Hk as (_ & ->).
    eexists. split; [exact Hreads|]. now constructor.
  - apply IH in Hk. destruct Hk as (evs & Hk & Hall).
    exists (mkEvent InReadString 1 b :: evs). split.
    + rewrite Hk, Hreads, <- app_assoc. reflexivity.
    + now constructor.
Qed.

Lemma read_string_ok fuel f s f' :
  read_string fuel f = Ok (s, f') ->
  exists evs, reads f' = reads f ++ evs /\ Forall from_read_string evs.
Proof. apply read_string_loop_ok. Qed.

(** ** [read_string] at the end of the file *)

Lemma read_string_loop_no_terminator fuel : forall buf f,
  Forall (fun b => b <> x00) (rest f) ->
  read_string_loop fuel buf f = OutOfFuel.
Proof.
  induction fuel as [|fuel IH]; intros buf f Hnz; [reflexivity|].
  simpl. unfold bind, file_read.
  destruct (rest f) as [|b r] eqn:Hrest; simpl.
  - apply IH. simpl. constructor.
  - destruct (bytes_eqb [b] [x00]) eqn:E.
    + apply bytes_eqb_eq in E. injection E as ->.
      inversion Hnz; subst. congruence.
    + apply IH. simpl. now inversion Hnz.
Qed.

(** C4, on the code: when no zero byte is left in the stream, [read_string]
    does not fail and does not return. Whatever number of iterations it is
    allowed, the loop is still running: at the end of the file [file.read(1)]
    gives [b''], which is neither [None] nor [b'\0']. *)
Theorem read_string_without_terminator_never_returns :
  forall (fuel : nat) (f : file),
    Forall (fun b => b <> x00) (rest f) ->
    read_string fuel f = OutOfFuel.
Proof. intros fuel f H. now apply read_string_loop_no_terminator. Qed.

Lemma read_string_without_terminator_witness :
  Forall (fun b => b <> x00) (rest (open [x41; x42]))
  /\ read_string 1000 (open [x41; x42]) = OutOfFuel.
Proof.
  assert (H : Forall (fun b => b <> x00) (rest (open [x41; x42]))).
  { simpl. repeat constructor; discriminate. }
  split; [exact H|].
  exact (read_string_without_terminator_never_returns 1000 (open [x41; x42]) H).
Defined.

(** ** Assertions of version 14 *)

Ltac bind_inv H :=
  let a := fresh "a" in
  let f := fresh "f" in
  let H1 := fresh "H" in
  apply bind_ok in H; destruct H as (a & f & H1 & H).

(** C6, on the code: in a file of version 14 or more, parsing an assertion
    never yields an assertion record. Once the source file name and the
    byte offset are read, the call on line 126 raises [TypeError]: the
    section id and the pc offset are not read from the stream. *)
Theorem parse_assertion_v14_raises_type_error :
  forall (fuel : nat) (ver : Z) (f : file),
    14 <= ver ->
    (forall a f', parse_assertion fuel ver f <> Ok (a, f'))
    /\ (forall name f1 offset f2,
          read_string fuel f = Ok (name, f1) ->
          unpack_file [fI] f1 = Ok (offset, f2) ->
          parse_assertion fuel ver f = Raise TypeError).
Proof.
  intros fuel ver f Hver.
  assert (Hge : (14 <=? ver) = true) by now apply Z.leb_le.
  split.
  - intros a f' H. unfold parse_assertion in H.
    bind_inv H. bind_inv H. destruct a1 as [offset []].
    rewrite Hge in H. bind_inv H. discriminate.
  - intros name f1 offset f2 Hname Hoff.
    unfold parse_assertion, bind. rewrite Hname, Hoff.
    destruct offset as [offset []]. rewrite Hge. reflexivity.
Qed.

Lemma parse_assertion_v14_witness :
  14 <= 14
  /\ parse_assertion 10 14 (open Examples.one_assertion) = Raise TypeError.
Proof.
  split; [lia|].
  refine (proj2 (parse_assertion_v14_raises_type_error
                   10 14 (open Examples.one_assertion) _) _ _ _ _ _ _);
    [lia | vm_compute; reflexivity | vm_compute; reflexivity].
Defined.

(** The whole parse of a version-14 file with one assertion ends in that
    [TypeError]. *)
Lemma parse_object_v14_one_assertion :
  parse_object 10 Examples.v14_one_assertion = Raise TypeError.
Proof. vm_compute. reflexivity. Qed.

(** The same assertion bytes parse in a version-13 file, where the two
    fields are not part of the layout. *)
Lemma parse_assertion_v13_example :
  exists a f', parse_assertion 10 13 (open (cstr "a.asm" ++ le32 0 ++ [x00] ++ le32 1 ++ [x00] ++ cstr "msg")) = Ok (a, f')
               /\ assert_section a = None /\ assert_message a = "msg"%string.
Proof. do 2 eexists. vm_compute. repeat split. Qed.

(** ** What a successful parse has read *)

(** The reads whose size is fixed by the layout: the fixed-width fields and
    the section data. *)
Definition fixed_site (s : read_site) : bool :=
  match s with
  | InUnpackFile _ => true
  | SectionData => true
  | _ => false
  end.

(** The read returned as many bytes as it asked for. *)
Definition complete (ev : read_event) : Prop :=
  List.length (ev_got ev) = ev_size ev.

Definition sound_event (ev : read_event) : Prop :=
  fixed_site (ev_site ev) = true -> complete ev.

(** [yields m P E]: whenever [m] returns, its value satisfies [P] and the
    reads it made satisfy [E]. *)
Definition yields {A} (m : M A) (P : A -> Prop) (E : read_event -> Prop) : Prop :=
  forall f a f',
    m f = Ok (a, f') ->
    P a /\ exists evs, reads f' = reads f ++ evs /\ Forall E evs.

Section Yields.

Variable E : read_event -> Prop.

Lemma yields_ret {A} (a : A) (P : A -> Prop) : P a -> yields (ret a) P E.
Proof.
  intros Ha f b f' H. apply ret_ok in H. destruct H as (-> & ->).
  split; [assumption|]. exists []. now rewrite app_nil_r.
Qed.

Lemma yields_raise {A} e (P : A -> Prop) : yields (raise e) P E.
Proof. intros f a f' H. discriminate. Qed.

Lemma yields_bind {A B} (m : M A) (k : A -> M B) P Q :
  yields m P E ->
  (forall a, P a -> yields (k a) Q E) ->
  yields (bind m k) Q E.
Proof.
  intros Hm Hk f b f' H. bind_inv H.
  apply Hm in H0. destruct H0 as (Pa & evs1 & R1 & F1).
  apply (Hk _ Pa) in H. destruct H as (Qb & evs2 & R2 & F2).
  split; [assumption|]. exists (evs1 ++ evs2). split.
  - now rewrite R2, R1, app_assoc.
  - now apply Forall_app.
Qed.

Lemma yields_weaken {A} (m : M A) (P Q : A -> Prop) :
  yields m P E -> (forall a, P a -> Q a) -> yields m Q E.
Proof.
  intros Hm HPQ f a f' H. apply Hm in H. destruct H as (Pa & Hevs).
  split; auto.
Qed.

Lemma yields_lift {A} (r : result A) (P : A -> Prop) :
  (forall a, r = Ok a -> P a) -> yields (lift r) P E.
Proof.
  intros Hr f a f' H. apply lift_ok in H. destruct H as (H & ->).
  split; [auto|]. exists []. now rewrite app_nil_r.
Qed.

Lemma yields_for_range {A} (body : M A) (P : A -> Prop) n :
  yields body P E -> yields (for_range n body) (Forall P) E.
Proof.
  intros Hbody. induction n as [|n IH]; simpl.
  - now apply yields_ret.
  - eapply yields_bind; [exact Hbody|]. intros a Pa.
    eapply yields_bind; [exact IH|]. intros l Pl.
    apply yields_ret. now constructor.
Qed.

Lemma yields_file_read site size :
  (forall got, E (mkEvent site size got)) ->
  yields (file_read site size) (fun _ => True) E.
Proof.
  intros HE f got f' H. apply file_read_ok in H.
  destruct H as (_ & _ & R). split; [exact I|].
  eexists. split; [exact R|]. repeat constructor. apply HE.
Qed.

Lemma yields_read_string fuel :
  (forall ev, from_read_string ev -> E ev) ->
  yields (read_string fuel) (fun _ => True) E.
Proof.
  intros HE f s f' H. apply read_string_ok in H.
  destruct H as (evs & R & F). split; [exact I|].
  exists evs. split; [exact R|].
  eapply Forall_impl; [|exact F]. exact HE.
Qed.

Lemma yields_unpack_file fmt :
  (forall ev, ev_site ev = InUnpackFile fmt -> complete ev -> E ev) ->
  yields (unpack_file fmt) (fun _ => True) E.
Proof.
  intros HE f v f' H. apply unpack_file_ok in H.
  destruct H as (got & _ & Hlen & _ & R). split; [exact I|].
  eexists. split; [exact R|]. repeat constructor.
  apply HE; [reflexivity|exact Hlen].
Qed.

End Yields.

(** A read of raw bytes followed by a fixed-width read: when the second
    succeeds the first was not short, since a short read leaves the file at
    its end. *)
Lemma yields_read_then_unpack {B} site size fmt
    (k : list byte -> fmt_tuple fmt -> M B) (Q : B -> Prop) :
  (0 < calcsize fmt)%nat ->
  (forall data v, yields (k data v) Q sound_event) ->
  yields (bind (file_read site size)
               (fun data => bind (unpack_file fmt) (fun v => k data v)))
         Q sound_event.
Proof.
  intros Hpos Hk f b f' H. bind_inv H. bind_inv H.
  apply file_read_ok in H0. destruct H0 as (Hgot & Hrest & R0).
  pose proof (unpack_file_ok _ _ _ _ H1) as (got & Hsplit & Hlen & _ & R1).
  apply Hk in H. destruct H as (Qb & evs & R & F).
  split; [assumption|].
  exists (mkEvent site size a :: mkEvent (InUnpackFile fmt) (calcsize fmt) got :: evs).
  split.
  - rewrite R, R1, R0, <- !app_assoc. reflexivity.
  - constructor; [|constructor; [|exact F]].
    + intros _. unfold complete. simpl. subst a.
      apply firstn_length_le.
      destruct (Nat.le_gt_cases size (List.length (rest f))) as [Hle|Hgt];
        [exact Hle|].
      rewrite skipn_all2 in Hrest by lia.
      rewrite Hrest in Hsplit. symmetry in Hsplit.
      apply app_eq_nil in Hsplit. destruct Hsplit as (-> & _).
      simpl in Hlen. lia.
    + intros _. exact Hlen.
Qed.

Lemma sound_read_string ev : from_read_string ev -> sound_event ev.
Proof. unfold from_read_string, sound_event. intros ->. discriminate. Qed.

Lemma sound_unpack fmt ev :
  ev_site ev = InUnpackFile fmt -> complete ev -> sound_event ev.
Proof. intros _ Hc _. exact Hc. Qed.

Lemma sound_raw site size got :
  fixed_site site = false -> sound_event (mkEvent site size got).
Proof. unfold sound_event. simpl. intros ->. discriminate. Qed.

(** The keys a patch dict has, by version. *)
Definition patch_gated (ver : Z) (p : patch) : Prop :=
  (patch_line p <> None <-> ver < 11)
  /\ (patch_pcsectionid p <> None <-> 14 <= ver)
  /\ (patch_pcoffset p <> None <-> 14 <= ver).

Definition section_gated (ver : Z) (s : section) : Prop :=
  forall patches, sec_patches s = Some patches -> Forall (patch_gated ver) patches.

Definition object_gated (obj : object) : Prop :=
  supported_version (version obj) = true
  /\ Forall (section_gated (version obj)) (sections obj).

Ltac y_string :=
  eapply yields_bind; [apply yields_read_string, sound_read_string|];
  intros ? _; cbv beta iota.
Ltac y_unpack :=
  eapply yields_bind; [eapply yields_unpack_file, sound_unpack|];
  intros ? _; cbv beta iota.
Ltac y_lift :=
  eapply yields_bind; [apply yields_lift with (P := fun _ => True); auto|];
  intros ? _; cbv beta iota.

Lemma parse_symbol_yields fuel :
  yields (parse_symbol fuel) (fun _ => True) sound_event.
Proof.
  unfold parse_symbol. y_string. y_unpack. destruct a0 as [t []].
  y_lift. destruct (is_import a0).
  - now apply yields_ret.
  - y_string. y_unpack. destruct a2 as [l [s [v []]]]. now apply yields_ret.
Qed.

Lemma parse_patch_yields fuel ver :
  yields (parse_patch fuel ver) (patch_gated ver) sound_event.
Proof.
  unfold parse_patch. y_string.
  eapply yields_bind with (P := fun line => line <> None <-> ver < 11).
  { destruct (Z.ltb_spec ver 11).
    - y_unpack. destruct a0 as [l []]. apply yields_ret.
      split; [auto|discriminate].
    - apply yields_ret. split; [congruence|lia]. }
  intros line Hline. y_unpack. destruct a0 as [offset []].
  eapply yields_bind
    with (P := fun pr => (fst pr <> None <-> 14 <= ver)
                         /\ (snd pr <> None <-> 14 <= ver)).
  { destruct (Z.leb_spec 14 ver).
    - y_unpack. destruct a0 as [s [o []]]. apply yields_ret.
      simpl. split; (split; [auto|discriminate]).
    - apply yields_ret. simpl. split; (split; [congruence|lia]). }
  intros [pcs pco] [Hs Ho]. y_unpack. destruct a0 as [t [rpn_size []]].
  y_lift.
  eapply yields_bind;
    [apply yields_file_read; intros; now apply sound_raw|].
  intros rpn _. apply yields_ret. simpl in Hs, Ho.
  unfold patch_gated. simpl. auto.
Qed.

Lemma parse_section_yields fuel ver :
  yields (parse_section fuel ver) (section_gated ver) sound_event.
Proof.
  unfold parse_section. y_string. y_unpack.
  destruct a0 as [size [t [org [bank []]]]]. y_lift.
  eapply yields_bind with (P := fun _ => True).
  { destruct (14 <=? ver).
    - y_unpack. destruct a1 as [al [o []]]. now apply yields_ret.
    - y_unpack. destruct a1 as [al []]. now apply yields_ret. }
  intros [align offset] _. destruct (is_rom a0).
  - apply (yields_read_then_unpack SectionData (Z.to_nat size) [fI]
             (fun data v =>
                match v with
                | (num_patches, tt) =>
                    bind (for_range (Z.to_nat num_patches) (parse_patch fuel ver))
                         (fun patches =>
                            ret (mkSection a org bank a0 align offset
                                           (Some data) (Some patches)))
                end)).
    + simpl. lia.
    + intros data [num_patches []].
      eapply yields_bind;
        [apply yields_for_range, parse_patch_yields|].
      intros patches Hp. apply yields_ret.
      intros ps Hps. simpl in Hps. now injection Hps as <-.
  - apply yields_ret. intros ps Hps. discriminate.
Qed.

Lemma parse_assertion_yields fuel ver :
  yields (parse_assertion fuel ver) (fun _ => True) sound_event.
Proof.
  unfold parse_assertion. y_string. y_unpack. destruct a0 as [offset []].
  eapply yields_bind with (P := fun _ => True).
  { destruct (14 <=? ver); [apply yields_raise|now apply yields_ret]. }
  intros [s o] _. y_unpack. destruct a0 as [t [rpn_size []]]. y_lift.
  eapply yields_bind;
    [apply yields_file_read; intros; now apply sound_raw|].
  intros rpn _. y_string. now apply yields_ret.
Qed.

Lemma parse_tables_yields fuel ver :
  supported_version ver = true ->
  yields (parse_tables fuel ver) object_gated sound_event.
Proof.
  intros Hver. unfold parse_tables. y_unpack. destruct a as [ns [nc []]].
  eapply yields_bind; [apply yields_for_range, parse_symbol_yields|].
  intros syms _.
  eapply yields_bind; [apply yields_for_range, (parse_section_yields fuel ver)|].
  intros secs Hsecs.
  eapply yields_bind with (P := fun _ => True).
  { destruct (13 <=? ver).
    - y_unpack. destruct a as [na []].
      eapply yields_bind; [apply yields_for_range, (parse_assertion_yields fuel ver)|].
      intros items _. now apply yields_ret.
    - now apply yields_ret. }
  intros asserts _. apply yields_ret. now split.
Qed.

Lemma parse_stream_yields fuel :
  yields (parse_stream fuel)
         (fun r => forall obj, r = Some obj -> object_gated obj) sound_event.
Proof.
  unfold parse_stream.
  eapply yields_bind with (P := fun _ => True).
  { unfold parse_header. y_unpack. destruct a as [magic []].
    destruct (bytes_eqb magic RGB6); [now apply yields_ret|].
    destruct (bytes_eqb magic RGB9); [|now apply yields_ret].
    y_unpack. destruct a as [revision []]. now apply yields_ret. }
  intros [obj_ver|] _.
  - destruct (supported_version obj_ver) eqn:Hs.
    + eapply yields_bind; [apply (parse_tables_yields fuel obj_ver Hs)|].
      intros obj Hobj. apply yields_ret. intros o Ho. now injection Ho as <-.
    + apply yields_ret. discriminate.
  - apply yields_ret. discriminate.
Qed.

(** The formats of the fixed-width reads of a trace, in order. *)
Definition unpack_formats (evs : list read_event) : list format :=
  flat_map (fun ev => match ev_site ev with
                      | InUnpackFile fmt => [fmt]
                      | _ => []
                      end) evs.








(** A version-11 patch and a version-14 patch. *)
Lemma parse_patch_v11_v14_example :
  (exists p f',
      parse_patch 10 11 (open (cstr "a.asm" ++ le32 1 ++ [x00] ++ le32 0)) = Ok (p, f')
      /\ patch_line p = None /\ patch_offset p = 1
      /\ patch_pcsectionid p = None /\ patch_pcoffset p = None
      /\ unpack_formats (reads f') = [[fI]; [fB; fI]])
  /\ (exists p f',
        parse_patch 10 14
          (open (cstr "a.asm" ++ le32 1 ++ le32 2 ++ le32 3 ++ [x00] ++ le32 0)) = Ok (p, f')
        /\ patch_line p = None /\ patch_offset p = 1
        /\ patch_pcsectionid p = Some 2 /\ patch_pcoffset p = Some 3
        /\ unpack_formats (reads f') = [[fI]; [fI; fI]; [fB; fI]]).
Proof. split; do 2 eexists; vm_compute; repeat split. Qed.

(** ** Short reads *)

(** C5 as stated fails: the last expression buffer of a version-6 file
    declares 5 bytes, the file has 2 left, and [parse_object] returns the
    object, with the 2 bytes as the patch's expression. *)
Lemma truncated_rpn_is_parsed :
  exists obj f' sec p,
    parse_object 10 Examples.truncated_rpn = Ok (Some obj, f')
    /\ sections obj = [sec]
    /\ sec_patches sec = Some [p]
    /\ patch_rpn p = [x80; x07]
    /\ In (mkEvent PatchRpn 5 [x80; x07]) (reads f').
Proof.
  do 4 eexists. vm_compute.
  split; [reflexivity|]. split; [reflexivity|]. split; [reflexivity|].
  split; [reflexivity|]. repeat (try (left; reflexivity); right).
Qed.

(** All the reads made so far returned what they asked for. *)
Definition tidy (f : file) : Prop := Forall complete (reads f).

(** The file is at its end, and of the reads made so far only the last one,
    made at a site in [P], may have come back short. *)
Definition ends_short (P : read_site -> Prop) (f : file) : Prop :=
  rest f = []
  /\ exists pre ev,
       reads f = pre ++ [ev] /\ Forall complete pre /\ P (ev_site ev).

Definition settled (P : read_site -> Prop) (f : file) : Prop :=
  tidy f \/ ends_short P f.

(** [reads_well P m]: from a tidy file, when [m] returns the file is tidy
    again or ends short at a site in [P]. *)
Definition reads_well {A} (P : read_site -> Prop) (m : M A) : Prop :=
  forall f a f', tidy f -> m f = Ok (a, f') -> settled P f'.

(** [m] does not return at the end of the file. *)
Definition strict {A} (m : M A) : Prop :=
  forall f a f', rest f = [] -> m f <> Ok (a, f').

(** At the end of the file [m] does nothing, if it returns at all. *)
Definition inert {A} (m : M A) : Prop :=
  forall f a f', rest f = [] -> m f = Ok (a, f') -> f' = f.

Definition nowhere (s : read_site) : Prop := False.

Lemma strict_inert {A} (m : M A) : strict m -> inert m.
Proof. intros Hs f a f' Hr H. now apply Hs in H. Qed.

Lemma strict_bind {A B} (m : M A) (k : A -> M B) : strict m -> strict (bind m k).
Proof.
  intros Hs f b f' Hr H. apply bind_ok in H. destruct H as (a & f1 & H & _).
  now apply Hs in H.
Qed.

Lemma inert_bind {A B} (m : M A) (k : A -> M B) :
  inert m -> (forall a, inert (k a)) -> inert (bind m k).
Proof.
  intros Hm Hk f b f' Hr H. apply bind_ok in H. destruct H as (a & f1 & H1 & H2).
  pose proof (Hm _ _ _ Hr H1) as ->. now apply (Hk a f b f').
Qed.

Lemma inert_ret {A} (a : A) : inert (ret a).
Proof. intros f b f' _ H. apply ret_ok in H. now destruct H. Qed.

Lemma reads_well_ret {A} P (a : A) : reads_well P (ret a).
Proof. intros f b f' Ht H. apply ret_ok in H. destruct H as (_ & ->). now left. Qed.

Lemma reads_well_lift {A} P (r : result A) : reads_well P (lift r).
Proof. intros f b f' Ht H. apply lift_ok in H. destruct H as (_ & ->). now left. Qed.

Lemma reads_well_raise {A} P e : reads_well P (@raise A e).
Proof. intros f b f' _ H. discriminate. Qed.

Lemma strict_raise {A} e : strict (@raise A e).
Proof. intros f b f' _ H. discriminate. Qed.

Lemma reads_well_weaken {A} (P Q : read_site -> Prop) (m : M A) :
  reads_well P m -> (forall s, P s -> Q s) -> reads_well Q m.
Proof.
  intros Hm HPQ f a f' Ht H. destruct (Hm f a f' Ht H) as [Hf|(Hr & pre & ev & R & F & Hp)].
  - now left.
  - right. split; [exact Hr|]. exists pre, ev. auto.
Qed.

(** After a part that leaves the file tidy. *)
Lemma reads_well_after_clean {A B} P (m : M A) (k : A -> M B) :
  reads_well nowhere m -> (forall a, reads_well P (k a)) -> reads_well P (bind m k).
Proof.
  intros Hm Hk f b f' Ht H. apply bind_ok in H. destruct H as (a & f1 & H1 & H2).
  destruct (Hm f a f1 Ht H1) as [Ht1|(_ & pre & ev & _ & _ & [])].
  now apply (Hk a f1 b f').
Qed.

(** Before a part that does not return at the end of the file. *)
Lemma reads_well_before_strict {A B} P Q (m : M A) (k : A -> M B) :
  reads_well Q m -> (forall a, strict (k a)) -> (forall a, reads_well P (k a)) ->
  reads_well P (bind m k).
Proof.
  intros Hm Hs Hk f b f' Ht H. apply bind_ok in H. destruct H as (a & f1 & H1 & H2).
  destruct (Hm f a f1 Ht H1) as [Ht1|(Hr & _)].
  - now apply (Hk a f1 b f').
  - now apply (Hs a f1 b f') in Hr.
Qed.

(** Before a part that does nothing at the end of the file. *)
Lemma reads_well_before_inert {A B} P (m : M A) (k : A -> M B) :
  reads_well P m -> (forall a, inert (k a)) -> (forall a, reads_well P (k a)) ->
  reads_well P (bind m k).
Proof.
  intros Hm Hi Hk f b f' Ht H. apply bind_ok in H. destruct H as (a & f1 & H1 & H2).
  destruct (Hm f a f1 Ht H1) as [Ht1|Hshort].
  - now apply (Hk a f1 b f').
  - destruct Hshort as (Hr & Hrest). pose proof (Hi a f1 b f' Hr H2) as ->.
    right. now split.
Qed.

Lemma for_range_reads_well {A} P (body : M A) n :
  reads_well P body -> strict body ->
  reads_well P (for_range n body) /\ inert (for_range n body).
Proof.
  intros Hb Hs. induction n as [|n (IHw & IHi)]; simpl.
  - split; [apply reads_well_ret|apply inert_ret].
  - split.
    + apply reads_well_before_inert; [exact Hb| |].
      * intros a. apply inert_bind; [exact IHi|]. intros l. apply inert_ret.
      * intros a. apply reads_well_before_inert; [exact IHw| |].
        -- intros l. apply inert_ret.
        -- intros l. apply reads_well_ret.
    + apply strict_inert, strict_bind, Hs.
Qed.

Lemma unpack_file_clean fmt : reads_well nowhere (unpack_file fmt).
Proof.
  intros f v f' Ht H. apply unpack_file_ok in H.
  destruct H as (got & _ & Hlen & _ & R). left. unfold tidy. rewrite R.
  apply Forall_app. split; [exact Ht|]. repeat constructor. exact Hlen.
Qed.

Lemma unpack_file_strict fmt : (0 < calcsize fmt)%nat -> strict (unpack_file fmt).
Proof.
  intros Hpos f v f' Hr H. rewrite unpack_file_short in H; [discriminate|].
  rewrite Hr. simpl. lia.
Qed.

Lemma read_string_strict fuel : strict (read_string fuel).
Proof.
  intros f s f' Hr H. unfold read_string in H.
  rewrite read_string_loop_no_terminator in H; [discriminate|].
  rewrite Hr. constructor.
Qed.

Lemma read_string_loop_complete fuel : forall buf f s f',
  read_string_loop fuel buf f = Ok (s, f') ->
  exists evs, reads f' = reads f ++ evs /\ Forall complete evs.
Proof.
  induction fuel as [|fuel IH]; intros buf f s f' H; [discriminate|].
  destruct (rest f) as [|b r] eqn:Hrest.
  { rewrite read_string_loop_no_terminator in H; [discriminate|].
    rewrite Hrest. constructor. }
  simpl in H. apply bind_ok in H. destruct H as (got & f1 & Hr & Hk).
  apply file_read_ok in Hr. destruct Hr as (Hgot & _ & Hreads).
  rewrite Hrest in Hgot. simpl in Hgot. subst got.
  destruct (bytes_eqb [b] [x00]).
  - apply lift_ok in Hk. destruct Hk as (_ & ->).
    eexists. split; [exact Hreads|]. repeat constructor.
  - apply IH in Hk. destruct Hk as (evs & Hk & Hall).
    exists (mkEvent InReadString 1 [b] :: evs). split.
    + rewrite Hk, Hreads, <- app_assoc. reflexivity.
    + constructor; [reflexivity|exact Hall].
Qed.

Lemma read_string_clean fuel : reads_well nowhere (read_string fuel).
Proof.
  intros f s f' Ht H. apply read_string_loop_complete in H.
  destruct H as (evs & R & F). left. unfold tidy. rewrite R.
  now apply Forall_app.
Qed.

(** A read of raw bytes: complete, or short and then at the end of the
    file. *)
Lemma file_read_reads_well site size : reads_well (eq site) (file_read site size).
Proof.
  intros f got f' Ht H. apply file_read_ok in H. destruct H as (Hgot & Hrest & R).
  destruct (Nat.le_gt_cases size (List.length (rest f))) as [Hle|Hgt].
  - left. unfold tidy. rewrite R. apply Forall_app. split; [exact Ht|].
    repeat constructor. unfold complete. simpl. subst got.
    now apply firstn_length_le.
  - right. split.
    + rewrite Hrest. apply skipn_all2. lia.
    + exists (reads f), (mkEvent site size got). now repeat split.
Qed.

Ltac w_string :=
  apply reads_well_after_clean; [apply read_string_clean|]; intros ?;
  cbv beta iota.
Ltac w_unpack :=
  apply reads_well_after_clean; [apply unpack_file_clean|]; intros ?;
  cbv beta iota.
Ltac w_lift :=
  apply reads_well_after_clean; [apply reads_well_lift|]; intros ?;
  cbv beta iota.

Lemma parse_symbol_reads_well fuel :
  reads_well nowhere (parse_symbol fuel) /\ strict (parse_symbol fuel).
Proof.
  split; [|apply strict_bind, read_string_strict].
  unfold parse_symbol. w_string. w_unpack. destruct a0 as [t []]. w_lift.
  destruct (is_import a0); [apply reads_well_ret|].
  w_string. w_unpack. destruct a2 as [l [s [v []]]]. apply reads_well_ret.
Qed.

Lemma parse_patch_reads_well fuel ver :
  reads_well (eq PatchRpn) (parse_patch fuel ver) /\ strict (parse_patch fuel ver).
Proof.
  split; [|apply strict_bind, read_string_strict].
  unfold parse_patch. w_string.
  apply reads_well_after_clean.
  { destruct (ver <? 11); [|apply reads_well_ret].
    w_unpack. destruct a0 as [l []]. apply reads_well_ret. }
  intros line. w_unpack. destruct a0 as [offset []].
  apply reads_well_after_clean.
  { destruct (14 <=? ver); [|apply reads_well_ret].
    w_unpack. destruct a0 as [s [o []]]. apply reads_well_ret. }
  intros [pcs pco]. w_unpack. destruct a0 as [t [rpn_size []]]. w_lift.
  apply reads_well_before_inert; [apply file_read_reads_well| |];
    intros rpn; [apply inert_ret|apply reads_well_ret].
Qed.

Lemma parse_section_reads_well fuel ver :
  reads_well (eq PatchRpn) (parse_section fuel ver)
  /\ strict (parse_section fuel ver).
Proof.
  split; [|apply strict_bind, read_string_strict].
  unfold parse_section. w_string. w_unpack.
  destruct a0 as [size [t [org [bank []]]]]. w_lift.
  apply reads_well_after_clean.
  { destruct (14 <=? ver).
    - w_unpack. destruct a1 as [al [o []]]. apply reads_well_ret.
    - w_unpack. destruct a1 as [al []]. apply reads_well_ret. }
  intros [align offset]. destruct (is_rom a0); [|apply reads_well_ret].
  destruct (for_range_reads_well (eq PatchRpn) (parse_patch fuel ver))
    with (n := 0%nat) as (_ & _);
    try apply parse_patch_reads_well.
  apply (reads_well_before_strict _ (eq SectionData));
    [apply file_read_reads_well| |]; intros data.
  - apply strict_bind, unpack_file_strict. simpl. lia.
  - w_unpack. destruct a1 as [num_patches []].
    destruct (for_range_reads_well (eq PatchRpn) (parse_patch fuel ver)
                (Z.to_nat num_patches))
      as (Hw & Hi); try apply parse_patch_reads_well.
    apply reads_well_before_inert; [exact Hw| |]; intros patches;
      [apply inert_ret|apply reads_well_ret].
Qed.

Lemma parse_assertion_reads_well fuel ver :
  reads_well nowhere (parse_assertion fuel ver)
  /\ strict (parse_assertion fuel ver).
Proof.
  split; [|apply strict_bind, read_string_strict].
  unfold parse_assertion. w_string. w_unpack. destruct a0 as [offset []].
  apply reads_well_after_clean.
  { destruct (14 <=? ver); [apply reads_well_raise|apply reads_well_ret]. }
  intros [s o]. w_unpack. destruct a0 as [t [rpn_size []]]. w_lift.
  apply (reads_well_before_strict _ (eq AssertionRpn));
    [apply file_read_reads_well| |]; intros rpn.
  - apply strict_bind, read_string_strict.
  - w_string. apply reads_well_ret.
Qed.

Lemma parse_tables_reads_well fuel ver :
  reads_well (fun s => s = PatchRpn /\ ver < 13) (parse_tables fuel ver).
Proof.
  unfold parse_tables. w_unpack. destruct a as [ns [nc []]].
  destruct (for_range_reads_well nowhere (parse_symbol fuel) (Z.to_nat ns))
    as (Hsyms & _); try apply parse_symbol_reads_well.
  apply reads_well_after_clean; [exact Hsyms|]. intros syms.
  destruct (for_range_reads_well (eq PatchRpn) (parse_section fuel ver)
              (Z.to_nat nc))
    as (Hsecs & _); try apply parse_section_reads_well.
  destruct (Z.leb_spec 13 ver) as [Hge|Hlt].
  - apply (reads_well_before_strict _ (eq PatchRpn)); [exact Hsecs| |];
      intros secs.
    + apply strict_bind, strict_bind, unpack_file_strict. simpl. lia.
    + apply reads_well_after_clean; [|intros a; apply reads_well_ret].
      w_unpack. destruct a as [na []].
      destruct (for_range_reads_well nowhere (parse_assertion fuel ver)
                  (Z.to_nat na))
        as (Hasserts & _); try apply parse_assertion_reads_well.
      apply reads_well_after_clean; [exact Hasserts|]. intros items.
      apply reads_well_ret.
  - apply reads_well_before_inert.
    + eapply reads_well_weaken; [exact Hsecs|]. intros s <-. now split.
    + intros secs. apply inert_bind; [apply inert_ret|].
      intros a. apply inert_ret.
    + intros secs. apply reads_well_after_clean; [apply reads_well_ret|].
      intros a. apply reads_well_ret.
Qed.

Lemma parse_header_clean : reads_well nowhere parse_header.
Proof.
  unfold parse_header. w_unpack. destruct a as [magic []].
  destruct (bytes_eqb magic RGB6); [apply reads_well_ret|].
  destruct (bytes_eqb magic RGB9); [|apply reads_well_ret].
  w_unpack. destruct a as [revision []]. apply reads_well_ret.
Qed.

Lemma parse_tables_version fuel ver f obj f' :
  parse_tables fuel ver f = Ok (obj, f') -> version obj = ver.
Proof.
  unfold parse_tables. intros H.
  apply bind_ok in H. destruct H as ([ns [nc []]] & f1 & _ & H).
  apply bind_ok in H. destruct H as (syms & f2 & _ & H).
  apply bind_ok in H. destruct H as (secs & f3 & _ & H).
  apply bind_ok in H. destruct H as (asserts & f4 & _ & H).
  apply ret_ok in H. now destruct H as (-> & _).
Qed.

Lemma parse_object_settled fuel content obj f' :
  parse_object fuel content = Ok (Some obj, f') ->
  settled (fun s => s = PatchRpn /\ version obj < 13) f'.
Proof.
  unfold parse_object, parse_stream. intros H.
  apply bind_ok in H. destruct H as (ver & f1 & Hh & H).
  assert (Ht1 : tidy f1).
  { destruct (parse_header_clean (open content) ver f1) as [Ht|(_ & pre & ev & _ & _ & [])];
      [constructor|exact Hh|exact Ht]. }
  destruct ver as [v|]; [|apply ret_ok in H; now destruct H].
  destruct (supported_version v); [|apply ret_ok in H; now destruct H].
  apply bind_ok in H. destruct H as (o & f2 & Htab & H).
  apply ret_ok in H. destruct H as (H & ->). injection H as Ho. subst o.
  rewrite (parse_tables_version _ _ _ _ _ Htab).
  exact (parse_tables_reads_well fuel v f1 obj f2 Ht1 Htab).
Qed.

(** C5, amended: a fixed-width read that meets fewer bytes than its format
    needs raises [struct.error]; and whenever [parse_object] returns an
    object, a read that returned fewer bytes than it asked for is the last
    read of the whole parse, it is the read of a patch expression, the
    version of the file is below 13 and the file is at its end. Every
    other read, of a fixed-width field, of section data, of an assertion
    expression or of a byte of a string, returned what it asked for. *)
Theorem short_reads_of_a_returned_object :
  (forall fmt f,
      (List.length (rest f) < calcsize fmt)%nat ->
      unpack_file fmt f = Raise StructError)
  /\ (forall fuel content obj f' pre ev post,
        parse_object fuel content = Ok (Some obj, f') ->
        reads f' = pre ++ ev :: post ->
        List.length (ev_got ev) <> ev_size ev ->
        post = []
        /\ ev_site ev = PatchRpn
        /\ version obj < 13
        /\ rest f' = []).
Proof.
  split; [exact unpack_file_short|].
  intros fuel content obj f' pre ev post H Hreads Hshort.
  destruct (parse_object_settled fuel content obj f' H)
    as [Ht|(Hrest & pre' & ev' & R & F & Hsite & Hver)].
  - exfalso. apply Hshort. unfold tidy in Ht. rewrite Hreads in Ht.
    apply Forall_app in Ht. destruct Ht as (_ & Ht). now inversion Ht.
  - rewrite Hreads in R. destruct post as [|e post].
    + apply app_inj_tail in R. destruct R as (_ & ->). now repeat split.
    + exfalso. apply Hshort.
      assert (Hin : In ev pre').
      { assert (Hin' : In ev (removelast (pre ++ ev :: e :: post))).
        { rewrite removelast_app by discriminate. apply in_or_app. right.
          simpl. now left. }
        rewrite R, removelast_last in Hin'. exact Hin'. }
      rewrite Forall_forall in F. exact (F ev Hin).
Qed.

Lemma short_reads_of_a_returned_object_witness :
  exists obj f' pre,
    parse_object 10 Examples.truncated_rpn = Ok (Some obj, f')
    /\ reads f' = pre ++ [mkEvent PatchRpn 5 [x80; x07]]
    /\ version obj < 13
    /\ rest f' = [].
Proof.
  destruct (parse_object 10 Examples.truncated_rpn) as [[[obj|] f']| |] eqn:E;
    try (vm_compute in E; discriminate).
  assert (Hreads : reads f'
                   = removelast (reads f') ++ [mkEvent PatchRpn 5 [x80; x07]]).
  { pose proof E as E'. vm_compute in E'. injection E' as _ <-. reflexivity. }
  exists obj, f', (removelast (reads f')).
  split; [reflexivity|]. split; [exact Hreads|].
  destruct (proj2 short_reads_of_a_returned_object 10%nat Examples.truncated_rpn
              obj f' _ _ [] E Hreads) as (_ & _ & Hver & Hrest).
  - simpl. lia.
  - now split.
Defined.

(** A version-13 file cut inside its last patch expression does not parse:
    the count of assertions that follows raises. *)
Lemma truncated_rpn_v13_example :
  parse_object 10
    (RGB9 ++ le32 3 ++ le32 0 ++ le32 1
     ++ cstr "code" ++ le32 0 ++ [x03] ++ le32 0 ++ le32 0 ++ le32 1
     ++ le32 1
     ++ cstr "a.asm" ++ le32 0 ++ [x00] ++ le32 5
     ++ [x80; x07])
  = Raise StructError.
Proof. vm_compute. reflexivity. Qed.

(** A file cut inside its section data does not parse: the read of the
    data returns what is left, and the patch count that follows raises. *)
Lemma truncated_section_data_example :
  parse_object 10
    (RGB6 ++ le32 0 ++ le32 1
     ++ cstr "code" ++ le32 8 ++ [x03] ++ le32 0 ++ le32 0 ++ le32 1
     ++ [xc3; x00; x01])
  = Raise StructError.
Proof. vm_compute. reflexivity. Qed.

(** ** The RPN scanner *)

(** The opcode table of the specification, as a grammar of expression
    buffers: [scans buf ids] when [buf] is a sequence of string operands
    ([0x51], a string, its terminator), constants ([0x80] and 4 bytes),
    symbol references ([0x50] or [0x81] and 4 bytes) and one-byte opcodes,
    and [ids] are the little-endian values of the symbol references, in
    order. *)
Inductive scans : list byte -> list Z -> Prop :=
| scans_end : scans [] []
| scans_string str tl ids :
    Forall (fun b => b <> x00) str ->
    scans tl ids ->
    scans (x51 :: str ++ x00 :: tl) ids
| scans_constant payload tl ids :
    List.length payload = 4%nat ->
    scans tl ids ->
    scans (x80 :: payload ++ tl) ids
| scans_symbol op payload tl ids :
    op = x50 \/ op = x81 ->
    List.length payload = 4%nat ->
    scans tl ids ->
    scans (op :: payload ++ tl) (le_int payload :: ids)
| scans_other op tl ids :
    op <> x51 -> op <> x80 -> op <> x50 -> op <> x81 ->
    scans tl ids ->
    scans (op :: tl) ids.

Lemma nth_error_at {A} (pre : list A) x tl :
  nth_error (pre ++ x :: tl) (List.length pre) = Some x.
Proof. rewrite nth_error_app2, Nat.sub_diag by lia. reflexivity. Qed.

Lemma skipn_at {A} (pre : list A) k l :
  skipn (List.length pre + k) (pre ++ l) = skipn k l.
Proof.
  rewrite skipn_app, skipn_all2 by lia.
  replace (List.length pre + k - List.length pre)%nat with k by lia.
  reflexivity.
Qed.

Lemma byte_eqb_refl b : Byte.eqb b b = true.
Proof. now apply Byte.byte_dec_lb. Qed.

Lemma byte_eqb_neq a b : a <> b -> Byte.eqb a b = false.
Proof.
  intros Hne. destruct (Byte.eqb a b) eqn:E; [|reflexivity].
  apply Byte.byte_dec_bl in E. contradiction.
Qed.

Lemma skip_to_zero_string str : forall tl pos,
  Forall (fun b => b <> x00) str ->
  skip_to_zero (str ++ x00 :: tl) pos = Ok (pos + List.length str)%nat.
Proof.
  induction str as [|b str IH]; intros tl pos Hnz; simpl.
  - f_equal. lia.
  - inversion Hnz; subst. rewrite byte_eqb_neq by assumption.
    rewrite IH by assumption. f_equal. lia.
Qed.

Section StepAt.

Context {S : Type} (on_symbol : Z -> S -> result S).

(** The iteration at the cursor [len(pre)] of [pre ++ op :: tl]. *)
Lemma rpn_step_at pre op tl st :
  rpn_step on_symbol (pre ++ op :: tl) (List.length pre) st =
  if Byte.eqb op x51 then
    rbind (skip_to_zero tl (List.length pre + 1))
          (fun pos' => Ok ((pos' + 1)%nat, st))
  else if Byte.eqb op x80 then Ok ((List.length pre + 5)%nat, st)
  else if Byte.eqb op x50 || Byte.eqb op x81 then
    rbind (unpack [fI] (firstn 4 tl))
          (fun '(symbol_id, _) =>
             rbind (on_symbol symbol_id st)
                   (fun st' => Ok ((List.length pre + 5)%nat, st')))
  else Ok ((List.length pre + 1)%nat, st).
Proof.
  unfold rpn_step, slice. rewrite nth_error_at, !skipn_at. simpl skipn.
  replace (List.length pre + 5 - (List.length pre + 1))%nat with 4%nat by lia.
  reflexivity.
Qed.

Lemma rpn_step_string pre str tl st :
  Forall (fun b => b <> x00) str ->
  rpn_step on_symbol (pre ++ x51 :: str ++ x00 :: tl) (List.length pre) st
  = Ok ((List.length pre + 1 + List.length str + 1)%nat, st).
Proof.
  intros Hnz. rewrite rpn_step_at. simpl.
  rewrite skip_to_zero_string by assumption. reflexivity.
Qed.

Lemma rpn_step_constant pre tl st :
  rpn_step on_symbol (pre ++ x80 :: tl) (List.length pre) st
  = Ok ((List.length pre + 5)%nat, st).
Proof. rewrite rpn_step_at. reflexivity. Qed.

Lemma rpn_step_symbol pre op payload tl st :
  op = x50 \/ op = x81 ->
  List.length payload = 4%nat ->
  rpn_step on_symbol (pre ++ op :: payload ++ tl) (List.length pre) st
  = rbind (on_symbol (le_int payload) st)
          (fun st' => Ok ((List.length pre + 5)%nat, st')).
Proof.
  intros Hop Hlen. rewrite rpn_step_at.
  destruct payload as [|b0 [|b1 [|b2 [|b3 [|b4 payload]]]]];
    try discriminate.
  destruct Hop as [-> | ->]; reflexivity.
Qed.

Lemma rpn_step_other pre op tl st :
  op <> x51 -> op <> x80 -> op <> x50 -> op <> x81 ->
  rpn_step on_symbol (pre ++ op :: tl) (List.length pre) st
  = Ok ((List.length pre + 1)%nat, st).
Proof.
  intros H51 H80 H50 H81. rewrite rpn_step_at.
  now rewrite !byte_eqb_neq by assumption.
Qed.

End StepAt.

(** The state after the ids of a scan have been handled one by one. *)
Fixpoint fold_symbols {S} (on_symbol : Z -> S -> result S) (ids : list Z) (st : S)
    : result S :=
  match ids with
  | [] => Ok st
  | symbol_id :: ids' => rbind (on_symbol symbol_id st) (fold_symbols on_symbol ids')
  end.




Lemma rpn_loop_eq {S} (on_symbol : Z -> S -> result S) rpn fuel pos st :
  rpn_loop on_symbol rpn fuel pos st =
  if (pos <? List.length rpn)%nat then
    match fuel with
    | O => OutOfFuel
    | Datatypes.S fuel' =>
        rbind (rpn_step on_symbol rpn pos st)
              (fun '(pos', st') => rpn_loop on_symbol rpn fuel' pos' st')
    end
  else Ok (pos, st).
Proof. destruct fuel; reflexivity. Qed.

Lemma rpn_loop_done {S} (on_symbol : Z -> S -> result S) rpn fuel pos st :
  (List.length rpn <= pos)%nat ->
  rpn_loop on_symbol rpn fuel pos st = Ok (pos, st).
Proof.
  intros Hle. rewrite rpn_loop_eq.
  destruct (Nat.ltb_spec pos (List.length rpn)); [lia|reflexivity].
Qed.

Lemma rpn_loop_next {S} (on_symbol : Z -> S -> result S) rpn fuel pos st :
  (pos < List.length rpn)%nat ->
  rpn_loop on_symbol rpn (Datatypes.S fuel) pos st =
  rbind (rpn_step on_symbol rpn pos st)
        (fun '(pos', st') => rpn_loop on_symbol rpn fuel pos' st').
Proof.
  intros Hlt. rewrite rpn_loop_eq.
  destruct (Nat.ltb_spec pos (List.length rpn)); [reflexivity|lia].
Qed.

(** The loop on a buffer of the grammar: it handles the ids in order and
    ends with the cursor at the length of the buffer. *)
Lemma rpn_loop_scans {S} (on_symbol : Z -> S -> result S) suffix ids :
  scans suffix ids ->
  forall pre st fuel,
    (List.length suffix <= fuel)%nat ->
    rpn_loop on_symbol (pre ++ suffix) fuel (List.length pre) st =
    rbind (fold_symbols on_symbol ids st)
          (fun st' => Ok (List.length (pre ++ suffix), st')).
Proof.
  induction 1 as [|str tl ids Hnz _ IH|payload tl ids Hlen _ IH
                  |op payload tl ids Hop Hlen _ IH|op tl ids H51 H80 H50 H81 _ IH];
    intros pre st fuel Hfuel.
  - simpl. rewrite app_nil_r. now apply rpn_loop_done.
  - simpl in Hfuel. rewrite length_app in Hfuel. simpl in Hfuel.
    destruct fuel as [|fuel]; [lia|].
    rewrite rpn_loop_next by (rewrite length_app; simpl; lia).
    rewrite rpn_step_string by assumption. simpl rbind.
    replace (pre ++ x51 :: str ++ x00 :: tl)
      with ((pre ++ x51 :: str ++ [x00]) ++ tl)
      by (rewrite <- app_assoc; simpl; rewrite <- app_assoc; reflexivity).
    replace (List.length pre + 1 + List.length str + 1)%nat
      with (List.length (pre ++ x51 :: str ++ [x00]))
      by (rewrite length_app; simpl; rewrite length_app; simpl; lia).
    apply IH. lia.
  - simpl in Hfuel. rewrite length_app in Hfuel.
    destruct fuel as [|fuel]; [lia|].
    rewrite rpn_loop_next by (rewrite length_app; simpl; lia).
    rewrite rpn_step_constant. simpl rbind.
    replace (pre ++ x80 :: payload ++ tl) with ((pre ++ x80 :: payload) ++ tl)
      by (rewrite <- app_assoc; reflexivity).
    replace (List.length pre + 5)%nat with (List.length (pre ++ x80 :: payload))
      by (rewrite length_app; simpl; lia).
    apply IH. lia.
  - simpl in Hfuel. rewrite length_app in Hfuel.
    destruct fuel as [|fuel]; [lia|].
    rewrite rpn_loop_next by (rewrite length_app; simpl; lia).
    rewrite rpn_step_symbol by assumption. simpl fold_symbols.
    destruct (on_symbol (le_int payload) st) as [st'| |]; simpl rbind;
      try reflexivity.
    replace (pre ++ op :: payload ++ tl) with ((pre ++ op :: payload) ++ tl)
      by (rewrite <- app_assoc; reflexivity).
    replace (List.length pre + 5)%nat with (List.length (pre ++ op :: payload))
      by (rewrite length_app; simpl; lia).
    apply IH. lia.
  - simpl in Hfuel. destruct fuel as [|fuel]; [lia|].
    rewrite rpn_loop_next by (rewrite length_app; simpl; lia).
    rewrite rpn_step_other by assumption. simpl rbind.
    replace (pre ++ op :: tl) with ((pre ++ [op]) ++ tl)
      by (rewrite <- app_assoc; reflexivity).
    replace (List.length pre + 1)%nat with (List.length (pre ++ [op]))
      by (rewrite length_app; simpl; lia).
    apply IH. lia.
Qed.

Lemma skip_to_zero_result suffix : forall pos,
  (exists q, skip_to_zero suffix pos = Ok q /\ (pos <= q)%nat)
  \/ skip_to_zero suffix pos = Raise IndexError.
Proof.
  induction suffix as [|b suffix IH]; intros pos; simpl.
  - now right.
  - destruct (Byte.eqb b x00).
    + left. exists pos. split; [reflexivity|lia].
    + destruct (IH (Datatypes.S pos)) as [(q & Hq & Hle)|Hr].
      * left. exists q. split; [exact Hq|lia].
      * now right.
Qed.


(** An iteration that completes moves the cursor forward, and an
    iteration never runs on its own without end. *)
Lemma rpn_step_progress {S} (on_symbol : Z -> S -> result S) rpn pos st pos' st' :
  rpn_step on_symbol rpn pos st = Ok (pos', st') -> (pos < pos')%nat.
Proof.
  unfold rpn_step. destruct (nth_error rpn pos) as [op|]; [|discriminate].
  destruct (Byte.eqb op x51).
  - destruct (skip_to_zero_result (skipn (pos + 1) rpn) (pos + 1))
      as [(q & -> & Hle)| ->]; simpl; [|discriminate].
    intros H. injection H as <- _. lia.
  - destruct (Byte.eqb op x80).
    + intros H. injection H as <- _. lia.
    + destruct (Byte.eqb op x50 || Byte.eqb op x81).
      * destruct (unpack [fI] (slice rpn (pos + 1) (pos + 5))) as [[id u]| |];
          simpl; try discriminate.
        destruct (on_symbol id st); simpl; try discriminate.
        intros H. injection H as <- _. lia.
      * intros H. injection H as <- _. lia.
Qed.

Lemma unpack_not_out_of_fuel fmt buffer : unpack fmt buffer <> OutOfFuel.
Proof.
  unfold unpack. destruct (List.length buffer =? calcsize fmt)%nat; discriminate.
Qed.

Lemma rpn_step_not_out_of_fuel {S} (on_symbol : Z -> S -> result S) rpn pos st :
  (forall id s, on_symbol id s <> OutOfFuel) ->
  rpn_step on_symbol rpn pos st <> OutOfFuel.
Proof.
  intros Hon. unfold rpn_step.
  destruct (nth_error rpn pos) as [op|]; [|discriminate].
  destruct (Byte.eqb op x51).
  - destruct (skip_to_zero_result (skipn (pos + 1) rpn) (pos + 1))
      as [(q & -> & _)| ->]; discriminate.
  - destruct (Byte.eqb op x80); [discriminate|].
    destruct (Byte.eqb op x50 || Byte.eqb op x81); [|discriminate].
    pose proof (unpack_not_out_of_fuel [fI] (slice rpn (pos + 1) (pos + 5))) as Hu.
    destruct (unpack [fI] (slice rpn (pos + 1) (pos + 5))) as [[id u]| |];
      simpl; try discriminate; [|contradiction].
    specialize (Hon id st). destruct (on_symbol id st); simpl;
      try discriminate. contradiction.
Qed.

(** As many iterations as bytes are left always suffice. *)
Lemma rpn_loop_enough_fuel {S} (on_symbol : Z -> S -> result S) rpn :
  (forall id s, on_symbol id s <> OutOfFuel) ->
  forall fuel pos st,
    (List.length rpn - pos <= fuel)%nat ->
    rpn_loop on_symbol rpn fuel pos st <> OutOfFuel.
Proof.
  intros Hon. induction fuel as [|fuel IH]; intros pos st Hfuel.
  - rewrite rpn_loop_done by lia. discriminate.
  - destruct (Nat.le_gt_cases (List.length rpn) pos) as [Hle|Hlt].
    + rewrite rpn_loop_done by lia. discriminate.
    + rewrite rpn_loop_next by lia.
      pose proof (rpn_step_not_out_of_fuel on_symbol rpn pos st Hon) as Hs.
      destruct (rpn_step on_symbol rpn pos st) as [[pos' st']| |] eqn:E;
        simpl; try discriminate; [|contradiction].
      apply rpn_step_progress in E. apply IH. lia.
Qed.

Lemma skip_to_zero_inv tl : forall pos q,
  skip_to_zero tl pos = Ok q ->
  exists str tl',
    tl = str ++ x00 :: tl'
    /\ Forall (fun b => b <> x00) str
    /\ q = (pos + List.length str)%nat.
Proof.
  induction tl as [|b tl IH]; intros pos q H; simpl in H; [discriminate|].
  destruct (Byte.eqb b x00) eqn:E.
  - apply Byte.byte_dec_bl in E. subst b. injection H as <-.
    exists [], tl. repeat split; [constructor|simpl; lia].
  - apply IH in H. destruct H as (str & tl' & -> & Hnz & ->).
    exists (b :: str), tl'. repeat split.
    + constructor; [|exact Hnz]. intros ->. now rewrite byte_eqb_refl in E.
    + simpl. lia.
Qed.

Lemma rpn_loop_cursor {S} (on_symbol : Z -> S -> result S) rpn :
  forall fuel pos st pos' st',
    rpn_loop on_symbol rpn fuel pos st = Ok (pos', st') -> (pos <= pos')%nat.
Proof.
  induction fuel as [|fuel IH]; intros pos st pos' st' H;
    rewrite rpn_loop_eq in H; destruct (pos <? List.length rpn)%nat;
    try discriminate; try (injection H as <- _; lia).
  destruct (rpn_step on_symbol rpn pos st) as [[p1 st1]| |] eqn:E;
    simpl in H; try discriminate.
  apply rpn_step_progress in E. apply IH in H. lia.
Qed.

Lemma split_four (tl : list byte) :
  (4 <= List.length tl)%nat ->
  exists payload tl', tl = payload ++ tl' /\ List.length payload = 4%nat.
Proof.
  intros Hlen. exists (firstn 4 tl), (skipn 4 tl). split.
  - symmetry. apply firstn_skipn.
  - apply firstn_length_le. exact Hlen.
Qed.

(** A scan that ends with the cursor at the length of the buffer has read
    a buffer of the grammar. *)
Lemma rpn_loop_scans_inv : forall fuel suffix pre acc out,
  rpn_loop collect (pre ++ suffix) fuel (List.length pre) acc
  = Ok (List.length (pre ++ suffix), out) ->
  exists ids, out = acc ++ ids /\ scans suffix ids.
Proof.
  induction fuel as [|fuel IH]; intros suffix pre acc out H;
    rewrite rpn_loop_eq in H;
    destruct (Nat.ltb_spec (List.length pre) (List.length (pre ++ suffix)))
      as [Hlt|Hge]; try discriminate;
    try solve [ injection H as _ <-; rewrite length_app in Hge;
                destruct suffix; [|simpl in Hge; lia];
                exists []; split; [now rewrite app_nil_r|constructor] ].
  - destruct suffix as [|op tl]; [rewrite app_nil_r in Hlt; lia|].
    rewrite rpn_step_at in H.
    destruct (Byte.eqb op x51) eqn:E51.
    { apply Byte.byte_dec_bl in E51. subst op.
      destruct (skip_to_zero tl (List.length pre + 1)) as [q| |] eqn:Eq;
        simpl in H; try discriminate.
      apply skip_to_zero_inv in Eq. destruct Eq as (str & tl' & -> & Hnz & ->).
      replace (pre ++ x51 :: str ++ x00 :: tl')
        with ((pre ++ x51 :: str ++ [x00]) ++ tl') in H
        by (rewrite <- app_assoc; simpl; rewrite <- app_assoc; reflexivity).
      replace (List.length pre + 1 + List.length str + 1)%nat
        with (List.length (pre ++ x51 :: str ++ [x00])) in H
        by (rewrite length_app; simpl; rewrite length_app; simpl; lia).
      apply IH in H. destruct H as (ids & -> & Hs).
      exists ids. split; [reflexivity|now constructor]. }
    destruct (Byte.eqb op x80) eqn:E80.
    { apply Byte.byte_dec_bl in E80. subst op. simpl in H.
      destruct (Nat.le_gt_cases 4 (List.length tl)) as [Hlen|Hshort].
      - destruct (split_four tl Hlen) as (payload & tl' & -> & Hp).
        replace (pre ++ x80 :: payload ++ tl') with ((pre ++ x80 :: payload) ++ tl') in H
          by (rewrite <- app_assoc; reflexivity).
        replace (List.length pre + 5)%nat with (List.length (pre ++ x80 :: payload)) in H
          by (rewrite length_app; simpl; lia).
        apply IH in H. destruct H as (ids & -> & Hs).
        exists ids. split; [reflexivity|now constructor].
      - apply rpn_loop_cursor in H. rewrite length_app in H. simpl in H. lia. }
    destruct (Byte.eqb op x50 || Byte.eqb op x81) eqn:Esym.
    { destruct (unpack [fI] (firstn 4 tl)) as [[id u]| |] eqn:Eu;
        simpl in H; try discriminate.
      apply unpack_ok in Eu. destruct Eu as (Hlen & Hid).
      rewrite length_firstn in Hlen. change (calcsize [fI]) with 4%nat in Hlen.
      destruct (split_four tl ltac:(lia)) as (payload & tl' & -> & Hp).
      assert (Hfirst : firstn 4 (payload ++ tl') = payload).
      { rewrite <- Hp, firstn_app, firstn_all, Nat.sub_diag. simpl.
        apply app_nil_r. }
      rewrite Hfirst in Hid.
      assert (Hid' : id = le_int payload).
      { clear - Hid Hp.
        destruct payload as [|b0 [|b1 [|b2 [|b3 [|b4 p]]]]]; try discriminate Hp.
        simpl in Hid. now injection Hid. }
      subst id.
      replace (pre ++ op :: payload ++ tl') with ((pre ++ op :: payload) ++ tl') in H
        by (rewrite <- app_assoc; reflexivity).
      replace (List.length pre + 5)%nat with (List.length (pre ++ op :: payload)) in H
        by (rewrite length_app; simpl; lia).
      apply IH in H. destruct H as (ids & -> & Hs).
      exists (le_int payload :: ids). split.
      - rewrite <- app_assoc. reflexivity.
      - constructor; try assumption.
        apply orb_true_iff in Esym.
        destruct Esym as [E|E]; apply Byte.byte_dec_bl in E; auto. }
    simpl in H.
    replace (pre ++ op :: tl) with ((pre ++ [op]) ++ tl) in H
      by (rewrite <- app_assoc; reflexivity).
    replace (List.length pre + 1)%nat with (List.length (pre ++ [op])) in H
      by (rewrite length_app; simpl; lia).
    apply IH in H. destruct H as (ids & -> & Hs).
    apply orb_false_iff in Esym. destruct Esym as [E50 E81].
    exists ids. split; [reflexivity|].
    apply scans_other; try assumption;
      intros ->; rewrite byte_eqb_refl in *; discriminate.
Qed.

Lemma collect_not_out_of_fuel id ids : collect id ids <> OutOfFuel.
Proof. discriminate. Qed.

(** C3: the scanner follows the opcode table. One iteration at a [0x51]
    moves the cursor past the opcode, the string and its terminator and
    yields nothing; at a [0x80] it moves 5 bytes and yields nothing; at a
    [0x50] or [0x81] it yields the little-endian value of the next 4 bytes
    and moves 5 bytes; at any other byte it moves 1 byte. The scan ends
    with the cursor at the length of the buffer, having yielded [ids],
    exactly when the buffer is a sequence of such operands whose symbol
    references are [ids] in order; and on no buffer does the loop need more
    iterations than there are bytes. *)
Theorem rpn_scan_follows_opcode_table :
  (forall pre str tl ids,
      Forall (fun b => b <> x00) str ->
      rpn_step collect (pre ++ x51 :: str ++ x00 :: tl) (List.length pre) ids
      = Ok ((List.length pre + 1 + List.length str + 1)%nat, ids))
  /\ (forall pre tl ids,
        rpn_step collect (pre ++ x80 :: tl) (List.length pre) ids
        = Ok ((List.length pre + 5)%nat, ids))
  /\ (forall pre op payload tl ids,
        op = x50 \/ op = x81 ->
        List.length payload = 4%nat ->
        rpn_step collect (pre ++ op :: payload ++ tl) (List.length pre) ids
        = Ok ((List.length pre + 5)%nat, ids ++ [le_int payload]))
  /\ (forall pre op tl ids,
        op <> x51 -> op <> x80 -> op <> x50 -> op <> x81 ->
        rpn_step collect (pre ++ op :: tl) (List.length pre) ids
        = Ok ((List.length pre + 1)%nat, ids))
  /\ (forall rpn ids fuel,
        (List.length rpn <= fuel)%nat ->
        (scans rpn ids <->
         scan_symbol_references fuel rpn = Ok (List.length rpn, ids)))
  /\ (forall rpn fuel,
        (List.length rpn <= fuel)%nat ->
        scan_symbol_references fuel rpn <> OutOfFuel).
Proof.
  split; [|split; [|split; [|split; [|split]]]].
  - intros. now apply rpn_step_string.
  - intros. apply rpn_step_constant.
  - intros pre op payload tl ids Hop Hlen.
    now rewrite rpn_step_symbol.
  - intros. now apply rpn_step_other.
  - intros rpn ids fuel Hfuel. unfold scan_symbol_references. split.
    + intros Hscans.
      pose proof (rpn_loop_scans collect rpn ids Hscans [] [] fuel Hfuel) as H.
      simpl in H. rewrite H. clear H.
      assert (Hfold : forall l acc, fold_symbols collect l acc = Ok (acc ++ l)).
      { induction l as [|id l IH]; intros acc; simpl.
        - now rewrite app_nil_r.
        - rewrite IH, <- app_assoc. reflexivity. }
      rewrite Hfold. reflexivity.
    + intros H. apply (rpn_loop_scans_inv fuel rpn [] [] ids) in H.
      destruct H as (ids' & -> & Hs). exact Hs.
  - intros rpn fuel Hfuel. unfold scan_symbol_references.
    apply (rpn_loop_enough_fuel collect rpn collect_not_out_of_fuel). lia.
Qed.

Lemma rpn_scan_opcode_table_witness :
  let rpn := [x51; x41; x00; x50; x01; x00; x00; x00; x05; x80; x07; x00; x00; x00] in
  scans rpn [1]
  /\ (List.length rpn <= 14)%nat
  /\ scan_symbol_references 14 rpn = Ok (14%nat, [1]).
Proof.
  intros rpn.
  assert (Hs : scans rpn [1]).
  { apply (scans_string [x41]); [repeat constructor; discriminate|].
    apply (scans_symbol x50 [x01; x00; x00; x00] _ []); [now left|reflexivity|].
    apply scans_other; try discriminate.
    apply (scans_constant [x07; x00; x00; x00] []); [reflexivity|].
    apply scans_end. }
  assert (Hf : (List.length rpn <= 14)%nat) by (simpl; lia).
  split; [exact Hs|]. split; [exact Hf|].
  exact (proj1 (proj1 (proj2 (proj2 (proj2 (proj2 rpn_scan_follows_opcode_table))))
                  rpn [1] 14%nat Hf) Hs).
Defined.

(** ** Termination of the scan loop *)










(** A symbol reference cut short ends the scan with [struct.error], and a
    string without terminator with [IndexError]. *)
Lemma rpn_scan_malformed_examples :
  scan_symbol_references 2 [x50; x01] = Raise StructError
  /\ scan_symbol_references 2 [x51; x41] = Raise IndexError
  /\ scan_symbol_references 3 [x80; x01; x02] = Ok (5%nat, []).
Proof. repeat split. Qed.

(** ** Dicts: lookups, keys and order *)

Lemma dict_get_set_same k v d : dict_get k (dict_set k v d) = Some v.
Proof.
  induction d as [|[k' v'] d IH]; simpl.
  - now rewrite String.eqb_refl.
  - destruct (String.eqb k k') eqn:E; simpl; rewrite ?String.eqb_refl, ?E; auto.
Qed.

Lemma dict_get_set_other k k' v d :
  k' <> k -> dict_get k' (dict_set k v d) = dict_get k' d.
Proof.
  intros Hne. induction d as [|[k0 v0] d IH]; simpl.
  - apply String.eqb_neq in Hne. now rewrite Hne.
  - destruct (String.eqb k k0) eqn:E; simpl.
    + apply String.eqb_eq in E. subst k0.
      apply String.eqb_neq in Hne. now rewrite Hne.
    + now rewrite IH.
Qed.

Lemma dict_get_in_keys k d : dict_get k d <> None <-> In k (dict_keys d).
Proof.
  induction d as [|[k' v'] d IH]; simpl.
  - split; [congruence|contradiction].
  - destruct (String.eqb_spec k k') as [->|Hne].
    + split; [now left|discriminate].
    + rewrite IH. split; [now right|]. intros [Heq|Hin]; [congruence|exact Hin].
Qed.

Lemma dict_mem_in_keys k d : dict_mem k d = true <-> In k (dict_keys d).
Proof.
  rewrite <- dict_get_in_keys. unfold dict_mem.
  destruct (dict_get k d); split; congruence.
Qed.

Lemma dict_keys_set_present k v d :
  In k (dict_keys d) -> dict_keys (dict_set k v d) = dict_keys d.
Proof.
  induction d as [|[k' v'] d IH]; simpl; [contradiction|].
  destruct (String.eqb_spec k k') as [->|Hne]; simpl; [reflexivity|].
  intros [Heq|Hin]; [congruence|]. now rewrite IH.
Qed.

Lemma dict_keys_set_absent k v d :
  ~ In k (dict_keys d) -> dict_keys (dict_set k v d) = dict_keys d ++ [k].
Proof.
  induction d as [|[k' v'] d IH]; simpl; [reflexivity|].
  intros Hnin. destruct (String.eqb_spec k k') as [->|Hne]; simpl.
  - exfalso. apply Hnin. now left.
  - rewrite IH; [reflexivity|]. intros Hin. apply Hnin. now right.
Qed.

(** [d[k] += 1], when it succeeds: the keys stay as they are, the count of
    [k] goes up by one and no other count changes. *)
Lemma dict_incr_ok k d d' :
  dict_incr k d = Ok d' ->
  dict_keys d' = dict_keys d
  /\ (exists v, dict_get k d = Some v /\ dict_get k d' = Some (v + 1))
  /\ (forall k', k' <> k -> dict_get k' d' = dict_get k' d).
Proof.
  unfold dict_incr. destruct (dict_get k d) as [v|] eqn:E; [|discriminate].
  intros H. injection H as <-. split; [|split].
  - apply dict_keys_set_present. apply dict_get_in_keys. congruence.
  - exists v. split; [reflexivity|apply dict_get_set_same].
  - intros k' Hne. now apply dict_get_set_other.
Qed.

(** [if k not in d: d[k] = 0] *)
Lemma dict_touch_get k d :
  (dict_get k d = None -> dict_get k (dict_touch k d) = Some 0)
  /\ (forall v, dict_get k d = Some v -> dict_get k (dict_touch k d) = Some v)
  /\ (forall k', k' <> k -> dict_get k' (dict_touch k d) = dict_get k' d).
Proof.
  unfold dict_touch, dict_mem. destruct (dict_get k d) as [v|] eqn:E.
  - split; [discriminate|]. split; [now intros ? <-|reflexivity].
  - split; [intros _; apply dict_get_set_same|].
    split; [discriminate|]. intros k' Hne. now apply dict_get_set_other.
Qed.

(** Counts that are never negative. *)
Definition nonneg (d : dict) : Prop :=
  forall k v, dict_get k d = Some v -> 0 <= v.

(** From [d] to [d'] no count has gone down and no key was lost. *)
Definition grows (d d' : dict) : Prop :=
  forall k v, dict_get k d = Some v -> exists v', dict_get k d' = Some v' /\ v <= v'.

Lemma grows_refl d : grows d d.
Proof. intros k v H. exists v. split; [exact H|lia]. Qed.

Lemma grows_trans a b c : grows a b -> grows b c -> grows a c.
Proof.
  intros Hab Hbc k v H. destruct (Hab k v H) as (v1 & H1 & L1).
  destruct (Hbc k v1 H1) as (v2 & H2 & L2). exists v2. split; [exact H2|lia].
Qed.

Lemma dict_touch_grows k d : grows d (dict_touch k d).
Proof.
  intros k' v H. exists v. split; [|lia].
  destruct (String.eqb_spec k' k) as [->|Hne].
  - now apply dict_touch_get.
  - now rewrite (proj2 (proj2 (dict_touch_get k d)) k' Hne).
Qed.

Lemma dict_touch_nonneg k d : nonneg d -> nonneg (dict_touch k d).
Proof.
  intros Hd k' v H. destruct (String.eqb_spec k' k) as [->|Hne].
  - destruct (dict_get k d) as [v0|] eqn:E.
    + rewrite (proj1 (proj2 (dict_touch_get k d)) v0 E) in H.
      injection H as <-. now apply (Hd k).
    + rewrite (proj1 (dict_touch_get k d) E) in H. injection H as <-. lia.
  - rewrite (proj2 (proj2 (dict_touch_get k d)) k' Hne) in H. now apply (Hd k').
Qed.

Lemma dict_incr_grows k d d' : dict_incr k d = Ok d' -> grows d d'.
Proof.
  intros H. apply dict_incr_ok in H. destruct H as (_ & (v0 & Hv0 & Hv1) & Hother).
  intros k' v Hk'. destruct (String.eqb_spec k' k) as [->|Hne].
  - exists (v0 + 1). split; [exact Hv1|]. rewrite Hv0 in Hk'. injection Hk' as <-. lia.
  - exists v. split; [|lia]. now rewrite Hother.
Qed.

Lemma dict_incr_nonneg k d d' : nonneg d -> dict_incr k d = Ok d' -> nonneg d'.
Proof.
  intros Hd H. apply dict_incr_ok in H. destruct H as (_ & (v0 & Hv0 & Hv1) & Hother).
  intros k' v Hk'. destruct (String.eqb_spec k' k) as [->|Hne].
  - rewrite Hv1 in Hk'. injection Hk' as <-. specialize (Hd k v0 Hv0). lia.
  - rewrite Hother in Hk' by assumption. now apply (Hd k').
Qed.

(** ** Registration *)

(** The names a file enters into [globalsyms], in symbol-table order. *)
Definition global_names (syms : list symbol) : list string :=
  map sym_name (filter (fun s => negb (is_local (sym_type s))) syms).

Definition local_names (syms : list symbol) : list string :=
  map sym_name (filter (fun s => is_local (sym_type s)) syms).

Definition touch_all (names : list string) (d : dict) : dict :=
  fold_left (fun d name => dict_touch name d) names d.

Lemma register_fold syms : forall r,
  reg_locals (fold_left register_symbol syms r)
  = touch_all (local_names syms) (reg_locals r)
  /\ reg_globals (fold_left register_symbol syms r)
     = touch_all (global_names syms) (reg_globals r).
Proof.
  induction syms as [|s syms IH]; intros r; [now split|].
  simpl fold_left. destruct (IH (register_symbol r s)) as (Hl & Hg).
  rewrite Hl, Hg. unfold register_symbol, local_names, global_names.
  simpl filter. destruct (sym_type s); simpl; now split.
Qed.

Lemma register_symbols_maps obj globalsyms :
  reg_locals (register_symbols obj globalsyms) = touch_all (local_names (symbols obj)) []
  /\ reg_globals (register_symbols obj globalsyms)
     = touch_all (global_names (symbols obj)) globalsyms.
Proof. apply register_fold. Qed.

Lemma touch_all_grows names : forall d, grows d (touch_all names d).
Proof.
  induction names as [|n names IH]; intros d; [apply grows_refl|].
  simpl. eapply grows_trans; [apply (dict_touch_grows n)|apply IH].
Qed.

Lemma touch_all_nonneg names : forall d, nonneg d -> nonneg (touch_all names d).
Proof.
  induction names as [|n names IH]; intros d Hd; [exact Hd|].
  simpl. apply IH. now apply dict_touch_nonneg.
Qed.

Lemma touch_all_in names : forall d name,
  In name names -> exists v, dict_get name (touch_all names d) = Some v.
Proof.
  induction names as [|n names IH]; intros d name Hin; [contradiction|].
  simpl. destruct Hin as [->|Hin]; [|now apply IH].
  assert (exists v, dict_get name (dict_touch name d) = Some v) as (v & Hv).
  { destruct (dict_get name d) as [v|] eqn:E.
    - exists v. exact (proj1 (proj2 (dict_touch_get name d)) v E).
    - exists 0. exact (proj1 (dict_touch_get name d) E). }
  destruct (touch_all_grows names _ _ _ Hv) as (v' & Hv' & _). now exists v'.
Qed.

Lemma in_local_names s syms :
  In s syms -> is_local (sym_type s) = true -> In (sym_name s) (local_names syms).
Proof.
  intros Hin Hl. unfold local_names. apply in_map. apply filter_In. now split.
Qed.

Lemma in_global_names s syms :
  In s syms -> is_local (sym_type s) = false -> In (sym_name s) (global_names syms).
Proof.
  intros Hin Hl. unfold global_names. apply in_map. apply filter_In.
  split; [assumption|]. now rewrite Hl.
Qed.

Lemma nonneg_empty : nonneg [].
Proof. intros k v H. discriminate. Qed.

(** ** Counting *)

(** From one tally to a later one of the same file: the keys of both maps
    are the same and no count has gone down. *)
Definition tally_step (t t' : tally) : Prop :=
  dict_keys (fst t') = dict_keys (fst t)
  /\ dict_keys (snd t') = dict_keys (snd t)
  /\ grows (fst t) (fst t')
  /\ grows (snd t) (snd t')
  /\ (nonneg (fst t) -> nonneg (fst t'))
  /\ (nonneg (snd t) -> nonneg (snd t')).

Lemma tally_step_refl t : tally_step t t.
Proof. repeat split; auto using grows_refl. Qed.

Lemma tally_step_trans a b c : tally_step a b -> tally_step b c -> tally_step a c.
Proof.
  intros (K1 & K2 & G1 & G2 & N1 & N2) (K1' & K2' & G1' & G2' & N1' & N2').
  repeat split; try congruence; eauto using grows_trans.
Qed.

Lemma count_reference_step syms id t t' :
  count_reference syms id t = Ok t' -> tally_step t t'.
Proof.
  unfold count_reference.
  destruct (nth_error syms (Z.to_nat id)) as [s|]; [|discriminate].
  destruct (is_local (sym_type s)).
  - destruct (dict_incr (sym_name s) (fst t)) as [l| |] eqn:E; try discriminate.
    simpl. intros H. injection H as <-. simpl.
    pose proof (dict_incr_ok _ _ _ E) as (K & _ & _).
    repeat split; auto using grows_refl.
    + now apply (dict_incr_grows _ _ _ E).
    + intros Hn. now apply (dict_incr_nonneg _ _ _ Hn E).
  - destruct (dict_incr (sym_name s) (snd t)) as [g| |] eqn:E; try discriminate.
    simpl. intros H. injection H as <-. simpl.
    pose proof (dict_incr_ok _ _ _ E) as (K & _ & _).
    repeat split; auto using grows_refl.
    + now apply (dict_incr_grows _ _ _ E).
    + intros Hn. now apply (dict_incr_nonneg _ _ _ Hn E).
Qed.

Lemma fold_symbols_app {S} (f : Z -> S -> result S) a : forall b st,
  fold_symbols f (a ++ b) st = rbind (fold_symbols f a st) (fold_symbols f b).
Proof.
  induction a as [|x a IH]; intros b st; simpl; [reflexivity|].
  destruct (f x st); simpl; auto.
Qed.

Lemma fold_symbols_step syms ids : forall t t',
  fold_symbols (count_reference syms) ids t = Ok t' -> tally_step t t'.
Proof.
  induction ids as [|id ids IH]; intros t t' H; simpl in H.
  - injection H as <-. apply tally_step_refl.
  - destruct (count_reference syms id t) as [t1| |] eqn:E; try discriminate.
    simpl in H. eapply tally_step_trans.
    + exact (count_reference_step _ _ _ _ E).
    + now apply IH.
Qed.

(** The loop of the program against the scanner: it ends where the scanner
    ends, having handled the ids the scanner yields, in that order. *)
Lemma rpn_step_collect {S} (on_symbol : Z -> S -> result S) rpn pos st pos' st' acc :
  rpn_step on_symbol rpn pos st = Ok (pos', st') ->
  exists ids,
    rpn_step collect rpn pos acc = Ok (pos', acc ++ ids)
    /\ fold_symbols on_symbol ids st = Ok st'.
Proof.
  unfold rpn_step. destruct (nth_error rpn pos) as [op|]; [|discriminate].
  destruct (Byte.eqb op x51).
  - destruct (skip_to_zero (skipn (pos + 1) rpn) (pos + 1)); simpl;
      try discriminate.
    intros H. injection H as <- <-. exists []. now rewrite app_nil_r.
  - destruct (Byte.eqb op x80).
    + intros H. injection H as <- <-. exists []. now rewrite app_nil_r.
    + destruct (Byte.eqb op x50 || Byte.eqb op x81).
      * destruct (unpack [fI] (slice rpn (pos + 1) (pos + 5))) as [[id u]| |];
          simpl; try discriminate.
        destruct (on_symbol id st) as [st1| |] eqn:E; simpl; try discriminate.
        intros H. injection H as <- <-. exists [id]. simpl. now rewrite E.
      * intros H. injection H as <- <-. exists []. now rewrite app_nil_r.
Qed.

Lemma rpn_loop_collect {S} (on_symbol : Z -> S -> result S) rpn :
  forall fuel pos st pos' st' acc,
    rpn_loop on_symbol rpn fuel pos st = Ok (pos', st') ->
    exists ids,
      rpn_loop collect rpn fuel pos acc = Ok (pos', acc ++ ids)
      /\ fold_symbols on_symbol ids st = Ok st'.
Proof.
  induction fuel as [|fuel IH]; intros pos st pos' st' acc H;
    rewrite rpn_loop_eq in H; rewrite rpn_loop_eq;
    destruct (pos <? List.length rpn)%nat.
  - discriminate.
  - injection H as <- <-. exists []. now rewrite app_nil_r.
  - destruct (rpn_step on_symbol rpn pos st) as [[p1 st1]| |] eqn:E;
      simpl in H; try discriminate.
    destruct (rpn_step_collect on_symbol rpn pos st p1 st1 acc E)
      as (ids1 & Hc & Hf).
    destruct (IH p1 st1 pos' st' (acc ++ ids1) H) as (ids2 & Hc2 & Hf2).
    exists (ids1 ++ ids2). rewrite Hc. simpl. split.
    + now rewrite app_assoc.
    + rewrite fold_symbols_app, Hf. exact Hf2.
  - injection H as <- <-. exists []. now rewrite app_nil_r.
Qed.

Lemma count_patch_scan fuel syms t p t' :
  count_patch fuel syms t p = Ok t' ->
  exists pos ids,
    scan_symbol_references fuel (patch_rpn p) = Ok (pos, ids)
    /\ fold_symbols (count_reference syms) ids t = Ok t'.
Proof.
  unfold count_patch.
  destruct (rpn_loop (count_reference syms) (patch_rpn p) fuel 0 t)
    as [[pos t1]| |] eqn:E; simpl; try discriminate.
  intros H. injection H as <-.
  destruct (rpn_loop_collect _ _ _ _ _ _ _ [] E) as (ids & Hc & Hf).
  exists pos, ids. split; [exact Hc|exact Hf].
Qed.

Lemma count_patch_step fuel syms t p t' :
  count_patch fuel syms t p = Ok t' -> tally_step t t'.
Proof.
  intros H. apply count_patch_scan in H. destruct H as (pos & ids & _ & H).
  now apply (fold_symbols_step syms ids).
Qed.

Lemma count_patches_step fuel syms patches : forall t t',
  count_patches fuel syms patches t = Ok t' -> tally_step t t'.
Proof.
  induction patches as [|p patches IH]; intros t t' H; simpl in H.
  - injection H as <-. apply tally_step_refl.
  - destruct (count_patch fuel syms t p) as [t1| |] eqn:E; try discriminate.
    simpl in H. eapply tally_step_trans.
    + exact (count_patch_step _ _ _ _ _ E).
    + now apply IH.
Qed.

Lemma count_section_step fuel syms t s t' :
  count_section fuel syms t s = Ok t' -> tally_step t t'.
Proof.
  unfold count_section. destruct (is_rom (sec_type s)).
  - destruct (sec_patches s); [apply count_patches_step|discriminate].
  - intros H. injection H as <-. apply tally_step_refl.
Qed.

Lemma count_sections_step fuel syms secs : forall t t',
  count_sections fuel syms secs t = Ok t' -> tally_step t t'.
Proof.
  induction secs as [|s secs IH]; intros t t' H; simpl in H.
  - injection H as <-. apply tally_step_refl.
  - destruct (count_section fuel syms t s) as [t1| |] eqn:E; try discriminate.
    simpl in H. eapply tally_step_trans.
    + exact (count_section_step _ _ _ _ _ E).
    + now apply IH.
Qed.

(** ** The accumulator over a file and over the run *)

Lemma analyse_object_step fuel obj globalsyms t :
  analyse_object fuel obj globalsyms = Ok t ->
  tally_step (touch_all (local_names (symbols obj)) [],
              touch_all (global_names (symbols obj)) globalsyms) t.
Proof.
  unfold analyse_object. destruct (register_symbols_maps obj globalsyms) as (-> & ->).
  apply count_sections_step.
Qed.

Lemma analyse_object_globals fuel obj globalsyms t :
  analyse_object fuel obj globalsyms = Ok t ->
  grows globalsyms (snd t)
  /\ (nonneg globalsyms -> nonneg (snd t))
  /\ dict_keys (snd t) = dict_keys (touch_all (global_names (symbols obj)) globalsyms).
Proof.
  intros H. apply analyse_object_step in H.
  destruct H as (_ & K & _ & G & _ & N). simpl in *. split; [|split].
  - eapply grows_trans; [apply touch_all_grows|exact G].
  - intros Hn. apply N. now apply touch_all_nonneg.
  - exact K.
Qed.

Lemma analyse_all_grows fuel objs : forall g g',
  analyse_all fuel objs g = Ok g' -> grows g g' /\ (nonneg g -> nonneg g').
Proof.
  induction objs as [|obj objs IH]; intros g g' H; simpl in H.
  - injection H as <-. split; [apply grows_refl|auto].
  - destruct (analyse_object fuel obj g) as [t| |] eqn:E; try discriminate.
    simpl in H. apply analyse_object_globals in E. destruct E as (G & N & _).
    apply IH in H. destruct H as (G' & N'). split.
    + eapply grows_trans; eassumption.
    + auto.
Qed.

(** The map of a symbol by its kind. *)
Definition map_of (s : symbol) (localsyms globalsyms : dict) : dict :=
  match sym_type s with
  | LOCAL => localsyms
  | IMPORT | EXPORT => globalsyms
  end.

(** C2: whatever files were processed before, once the symbols of a file
    are registered every name of its symbol table is a key of [localsyms]
    (kind LOCAL) or of [globalsyms] (kind IMPORT or EXPORT), with a count
    that is not negative; no patch needs to reference it. The same holds
    when the counting pass of the file is over. *)
Theorem every_symbol_is_registered :
  forall fuel (earlier : list object) (globalsyms : dict) (obj : object),
    analyse_all fuel earlier [] = Ok globalsyms ->
    (forall symbol,
        In symbol (symbols obj) ->
        let r := register_symbols obj globalsyms in
        exists count,
          dict_get (sym_name symbol) (map_of symbol (reg_locals r) (reg_globals r))
          = Some count
          /\ 0 <= count)
    /\ (forall t symbol,
          analyse_object fuel obj globalsyms = Ok t ->
          In symbol (symbols obj) ->
          exists count,
            dict_get (sym_name symbol) (map_of symbol (fst t) (snd t)) = Some count
            /\ 0 <= count).
Proof.
  intros fuel earlier globalsyms obj Hearlier.
  assert (Hg : nonneg globalsyms).
  { apply (analyse_all_grows fuel earlier [] globalsyms Hearlier), nonneg_empty. }
  assert (Hreg : forall symbol,
             In symbol (symbols obj) ->
             exists count,
               dict_get (sym_name symbol)
                        (map_of symbol (touch_all (local_names (symbols obj)) [])
                                (touch_all (global_names (symbols obj)) globalsyms))
               = Some count /\ 0 <= count).
  { intros symbol Hin. unfold map_of.
    destruct (sym_type symbol) eqn:Ht.
    - destruct (touch_all_in (local_names (symbols obj)) [] (sym_name symbol))
        as (v & Hv); [apply in_local_names; [assumption|now rewrite Ht]|].
      exists v. split; [exact Hv|].
      now apply (touch_all_nonneg _ _ nonneg_empty _ _ Hv).
    - destruct (touch_all_in (global_names (symbols obj)) globalsyms (sym_name symbol))
        as (v & Hv); [apply in_global_names; [assumption|now rewrite Ht]|].
      exists v. split; [exact Hv|].
      now apply (touch_all_nonneg _ _ Hg _ _ Hv).
    - destruct (touch_all_in (global_names (symbols obj)) globalsyms (sym_name symbol))
        as (v & Hv); [apply in_global_names; [assumption|now rewrite Ht]|].
      exists v. split; [exact Hv|].
      now apply (touch_all_nonneg _ _ Hg _ _ Hv). }
  split.
  - intros symbol Hin r. subst r.
    destruct (register_symbols_maps obj globalsyms) as (-> & ->).
    now apply Hreg.
  - intros t symbol Ht Hin. apply analyse_object_step in Ht.
    destruct Ht as (_ & _ & Gl & Gg & _ & _). simpl in Gl, Gg.
    destruct (Hreg symbol Hin) as (v & Hv & Hpos).
    unfold map_of in *. destruct (sym_type symbol).
    + destruct (Gl _ _ Hv) as (v' & Hv' & Hle). exists v'. split; [exact Hv'|lia].
    + destruct (Gg _ _ Hv) as (v' & Hv' & Hle). exists v'. split; [exact Hv'|lia].
    + destruct (Gg _ _ Hv) as (v' & Hv' & Hle). exists v'. split; [exact Hv'|lia].
Qed.

Lemma example_objects_parse :
  (exists f, parse_object 10 Examples.import_X_unreferenced = Ok (Some Examples.object_A, f))
  /\ (exists f, parse_object 10 Examples.export_X_referenced = Ok (Some Examples.object_B, f)).
Proof. split; eexists; vm_compute; reflexivity. Qed.

Lemma every_symbol_is_registered_witness :
  analyse_all 10 [Examples.object_A] [] = Ok [("X"%string, 0); ("Y"%string, 0)]
  /\ forall symbol,
       In symbol (symbols Examples.object_B) ->
       let r := register_symbols Examples.object_B [("X"%string, 0); ("Y"%string, 0)] in
       exists count,
         dict_get (sym_name symbol) (map_of symbol (reg_locals r) (reg_globals r))
         = Some count
         /\ 0 <= count.
Proof.
  assert (H : analyse_all 10 [Examples.object_A] []
              = Ok [("X"%string, 0); ("Y"%string, 0)])
    by reflexivity.
  split; [exact H|].
  exact (proj1 (every_symbol_is_registered 10 [Examples.object_A]
                  [("X"%string, 0); ("Y"%string, 0)] Examples.object_B H)).
Defined.

(** ** Order of the keys *)

(** The names of a list in the order of their first occurrence. *)
Fixpoint first_seen (names : list string) : list string :=
  match names with
  | [] => []
  | name :: names' =>
      name :: filter (fun m => negb (String.eqb m name)) (first_seen names')
  end.

(** [name] is not among [keys]. *)
Definition fresh (keys : list string) (name : string) : bool :=
  negb (existsb (String.eqb name) keys).

Definition add_key (keys : list string) (name : string) : list string :=
  if existsb (String.eqb name) keys then keys else keys ++ [name].

Lemma existsb_eqb_in name keys :
  existsb (String.eqb name) keys = true <-> In name keys.
Proof.
  rewrite existsb_exists. split.
  - intros (x & Hin & Heq). apply String.eqb_eq in Heq. now subst.
  - intros Hin. exists name. split; [exact Hin|apply String.eqb_refl].
Qed.

Lemma dict_mem_existsb name d :
  dict_mem name d = existsb (String.eqb name) (dict_keys d).
Proof.
  destruct (existsb (String.eqb name) (dict_keys d)) eqn:E.
  - apply dict_mem_in_keys. now apply existsb_eqb_in.
  - destruct (dict_mem name d) eqn:M; [|reflexivity].
    apply dict_mem_in_keys, existsb_eqb_in in M. congruence.
Qed.

Lemma dict_touch_keys name d :
  dict_keys (dict_touch name d) = add_key (dict_keys d) name.
Proof.
  unfold dict_touch, add_key. rewrite <- dict_mem_existsb.
  destruct (dict_mem name d) eqn:M; [reflexivity|].
  apply dict_keys_set_absent. intros Hin.
  apply dict_mem_in_keys in Hin. congruence.
Qed.

Lemma touch_all_keys names : forall d,
  dict_keys (touch_all names d) = fold_left add_key names (dict_keys d).
Proof.
  induction names as [|n names IH]; intros d; [reflexivity|].
  simpl. now rewrite IH, dict_touch_keys.
Qed.

Lemma filter_filter {A} (f g : A -> bool) l :
  filter f (filter g l) = filter (fun x => g x && f x) l.
Proof.
  induction l as [|x l IH]; [reflexivity|]. simpl.
  destruct (g x); simpl; [destruct (f x)|]; now rewrite IH.
Qed.

Lemma fresh_app keys name m :
  fresh (keys ++ [name]) m = negb (String.eqb m name) && fresh keys m.
Proof.
  unfold fresh. rewrite existsb_app. simpl. rewrite orb_false_r, negb_orb.
  apply andb_comm.
Qed.

(** Entering names one by one, each at the end unless it is a key
    already, builds the keys in the order of first occurrence. *)
Lemma add_keys_first_seen names : forall keys,
  fold_left add_key names keys = keys ++ filter (fresh keys) (first_seen names).
Proof.
  induction names as [|n names IH]; intros keys; simpl.
  - now rewrite app_nil_r.
  - assert (Hn : fresh keys n = negb (existsb (String.eqb n) keys)) by reflexivity.
    unfold add_key. rewrite Hn.
    destruct (existsb (String.eqb n) keys) eqn:E; simpl; rewrite IH.
    + f_equal. rewrite filter_filter. apply filter_ext. intros m.
      destruct (String.eqb_spec m n) as [->|Hne]; simpl; [|reflexivity].
      unfold fresh. now rewrite E.
    + rewrite <- app_assoc. simpl. do 2 f_equal.
      rewrite filter_filter. apply filter_ext. intros m. apply fresh_app.
Qed.

Lemma first_seen_in names name : In name (first_seen names) <-> In name names.
Proof.
  induction names as [|n names IH]; simpl; [tauto|].
  rewrite filter_In, IH. destruct (String.eqb_spec name n) as [->|Hne]; simpl.
  - split; auto.
  - split.
    + intros [H|[H _]]; auto.
    + intros [H|H]; [now left|right; now split].
Qed.

Lemma first_seen_nodup names : NoDup (first_seen names).
Proof.
  induction names as [|n names IH]; simpl; constructor.
  - rewrite filter_In. intros [_ H]. now rewrite String.eqb_refl in H.
  - now apply NoDup_filter.
Qed.

(** ** The run as a whole *)

(** The objects of the files of a run, when every file parses. *)
Fixpoint parse_all (fuel : nat) (files : list (list byte)) : result (list object) :=
  match files with
  | [] => Ok []
  | content :: files' =>
      match parse_object fuel content with
      | Ok (Some obj, _) =>
          rbind (parse_all fuel files') (fun objs => Ok (obj :: objs))
      | Ok (None, _) => Raise (SystemExit (Some 1))
      | Raise e => Raise e
      | OutOfFuel => OutOfFuel
      end
  end.

(** The names entered into [globalsyms] over a run, file after file. *)
Definition all_global_names (objs : list object) : list string :=
  flat_map (fun obj => global_names (symbols obj)) objs.

(** The count of [name] in [globalsyms] is 0. *)
Definition count_is_zero (globalsyms : dict) (name : string) : bool :=
  match dict_get name globalsyms with
  | Some 0 => true
  | _ => false
  end.

(** [obj] has a patch, in a ROMX or ROM0 section, whose expression yields
    the index of [symbol] in the symbol table of [obj]. *)
Definition references (fuel : nat) (obj : object) (symbol : symbol) : Prop :=
  exists sec patches p pos ids i,
    In sec (sections obj)
    /\ is_rom (sec_type sec) = true
    /\ sec_patches sec = Some patches
    /\ In p patches
    /\ scan_symbol_references fuel (patch_rpn p) = Ok (pos, ids)
    /\ In i ids
    /\ nth_error (symbols obj) (Z.to_nat i) = Some symbol.

(** [name] has a count of 1 or more. *)
Definition positive (name : string) (d : dict) : Prop :=
  exists v, dict_get name d = Some v /\ 1 <= v.

Lemma file_loop_analysis encodes fuel files : forall g0 out0 out g,
  file_loop encodes fuel false files g0 out0 = (out, Ok g) ->
  out = out0
  /\ exists objs, parse_all fuel files = Ok objs /\ analyse_all fuel objs g0 = Ok g.
Proof.
  induction files as [|content files IH]; intros g0 out0 out g H; simpl in H.
  - injection H as <- <-. split; [reflexivity|]. now exists [].
  - simpl. destruct (parse_object fuel content) as [[[obj|] f]| |];
      try (injection H as _ H; discriminate).
    destruct (analyse_object fuel obj g0) as [t| |] eqn:E;
      try (injection H as _ H; discriminate).
    apply IH in H. destruct H as (-> & objs & Hp & Ha).
    split; [reflexivity|]. exists (obj :: objs). rewrite Hp. simpl.
    split; [reflexivity|]. now rewrite E.
Qed.

Lemma print_all_ok encodes names : forall stdout out,
  print_all encodes names stdout = (out, Ok tt) ->
  out = stdout ++ names /\ forallb encodes names = true.
Proof.
  induction names as [|name names IH]; intros stdout out H; simpl in H.
  - injection H as <-. now rewrite app_nil_r.
  - simpl. destruct (encodes name); [|discriminate].
    apply IH in H. destruct H as (-> & ->). now rewrite <- app_assoc.
Qed.

Lemma main_analysis encodes fuel files out :
  main encodes fuel false files = (out, Ok tt) ->
  exists objs g,
    parse_all fuel files = Ok objs
    /\ analyse_all fuel objs [] = Ok g
    /\ out = report g.
Proof.
  unfold main.
  destruct (file_loop encodes fuel false files [] []) as [stdout [g| |]] eqn:E;
    try discriminate.
  intros H. apply print_all_ok in H. destruct H as (-> & _).
  apply file_loop_analysis in E. destruct E as (-> & objs & Hp & Ha).
  now exists objs, g.
Qed.

Lemma analyse_all_keys fuel objs : forall g g',
  analyse_all fuel objs g = Ok g' ->
  dict_keys g' = fold_left add_key (all_global_names objs) (dict_keys g).
Proof.
  induction objs as [|obj objs IH]; intros g g' H; simpl in H.
  - now injection H as <-.
  - destruct (analyse_object fuel obj g) as [t| |] eqn:E; try discriminate.
    simpl in H. apply analyse_object_globals in E. destruct E as (_ & _ & K).
    apply IH in H. rewrite H, K, touch_all_keys.
    unfold all_global_names. simpl. now rewrite fold_left_app.
Qed.

Lemma report_in name g : In name (report g) <-> dict_get name g = Some 0.
Proof.
  unfold report. rewrite filter_In. split.
  - intros [_ H]. destruct (dict_get name g) as [[| |]|]; congruence.
  - intros H. split.
    + apply dict_get_in_keys. congruence.
    + now rewrite H.
Qed.

(** C1: a run in analysis mode that reaches its end has printed, one per
    line, the names whose count in [globalsyms] is 0, in the order in which
    the names were first entered into [globalsyms] over all the files; a
    name is printed exactly when its count is 0, and none twice. *)
Theorem report_lists_unreferenced_globals :
  forall encodes fuel (files : list (list byte)) (out : list string),
    main encodes fuel false files = (out, Ok tt) ->
    exists objs globalsyms,
      parse_all fuel files = Ok objs
      /\ analyse_all fuel objs [] = Ok globalsyms
      /\ out = filter (count_is_zero globalsyms) (first_seen (all_global_names objs))
      /\ NoDup out
      /\ (forall name, In name out <-> dict_get name globalsyms = Some 0).
Proof.
  intros encodes fuel files out H. apply main_analysis in H.
  destruct H as (objs & g & Hp & Ha & ->). exists objs, g.
  assert (K : dict_keys g = first_seen (all_global_names objs)).
  { rewrite (analyse_all_keys fuel objs [] g Ha). simpl.
    rewrite add_keys_first_seen. simpl.
    rewrite <- (filter_ext (fun _ => true)); [|reflexivity].
    induction (first_seen (all_global_names objs)) as [|x l IH];
      simpl; congruence. }
  split; [exact Hp|]. split; [exact Ha|]. split; [|split].
  - unfold report. now rewrite K.
  - unfold report. rewrite K. apply NoDup_filter, first_seen_nodup.
  - intros name. apply report_in.
Qed.

Lemma report_lists_unreferenced_globals_witness :
  main utf8_stdout 10 false [Examples.export_X_referenced; Examples.import_X_unreferenced]
  = (["Y"%string], Ok tt)
  /\ main utf8_stdout 10 false [Examples.import_X_unreferenced] = (["X"%string; "Y"%string], Ok tt)
  /\ exists objs globalsyms,
       parse_all 10 [Examples.import_X_unreferenced] = Ok objs
       /\ analyse_all 10 objs [] = Ok globalsyms
       /\ ["X"%string; "Y"%string]
          = filter (count_is_zero globalsyms) (first_seen (all_global_names objs))
       /\ NoDup ["X"%string; "Y"%string]
       /\ (forall name,
             In name ["X"%string; "Y"%string] <-> dict_get name globalsyms = Some 0).
Proof.
  assert (H : main utf8_stdout 10 false [Examples.import_X_unreferenced]
              = (["X"%string; "Y"%string], Ok tt))
    by (vm_compute; reflexivity).
  split; [vm_compute; reflexivity|]. split; [exact H|].
  exact (report_lists_unreferenced_globals utf8_stdout 10
           [Examples.import_X_unreferenced]
           ["X"%string; "Y"%string] H).
Defined.

(** ** A reference anywhere in the run keeps a global out of the report *)

Lemma positive_grows name d d' : positive name d -> grows d d' -> positive name d'.
Proof.
  intros (v & Hv & Hpos) G. destruct (G _ _ Hv) as (v' & Hv' & Hle).
  exists v'. split; [exact Hv'|lia].
Qed.

Lemma count_reference_positive syms i s t t' :
  count_reference syms i t = Ok t' ->
  nth_error syms (Z.to_nat i) = Some s ->
  is_local (sym_type s) = false ->
  nonneg (snd t) ->
  positive (sym_name s) (snd t').
Proof.
  unfold count_reference. intros H Hs Hl Hn. rewrite Hs, Hl in H.
  destruct (dict_incr (sym_name s) (snd t)) as [g| |] eqn:E; try discriminate.
  simpl in H. injection H as <-. simpl.
  apply dict_incr_ok in E. destruct E as (_ & (v & Hv & Hv') & _).
  exists (v + 1). split; [exact Hv'|]. specialize (Hn _ _ Hv). lia.
Qed.

Lemma fold_symbols_positive syms i s ids : forall t t',
  fold_symbols (count_reference syms) ids t = Ok t' ->
  In i ids ->
  nth_error syms (Z.to_nat i) = Some s ->
  is_local (sym_type s) = false ->
  nonneg (snd t) ->
  positive (sym_name s) (snd t').
Proof.
  induction ids as [|id ids IH]; intros t t' H Hin Hs Hl Hn; [contradiction|].
  simpl in H.
  destruct (count_reference syms id t) as [t1| |] eqn:E; try discriminate.
  simpl in H. destruct Hin as [->|Hin].
  - apply (positive_grows _ (snd t1)).
    + now apply (count_reference_positive syms i s t t1).
    + now apply (fold_symbols_step syms ids t1 t').
  - apply (IH t1 t' H Hin Hs Hl).
    now apply (count_reference_step syms id t t1 E).
Qed.

Section Referenced.

Variable fuel : nat.
Variable syms : list symbol.
Variable s : symbol.
Variable i : Z.
Hypothesis Hs : nth_error syms (Z.to_nat i) = Some s.
Hypothesis Hglobal : is_local (sym_type s) = false.

Lemma count_patches_positive p pos ids patches : forall t t',
  count_patches fuel syms patches t = Ok t' ->
  In p patches ->
  scan_symbol_references fuel (patch_rpn p) = Ok (pos, ids) ->
  In i ids ->
  nonneg (snd t) ->
  positive (sym_name s) (snd t').
Proof.
  induction patches as [|q patches IH]; intros t t' H Hin Hscan Hi Hn;
    [contradiction|].
  simpl in H. destruct (count_patch fuel syms t q) as [t1| |] eqn:E;
    try discriminate.
  simpl in H. destruct Hin as [->|Hin].
  - apply (positive_grows _ (snd t1)).
    + apply count_patch_scan in E. destruct E as (pos1 & ids1 & Hscan1 & Hfold).
      rewrite Hscan in Hscan1. injection Hscan1 as <- <-.
      now apply (fold_symbols_positive syms i s ids t t1).
    + now apply (count_patches_step fuel syms patches t1 t').
  - apply (IH t1 t' H Hin Hscan Hi).
    now apply (count_patch_step fuel syms t q t1 E).
Qed.

Lemma count_sections_positive sec patches p pos ids secs : forall t t',
  count_sections fuel syms secs t = Ok t' ->
  In sec secs ->
  is_rom (sec_type sec) = true ->
  sec_patches sec = Some patches ->
  In p patches ->
  scan_symbol_references fuel (patch_rpn p) = Ok (pos, ids) ->
  In i ids ->
  nonneg (snd t) ->
  positive (sym_name s) (snd t').
Proof.
  induction secs as [|q secs IH]; intros t t' H Hin Hrom Hpatches Hp Hscan Hi Hn;
    [contradiction|].
  simpl in H. destruct (count_section fuel syms t q) as [t1| |] eqn:E;
    try discriminate.
  simpl in H. destruct Hin as [->|Hin].
  - apply (positive_grows _ (snd t1)).
    + unfold count_section in E. rewrite Hrom, Hpatches in E.
      now apply (count_patches_positive p pos ids patches t t1).
    + now apply (count_sections_step fuel syms secs t1 t').
  - apply (IH t1 t' H Hin Hrom Hpatches Hp Hscan Hi).
    now apply (count_section_step fuel syms t q t1 E).
Qed.

End Referenced.

Lemma analyse_object_positive fuel obj s g t :
  analyse_object fuel obj g = Ok t ->
  references fuel obj s ->
  is_local (sym_type s) = false ->
  nonneg g ->
  positive (sym_name s) (snd t).
Proof.
  intros H (sec & patches & p & pos & ids & i & Hsec & Hrom & Hp & Hin & Hscan & Hi & Hs)
         Hl Hn.
  unfold analyse_object in H.
  eapply (count_sections_positive fuel (symbols obj) s i Hs Hl); try eassumption.
  simpl. destruct (register_symbols_maps obj g) as (_ & ->).
  now apply touch_all_nonneg.
Qed.

Lemma analyse_all_positive fuel s B after before : forall g g',
  analyse_all fuel (before ++ B :: after) g = Ok g' ->
  references fuel B s ->
  is_local (sym_type s) = false ->
  nonneg g ->
  positive (sym_name s) g'.
Proof.
  induction before as [|obj before IH]; intros g g' H Href Hl Hn; simpl in H.
  - destruct (analyse_object fuel B g) as [t| |] eqn:E; try discriminate.
    simpl in H. apply (positive_grows _ (snd t)).
    + now apply (analyse_object_positive fuel B s g t).
    + now apply (analyse_all_grows fuel after (snd t) g').
  - destruct (analyse_object fuel obj g) as [t| |] eqn:E; try discriminate.
    simpl in H. apply (IH (snd t) g' H Href Hl).
    now apply (analyse_object_globals fuel obj g t E).
Qed.

(** C8: in a run in analysis mode that reaches its end, when a file
    declares [X] as IMPORT and a later file declares [X] as EXPORT and has a
    patch expression that references that symbol, [X] is not in the output:
    [globalsyms] is one map for the whole run, its count of [X] is 1 or
    more at the end. (Whether the first file references [X] plays no part.) *)
Theorem import_then_referenced_export_is_not_reported :
  forall encodes fuel (files : list (list byte)) (out : list string)
         (before between after : list object) (A B : object)
         (X_import X_export : symbol),
    main encodes fuel false files = (out, Ok tt) ->
    parse_all fuel files = Ok (before ++ A :: between ++ B :: after) ->
    In X_import (symbols A) ->
    sym_type X_import = IMPORT ->
    sym_type X_export = EXPORT ->
    sym_name X_export = sym_name X_import ->
    references fuel B X_export ->
    ~ In (sym_name X_import) out
    /\ exists globalsyms,
         analyse_all fuel (before ++ A :: between ++ B :: after) [] = Ok globalsyms
         /\ positive (sym_name X_import) globalsyms.
Proof.
  intros encodes fuel files out before between after A B X_import X_export
         Hmain Hparse _ _ Hexport Hname Href.
  apply main_analysis in Hmain. destruct Hmain as (objs & g & Hp & Ha & ->).
  rewrite Hparse in Hp. injection Hp as <-.
  assert (Hpos : positive (sym_name X_import) g).
  { rewrite <- Hname.
    apply (analyse_all_positive fuel X_export B after (before ++ A :: between) [] g).
    - now rewrite <- app_assoc.
    - exact Href.
    - now rewrite Hexport.
    - apply nonneg_empty. }
  split.
  - rewrite report_in. destruct Hpos as (v & Hv & Hge). rewrite Hv.
    intros H. injection H as ->. lia.
  - now exists g.
Qed.

Lemma import_then_referenced_export_witness :
  main utf8_stdout 10 false [Examples.import_X_unreferenced; Examples.export_X_referenced]
  = (["Y"%string], Ok tt)
  /\ ~ In "X"%string ["Y"%string].
Proof.
  assert (Hmain : main utf8_stdout 10 false [Examples.import_X_unreferenced;
                                 Examples.export_X_referenced] = (["Y"%string], Ok tt))
    by (vm_compute; reflexivity).
  split; [exact Hmain|].
  refine (proj1 (import_then_referenced_export_is_not_reported
                   utf8_stdout 10
                   [Examples.import_X_unreferenced; Examples.export_X_referenced]
                   ["Y"%string] [] [] [] Examples.object_A Examples.object_B
                   (mkSymbol "X" IMPORT None None None None)
                   (mkSymbol "X" EXPORT (Some "a.asm"%string) (Some 3) (Some 0) (Some 16))
                   Hmain _ _ _ _ _ _)).
  - vm_compute. reflexivity.
  - simpl. now left.
  - reflexivity.
  - reflexivity.
  - reflexivity.
  - exists (mkSection "code" 0 0 ROM0 1 None (Some [xc3; x00])
              (Some [mkPatch "a.asm" (Some 9) 0 None None WORD
                       (x50 :: le32 0 ++ x80 :: le32 7)])),
           [mkPatch "a.asm" (Some 9) 0 None None WORD
              (x50 :: le32 0 ++ x80 :: le32 7)],
           (mkPatch "a.asm" (Some 9) 0 None None WORD
              (x50 :: le32 0 ++ x80 :: le32 7)),
           10%nat, [0], 0.
    repeat split; try reflexivity; simpl; now left.
Defined.

(** ** What the accumulator reads of an object *)

(** The expressions of the patches of the ROMX and ROM0 sections, section
    by section; [None] for such a section without a [patches] key. *)
Definition rom_expressions (secs : list section) : list (option (list (list byte))) :=
  flat_map (fun s => if is_rom (sec_type s)
                     then [option_map (map patch_rpn) (sec_patches s)]
                     else [])
           secs.

(** The counting pass, on the expressions alone. *)
Fixpoint count_expressions (fuel : nat) (syms : list symbol) (rpns : list (list byte))
    (t : tally) : result tally :=
  match rpns with
  | [] => Ok t
  | rpn :: rpns' =>
      rbind (rbind (rpn_loop (count_reference syms) rpn fuel 0%nat t)
                   (fun '(_, t') => Ok t'))
            (count_expressions fuel syms rpns')
  end.

Fixpoint count_rom_expressions (fuel : nat) (syms : list symbol)
    (views : list (option (list (list byte)))) (t : tally) : result tally :=
  match views with
  | [] => Ok t
  | None :: _ => Raise KeyError
  | Some rpns :: views' =>
      rbind (count_expressions fuel syms rpns t)
            (count_rom_expressions fuel syms views')
  end.

Lemma count_patches_expressions fuel syms patches : forall t,
  count_patches fuel syms patches t
  = count_expressions fuel syms (map patch_rpn patches) t.
Proof.
  induction patches as [|p patches IH]; intros t; [reflexivity|].
  simpl. unfold count_patch at 1.
  destruct (rbind (rpn_loop (count_reference syms) (patch_rpn p) fuel 0 t)
                  (fun '(_, t') => Ok t')); simpl; auto.
Qed.

Lemma count_sections_expressions fuel syms secs : forall t,
  count_sections fuel syms secs t
  = count_rom_expressions fuel syms (rom_expressions secs) t.
Proof.
  induction secs as [|s secs IH]; intros t; [reflexivity|].
  simpl. unfold count_section at 1.
  destruct (is_rom (sec_type s)); simpl.
  - destruct (sec_patches s) as [patches|]; simpl; [|reflexivity].
    rewrite count_patches_expressions.
    destruct (count_expressions fuel syms (map patch_rpn patches) t); simpl; auto.
  - apply IH.
Qed.

(** C9: the maps a file leaves are a function of its symbol table and of
    the patch expressions of its ROMX and ROM0 sections (and of the
    [globalsyms] it starts from): two objects that agree on these give the
    same [localsyms] and [globalsyms], or fail alike, whatever their
    assertions and their other fields are. *)
Theorem tally_ignores_assertions :
  forall fuel (obj obj' : object) (globalsyms : dict),
    symbols obj = symbols obj' ->
    rom_expressions (sections obj) = rom_expressions (sections obj') ->
    analyse_object fuel obj globalsyms = analyse_object fuel obj' globalsyms.
Proof.
  intros fuel obj obj' g Hsyms Hrpn. unfold analyse_object, register_symbols.
  rewrite !count_sections_expressions, Hsyms, Hrpn. reflexivity.
Qed.

Lemma tally_ignores_assertions_witness :
  assertions Examples.object_B <> assertions Examples.object_B_asserting
  /\ analyse_object 10 Examples.object_B [("X"%string, 0)]
     = analyse_object 10 Examples.object_B_asserting [("X"%string, 0)]
  /\ analyse_object 10 Examples.object_B [("X"%string, 0)]
     = Ok ([], [("X"%string, 1)]).
Proof.
  split; [discriminate|]. split; [|reflexivity].
  exact (tally_ignores_assertions 10 Examples.object_B Examples.object_B_asserting
           [("X"%string, 0)] eq_refl eq_refl).
Defined.

(** * Further properties of the reader and the parser *)

(** ** [read_string] on a terminated string *)

Lemma read_string_loop_terminated str : forall acc f tl fuel,
  Forall (fun b => b <> x00) str ->
  rest f = str ++ x00 :: tl ->
  (List.length str < fuel)%nat ->
  exists f',
    rest f' = tl
    /\ read_string_loop fuel acc f = lift (decode (acc ++ str)) f'.
Proof.
  induction str as [|b str IH]; intros acc f tl fuel Hnz Hrest Hfuel;
    (destruct fuel as [|fuel]; [simpl in Hfuel; lia|]);
    simpl read_string_loop; unfold bind, file_read; rewrite Hrest; simpl.
  - eexists. split; [|rewrite app_nil_r; reflexivity]. reflexivity.
  - inversion Hnz as [|? ? Hb Hstr]; subst.
    destruct (bytes_eqb [b] [x00]) eqn:E.
    { apply bytes_eqb_eq in E. injection E as ->. congruence. }
    destruct (IH (acc ++ [b])
                 (mkFile (str ++ x00 :: tl)
                         (reads f ++ [mkEvent InReadString 1 [b]]))
                 tl fuel Hstr eq_refl ltac:(simpl in Hfuel; lia))
      as (f' & Hf' & Hloop).
    exists f'. split; [exact Hf'|].
    rewrite Hloop, <- app_assoc. reflexivity.
Qed.

(** X1: on a stream that holds [str], a zero byte and then [tl], where
    [str] has no zero byte, [read_string] consumes the string and its
    terminator and leaves [tl]: it returns the decoded string when [str] is
    UTF-8 and raises [UnicodeDecodeError] when it is not. One iteration per
    byte read is enough. *)
Theorem read_string_reads_to_the_terminator :
  forall fuel (f : file) (str tl : list byte),
    Forall (fun b => b <> x00) str ->
    rest f = str ++ x00 :: tl ->
    (List.length str < fuel)%nat ->
    if utf8_valid str
    then exists f', read_string fuel f = Ok (string_of_list_byte str, f')
                    /\ rest f' = tl
    else read_string fuel f = Raise UnicodeDecodeError.
Proof.
  intros fuel f str tl Hnz Hrest Hfuel.
  destruct (read_string_loop_terminated str [] f tl fuel Hnz Hrest Hfuel)
    as (f' & Hf' & Hloop).
  unfold read_string. rewrite Hloop. simpl app. unfold lift, decode.
  destruct (utf8_valid str); [|reflexivity].
  exists f'. now split.
Qed.

Lemma read_string_reads_to_the_terminator_witness :
  (exists f', read_string 5 (open [x68; x69; x00; x07]) = Ok ("hi"%string, f')
              /\ rest f' = [x07])
  /\ read_string 5 (open [xff; x00; x07]) = Raise UnicodeDecodeError.
Proof.
  split.
  - refine (read_string_reads_to_the_terminator 5 (open [x68; x69; x00; x07])
              [x68; x69] [x07] _ _ _).
    + repeat constructor; discriminate.
    + reflexivity.
    + simpl. lia.
  - refine (read_string_reads_to_the_terminator 5 (open [xff; x00; x07])
              [xff] [x07] _ _ _).
    + repeat constructor; discriminate.
    + reflexivity.
    + simpl. lia.
Defined.

(** ** [unpack_file] *)

(** X2: [unpack_file] succeeds exactly when the file has as many bytes left
    as the format needs. It then consumes those bytes and no more, and
    returns their fields; otherwise it raises [struct.error]. *)
Theorem unpack_file_needs_its_size :
  forall (fmt : format) (f : file),
    ((calcsize fmt <= List.length (rest f))%nat ->
     exists f',
       unpack_file fmt f
       = Ok (decode_fields fmt (firstn (calcsize fmt) (rest f)), f')
       /\ rest f' = skipn (calcsize fmt) (rest f))
    /\ ((List.length (rest f) < calcsize fmt)%nat ->
        unpack_file fmt f = Raise StructError).
Proof.
  intros fmt f. split; [|apply unpack_file_short].
  intros Hle. unfold unpack_file, bind, file_read, lift, unpack. simpl.
  rewrite firstn_length_le by exact Hle. rewrite Nat.eqb_refl.
  eexists. split; reflexivity.
Qed.

Lemma unpack_file_needs_its_size_witness :
  (exists f',
      unpack_file [fB; fI] (open [x02; x01; x01; x00; x00; x09])
      = Ok ((2, (257, tt)), f')
      /\ rest f' = [x09])
  /\ unpack_file [fB; fI] (open [x02; x01; x01; x00]) = Raise StructError.
Proof.
  split.
  - refine (proj1 (unpack_file_needs_its_size [fB; fI]
                     (open [x02; x01; x01; x00; x00; x09])) _).
    simpl. lia.
  - refine (proj2 (unpack_file_needs_its_size [fB; fI]
                     (open [x02; x01; x01; x00])) _).
    simpl. lia.
Defined.

Lemma byte_val_range b : 0 <= byte_val b < 256.
Proof.
  unfold byte_val. pose proof (Byte.to_N_bounded b). lia.
Qed.

Lemma le_int_range bs : 0 <= le_int bs < 256 ^ Z.of_nat (List.length bs).
Proof.
  induction bs as [|b bs IH].
  - simpl. lia.
  - cbn [le_int List.length]. rewrite Nat2Z.inj_succ, Z.pow_succ_r by lia.
    pose proof (byte_val_range b). lia.
Qed.

(** The range of a field by its format character: an [I] is an unsigned
    32-bit value, a [B] an unsigned 8-bit value, a [4s] has 4 bytes. *)
Definition field_in_range (c : fmtchar) : fmt_val c -> Prop :=
  match c with
  | fI => fun v => 0 <= v < 2 ^ 32
  | fB => fun v => 0 <= v < 256
  | f4s => fun v => List.length v = 4%nat
  end.

Fixpoint fields_in_range (fmt : format) : fmt_tuple fmt -> Prop :=
  match fmt with
  | [] => fun _ => True
  | c :: fmt' => fun v => field_in_range c (fst v) /\ fields_in_range fmt' (snd v)
  end.

Lemma decode_field_in_range c bs :
  List.length bs = fmt_size c -> field_in_range c (decode_field c bs).
Proof.
  intros Hlen. pose proof (le_int_range bs) as Hr. rewrite Hlen in Hr.
  destruct c; simpl in *; [exact Hr|exact Hr|exact Hlen].
Qed.

Lemma decode_fields_in_range fmt : forall bs,
  List.length bs = calcsize fmt -> fields_in_range fmt (decode_fields fmt bs).
Proof.
  induction fmt as [|c fmt IH]; intros bs Hlen; [exact I|].
  change (calcsize (c :: fmt)) with (fmt_size c + calcsize fmt)%nat in Hlen.
  cbn [fields_in_range decode_fields fst snd]. split.
  - apply decode_field_in_range. rewrite length_firstn. lia.
  - apply IH. rewrite length_skipn. lia.
Qed.

(** X3: the integers [unpack_file] returns are unsigned, whatever the
    format: each [I] field of the tuple is between 0 and 2^32 - 1 and each
    [B] field between 0 and 255 (and a [4s] field has its 4 bytes). *)
Theorem unpacked_integers_are_unsigned :
  forall (fmt : format) (f : file) (v : fmt_tuple fmt) (f' : file),
    unpack_file fmt f = Ok (v, f') -> fields_in_range fmt v.
Proof.
  intros fmt f v f' H. apply unpack_file_ok in H.
  destruct H as (got & _ & Hlen & -> & _).
  now apply decode_fields_in_range.
Qed.

Lemma unpacked_integers_are_unsigned_witness :
  let f := open [xff; xff; xff; xff; xff; x00; x01; x00; x00; xff; xff; xff; xff] in
  exists f',
    unpack_file [fI; fB; fI; fI] f = Ok ((4294967295, (255, (256, (4294967295, tt)))), f')
    /\ (0 <= 4294967295 < 2 ^ 32) /\ (0 <= 255 < 256)
    /\ (0 <= 256 < 2 ^ 32) /\ (0 <= 4294967295 < 2 ^ 32).
Proof.
  intros f. eexists. split; [reflexivity|].
  destruct (unpacked_integers_are_unsigned [fI; fB; fI; fI] f
              (4294967295, (255, (256, (4294967295, tt)))) _ eq_refl)
    as (H1 & H2 & H3 & H4 & _).
  exact (conj H1 (conj H2 (conj H3 H4))).
Defined.

(** ** The shape of a parsed object *)

(** A symbol dict has the keys [filename], [line_num], [section] and
    [value] exactly when the symbol is not an IMPORT. *)
Definition symbol_shaped (s : symbol) : Prop :=
  (sym_type s = IMPORT ->
   sym_filename s = None /\ sym_line_num s = None
   /\ sym_section s = None /\ sym_value s = None)
  /\ (sym_type s <> IMPORT ->
      sym_filename s <> None /\ sym_line_num s <> None
      /\ sym_section s <> None /\ sym_value s <> None).

(** A section dict has [data] and [patches] exactly when it is ROMX or
    ROM0, and [offset] exactly from version 14. *)
Definition section_shaped (ver : Z) (s : section) : Prop :=
  (sec_data s <> None <-> is_rom (sec_type s) = true)
  /\ (sec_patches s <> None <-> is_rom (sec_type s) = true)
  /\ (sec_offset s <> None <-> 14 <= ver).

(** An assertion that was parsed comes from a file below version 14 and
    has neither [section] nor [pcoffset]. *)
Definition assertion_shaped (ver : Z) (a : assertion) : Prop :=
  ver < 14 /\ assert_section a = None /\ assert_pcoffset a = None.

Definition object_shaped (obj : object) : Prop :=
  Forall symbol_shaped (symbols obj)
  /\ Forall (section_shaped (version obj)) (sections obj)
  /\ (assertions obj <> None <-> 13 <= version obj)
  /\ (forall items, assertions obj = Some items ->
                    Forall (assertion_shaped (version obj)) items).

Definition any_event (ev : read_event) : Prop := True.

Ltac s_string :=
  eapply yields_bind; [apply yields_read_string; intros; exact I|];
  intros ? _; cbv beta iota.
Ltac s_unpack :=
  eapply yields_bind; [eapply yields_unpack_file; intros; exact I|];
  intros ? _; cbv beta iota.
Ltac s_lift :=
  eapply yields_bind; [apply yields_lift with (P := fun _ => True); auto|];
  intros ? _; cbv beta iota.

Lemma yields_any {A} (m : M A) (P : A -> Prop) E :
  yields m P E -> yields m (fun _ => True) any_event.
Proof.
  intros Hm f a f' H. apply Hm in H. destruct H as (_ & evs & R & _).
  split; [exact I|]. exists evs. split; [exact R|].
  apply Forall_forall. intros; exact I.
Qed.

Lemma parse_symbol_shaped fuel :
  yields (parse_symbol fuel) symbol_shaped any_event.
Proof.
  unfold parse_symbol. s_string. s_unpack. destruct a0 as [t []].
  s_lift. destruct a0; cbv beta iota delta [is_import].
  - s_string. s_unpack. destruct a1 as [l [s [v []]]]. apply yields_ret.
    split; simpl; [discriminate|]. intros _. repeat split; discriminate.
  - apply yields_ret. split; simpl; [auto|congruence].
  - s_string. s_unpack. destruct a1 as [l [s [v []]]]. apply yields_ret.
    split; simpl; [discriminate|]. intros _. repeat split; discriminate.
Qed.

Lemma parse_section_shaped fuel ver :
  yields (parse_section fuel ver) (section_shaped ver) any_event.
Proof.
  unfold parse_section. s_string. s_unpack.
  destruct a0 as [size [t [org [bank []]]]]. s_lift.
  eapply yields_bind with (P := fun pr => snd pr <> None <-> 14 <= ver).
  { destruct (Z.leb_spec 14 ver).
    - s_unpack. destruct a1 as [al [o []]]. apply yields_ret. simpl.
      split; [auto|discriminate].
    - s_unpack. destruct a1 as [al []]. apply yields_ret. simpl.
      split; [congruence|lia]. }
  intros [align offset] Hoff. simpl in Hoff. destruct (is_rom a0) eqn:Hrom.
  - eapply yields_bind; [apply yields_file_read; intros; exact I|].
    intros data _. s_unpack. destruct a1 as [num_patches []].
    eapply yields_bind with (P := fun _ => True).
    { eapply yields_any. apply yields_for_range, (parse_patch_yields fuel ver). }
    intros patches _. apply yields_ret. unfold section_shaped. simpl.
    rewrite Hrom. split; [|split]; [split; [reflexivity|discriminate]..|exact Hoff].
  - apply yields_ret. unfold section_shaped. simpl. rewrite Hrom.
    split; [|split]; [split; [congruence|discriminate]..|exact Hoff].
Qed.

Lemma parse_header_any :
  yields parse_header (fun _ => True) any_event.
Proof.
  unfold parse_header. s_unpack. destruct a as [magic []].
  destruct (bytes_eqb magic RGB6); [now apply yields_ret|].
  destruct (bytes_eqb magic RGB9); [|now apply yields_ret].
  s_unpack. destruct a as [revision []]. now apply yields_ret.
Qed.

Lemma parse_assertion_shaped fuel ver :
  yields (parse_assertion fuel ver) (assertion_shaped ver) any_event.
Proof.
  unfold parse_assertion. s_string. s_unpack. destruct a0 as [offset []].
  eapply yields_bind
    with (P := fun pr => ver < 14 /\ fst pr = None /\ snd pr = None).
  { destruct (Z.leb_spec 14 ver); [apply yields_raise|].
    apply yields_ret. now repeat split. }
  intros [s o] (Hver & Hs & Ho). simpl in Hs, Ho. subst s o.
  s_unpack. destruct a0 as [t [rpn_size []]]. s_lift.
  eapply yields_bind; [apply yields_file_read; intros; exact I|].
  intros rpn _. s_string. apply yields_ret. now repeat split.
Qed.

Lemma parse_tables_shaped fuel ver :
  yields (parse_tables fuel ver)
         (fun obj => version obj = ver /\ object_shaped obj) any_event.
Proof.
  unfold parse_tables. s_unpack. destruct a as [ns [nc []]].
  eapply yields_bind; [apply yields_for_range, parse_symbol_shaped|].
  intros syms Hsyms.
  eapply yields_bind; [apply yields_for_range, (parse_section_shaped fuel ver)|].
  intros secs Hsecs.
  eapply yields_bind
    with (P := fun r => (r <> None <-> 13 <= ver)
                        /\ forall items, r = Some items ->
                                         Forall (assertion_shaped ver) items).
  { destruct (Z.leb_spec 13 ver).
    - s_unpack. destruct a as [na []].
      eapply yields_bind;
        [apply yields_for_range, (parse_assertion_shaped fuel ver)|].
      intros items Hitems. apply yields_ret. split.
      + split; [auto|discriminate].
      + intros l Hl. now injection Hl as <-.
    - apply yields_ret. split; [split; [congruence|lia]|discriminate]. }
  intros asserts (Hpresent & Hitems). apply yields_ret.
  split; [reflexivity|]. unfold object_shaped. simpl. auto.
Qed.

Lemma parse_stream_shaped fuel :
  yields (parse_stream fuel)
         (fun r => forall obj, r = Some obj -> object_shaped obj) any_event.
Proof.
  unfold parse_stream.
  eapply yields_bind with (P := fun _ => True).
  { eapply yields_any. apply parse_header_any. }
  intros [obj_ver|] _.
  - destruct (supported_version obj_ver) eqn:Hs.
    + eapply yields_bind; [apply (parse_tables_shaped fuel obj_ver)|].
      intros obj (_ & Hobj). apply yields_ret. intros o Ho. now injection Ho as <-.
    + apply yields_ret. discriminate.
  - apply yields_ret. discriminate.
Qed.

Lemma parse_object_supported fuel content obj f' :
  parse_object fuel content = Ok (Some obj, f') ->
  supported_version (version obj) = true.
Proof.
  intros H. apply parse_stream_yields in H. destruct H as (H & _).
  now apply (H obj eq_refl).
Qed.

Lemma supported_version_cases v :
  supported_version v = true -> v = 6 \/ v = 10 \/ v = 11 \/ v = 13 \/ v = 14.
Proof.
  unfold supported_version. intros H.
  repeat (apply orb_true_iff in H; destruct H as [H|H]);
    apply Z.eqb_eq in H; auto.
Qed.

Lemma parse_object_shaped fuel content obj f' :
  parse_object fuel content = Ok (Some obj, f') -> object_shaped obj.
Proof.
  intros H. apply parse_stream_shaped in H. destruct H as (H & _). now apply H.
Qed.

(** X4: in every object [parse_object] returns, an IMPORT symbol has only
    its name and type, and a LOCAL or EXPORT symbol also has its file name,
    line number, section and value. *)
Theorem parsed_symbols_have_their_fields :
  forall fuel content obj f' s,
    parse_object fuel content = Ok (Some obj, f') ->
    In s (symbols obj) ->
    (sym_type s = IMPORT ->
     sym_filename s = None /\ sym_line_num s = None
     /\ sym_section s = None /\ sym_value s = None)
    /\ (sym_type s <> IMPORT ->
        sym_filename s <> None /\ sym_line_num s <> None
        /\ sym_section s <> None /\ sym_value s <> None).
Proof.
  intros fuel content obj f' s H Hin. apply parse_object_shaped in H.
  destruct H as (Hsyms & _). rewrite Forall_forall in Hsyms. now apply Hsyms.
Qed.

Lemma parsed_symbols_have_their_fields_witness :
  exists obj f',
    parse_object 10 Examples.import_X_unreferenced = Ok (Some obj, f')
    /\ forall s, In s (symbols obj) -> symbol_shaped s.
Proof.
  destruct (parse_object 10 Examples.import_X_unreferenced)
    as [[[obj|] f']| |] eqn:E; try (vm_compute in E; discriminate).
  exists obj, f'. split; [reflexivity|]. intros s Hin.
  exact (parsed_symbols_have_their_fields 10 Examples.import_X_unreferenced
           obj f' s E Hin).
Defined.

(** X5: in every object [parse_object] returns, a section has [data] and
    [patches] exactly when its type is ROMX or ROM0, and has [offset]
    exactly when the version of the file is 14. *)
Theorem parsed_sections_have_their_fields :
  forall fuel content obj f' sec,
    parse_object fuel content = Ok (Some obj, f') ->
    In sec (sections obj) ->
    (sec_data sec <> None <-> is_rom (sec_type sec) = true)
    /\ (sec_patches sec <> None <-> is_rom (sec_type sec) = true)
    /\ (sec_offset sec <> None <-> version obj = 14).
Proof.
  intros fuel content obj f' sec H Hin.
  pose proof (supported_version_cases _ (parse_object_supported _ _ _ _ H)) as Hver.
  apply parse_object_shaped in H.
  destruct H as (_ & Hsecs & _). rewrite Forall_forall in Hsecs.
  destruct (Hsecs sec Hin) as (Hd & Hp & Ho).
  split; [exact Hd|]. split; [exact Hp|]. rewrite Ho. lia.
Qed.

Lemma parsed_sections_have_their_fields_witness :
  exists obj f',
    parse_object 10 Examples.export_X_referenced = Ok (Some obj, f')
    /\ forall sec, In sec (sections obj) -> section_shaped (version obj) sec.
Proof.
  destruct (parse_object 10 Examples.export_X_referenced)
    as [[[obj|] f']| |] eqn:E; try (vm_compute in E; discriminate).
  exists obj, f'. split; [reflexivity|]. intros sec Hin.
  destruct (parsed_sections_have_their_fields 10 Examples.export_X_referenced
              obj f' sec E Hin) as (Hd & Hp & Ho).
  split; [exact Hd|]. split; [exact Hp|]. rewrite Ho.
  assert (Hv : version obj = 6) by (vm_compute in E; now injection E as <- _).
  rewrite Hv. lia.
Defined.

(** X6: an object [parse_object] returns has an [assertions] list exactly
    when its version is 13 or 14. For version 14 the list is empty, since
    reading an assertion of that version raises; an assertion of version 13
    has neither [section] nor [pcoffset]. *)
Theorem parsed_assertions :
  forall fuel content obj f',
    parse_object fuel content = Ok (Some obj, f') ->
    (assertions obj <> None <-> 13 <= version obj)
    /\ (version obj = 14 -> assertions obj = Some [])
    /\ (forall items a,
          assertions obj = Some items ->
          In a items ->
          version obj = 13
          /\ assert_section a = None /\ assert_pcoffset a = None).
Proof.
  intros fuel content obj f' H.
  pose proof (supported_version_cases _ (parse_object_supported _ _ _ _ H)) as Hver.
  apply parse_object_shaped in H. destruct H as (_ & _ & Hpresent & Hitems).
  split; [exact Hpresent|]. split.
  - intros H14. destruct (assertions obj) as [items|] eqn:E.
    + specialize (Hitems items eq_refl). destruct items as [|a items];
        [reflexivity|].
      inversion Hitems as [|? ? (Hlt & _) _]. lia.
    + exfalso. apply (proj2 Hpresent); [lia|reflexivity].
  - intros items a Heq Hin. specialize (Hitems items Heq).
    rewrite Forall_forall in Hitems. destruct (Hitems a Hin) as (Hlt & Hs & Ho).
    split; [|now split].
    assert (H13 : 13 <= version obj) by (apply Hpresent; congruence).
    lia.
Qed.

Lemma parsed_assertions_witness :
  let content := RGB9 ++ le32 3 ++ le32 0 ++ le32 0 ++ le32 1
                 ++ cstr "a.asm" ++ le32 0 ++ [x00] ++ le32 1 ++ [x00] ++ cstr "msg" in
  exists obj f' a,
    parse_object 10 content = Ok (Some obj, f')
    /\ assertions obj = Some [a]
    /\ version obj = 13
    /\ assert_section a = None /\ assert_pcoffset a = None.
Proof.
  intros content.
  destruct (parse_object 10 content) as [[[obj|] f']| |] eqn:E;
    try (vm_compute in E; discriminate).
  destruct (assertions obj) as [[|a [|b items]]|] eqn:Ea;
    try (vm_compute in E; injection E as <- _; discriminate Ea).
  exists obj, f', a. split; [reflexivity|]. split; [exact Ea|].
  destruct (parsed_assertions 10 content obj f' E) as (_ & _ & Hitems).
  apply (Hitems [a] a); [exact Ea|now left].
Defined.

(** ** Magic and version *)

Lemma unpack_file_enough fmt f :
  (calcsize fmt <= List.length (rest f))%nat ->
  unpack_file fmt f
  = Ok (decode_fields fmt (firstn (calcsize fmt) (rest f)),
        mkFile (skipn (calcsize fmt) (rest f))
               (reads f ++ [mkEvent (InUnpackFile fmt) (calcsize fmt)
                                    (firstn (calcsize fmt) (rest f))])).
Proof.
  intros Hle. unfold unpack_file, bind, file_read, lift, unpack. simpl.
  rewrite firstn_length_le by exact Hle. now rewrite Nat.eqb_refl.
Qed.

(** The version the header of [content] resolves to: 6 after the magic
    [RGB6], 10 plus the revision after [RGB9]. *)
Definition header_version (content : list byte) : option Z :=
  if bytes_eqb (firstn 4 content) RGB6 then Some 6
  else if bytes_eqb (firstn 4 content) RGB9
       then Some (10 + le_int (firstn 4 (skipn 4 content)))
       else None.

Lemma firstn_firstn_same {A} n (l : list A) : firstn n (firstn n l) = firstn n l.
Proof. rewrite firstn_firstn. now rewrite Nat.min_id. Qed.

Lemma four_bytes (got : list byte) :
  List.length got = 4%nat -> exists a b c d, got = [a; b; c; d].
Proof.
  destruct got as [|a [|b [|c [|d [|e got]]]]]; try discriminate.
  intros _. now exists a, b, c, d.
Qed.

Lemma parse_header_ok content ver f1 :
  parse_header (open content) = Ok (ver, f1) ->
  ver = header_version content
  /\ (4 <= List.length content)%nat
  /\ (firstn 4 content = RGB9 -> (8 <= List.length content)%nat).
Proof.
  unfold parse_header, header_version. intros H.
  apply bind_ok in H. destruct H as ([magic []] & g & Hu & H).
  pose proof (unpack_file_ok _ _ _ _ Hu) as (got & Hsplit & Hlen & Hv & _).
  change (calcsize [f4s]) with 4%nat in Hlen.
  destruct (four_bytes got Hlen) as (a & b & c & d & ->).
  cbn [decode_fields decode_field firstn fmt_size] in Hv. injection Hv as ->.
  cbn [rest open app] in Hsplit.
  assert (Hfirst : firstn 4 content = [a; b; c; d]) by (now rewrite Hsplit).
  assert (Hskip : skipn 4 content = rest g) by (now rewrite Hsplit).
  assert (Hlen4 : (4 <= List.length content)%nat)
    by (rewrite Hsplit; simpl; lia).
  rewrite Hfirst, Hskip.
  destruct (bytes_eqb [a; b; c; d] RGB6) eqn:E6.
  - apply ret_ok in H. destruct H as (-> & _). split; [reflexivity|].
    split; [exact Hlen4|]. apply bytes_eqb_eq in E6. rewrite E6. discriminate.
  - destruct (bytes_eqb [a; b; c; d] RGB9) eqn:E9.
    + apply bind_ok in H. destruct H as ([revision []] & g' & Hu' & H).
      apply ret_ok in H. destruct H as (-> & _).
      pose proof (unpack_file_ok _ _ _ _ Hu') as (got' & Hsplit' & Hlen' & Hv' & _).
      change (calcsize [fI]) with 4%nat in Hlen'.
      destruct (four_bytes got' Hlen') as (a' & b' & c' & d' & ->).
      cbn [decode_fields decode_field firstn fmt_size] in Hv'.
      injection Hv' as ->. cbn [app] in Hsplit'. rewrite Hsplit'.
      split; [reflexivity|]. split; [exact Hlen4|].
      intros _. rewrite Hsplit, Hsplit'. simpl. lia.
    + apply ret_ok in H. destruct H as (-> & _). split; [reflexivity|].
      split; [exact Hlen4|]. intros Heq. apply bytes_eqb_eq in Heq. congruence.
Qed.

(** X7: the version of an object [parse_object] returns is the one its
    header resolves to: 6 when the file starts with [RGB6], and 10 plus the
    little-endian revision in bytes 4 to 7 when it starts with [RGB9]; it
    is one of 6, 10, 11, 13 and 14. *)
Theorem parsed_version_is_from_the_header :
  forall fuel content obj f',
    parse_object fuel content = Ok (Some obj, f') ->
    header_version content = Some (version obj)
    /\ (version obj = 6 \/ version obj = 10 \/ version obj = 11
        \/ version obj = 13 \/ version obj = 14).
Proof.
  intros fuel content obj f' H.
  pose proof (supported_version_cases _ (parse_object_supported _ _ _ _ H)) as Hs.
  split; [|exact Hs].
  unfold parse_object, parse_stream in H.
  apply bind_ok in H. destruct H as (ver & f1 & Hh & H).
  apply parse_header_ok in Hh. destruct Hh as (-> & _).
  destruct (header_version content) as [v|]; [|apply ret_ok in H; now destruct H].
  destruct (supported_version v); [|apply ret_ok in H; now destruct H].
  apply bind_ok in H. destruct H as (o & f2 & Ht & H).
  apply ret_ok in H. destruct H as (H & _). injection H as <-.
  apply parse_tables_version in Ht. now rewrite Ht.
Qed.

Lemma parsed_version_is_from_the_header_witness :
  let content := RGB9 ++ le32 1 ++ le32 0 ++ le32 0 in
  exists obj f',
    parse_object 10 content = Ok (Some obj, f')
    /\ header_version content = Some (version obj)
    /\ version obj = 11.
Proof.
  intros content.
  destruct (parse_object 10 content) as [[[obj|] f']| |] eqn:E;
    try (vm_compute in E; discriminate).
  exists obj, f'. split; [reflexivity|]. split.
  - exact (proj1 (parsed_version_is_from_the_header 10 content obj f' E)).
  - vm_compute in E. now injection E as <- _.
Defined.

(** X8: [parse_object] returns [None] exactly when the file has its 4 magic
    bytes and these are neither [RGB6] nor [RGB9], or they are [RGB9], the
    revision is there and the version it gives is not one of 10, 11, 13 and
    14. (The magic [RGB6] never gives [None].) *)
Theorem unknown_format_returns_none :
  forall fuel content,
    (exists f', parse_object fuel content = Ok (None, f'))
    <-> ((4 <= List.length content)%nat
         /\ match header_version content with
            | None => True
            | Some v => (8 <= List.length content)%nat
                        /\ supported_version v = false
            end).
Proof.
  intros fuel content. unfold parse_object, parse_stream. split.
  - intros (f' & H). apply bind_ok in H. destruct H as (ver & f1 & Hh & H).
    apply parse_header_ok in Hh. destruct Hh as (-> & Hlen & H9).
    split; [exact Hlen|].
    destruct (header_version content) as [v|] eqn:Ev; [|exact I].
    destruct (supported_version v) eqn:Es.
    + apply bind_ok in H. destruct H as (o & f2 & _ & H).
      apply ret_ok in H. now destruct H.
    + split; [|reflexivity]. unfold header_version in Ev.
      destruct (bytes_eqb (firstn 4 content) RGB6) eqn:E6.
      * injection Ev as <-. discriminate.
      * destruct (bytes_eqb (firstn 4 content) RGB9) eqn:E9; [|discriminate].
        apply H9. now apply bytes_eqb_eq.
  - intros (Hlen & Hv). unfold parse_header, header_version, bind in *.
    rewrite (unpack_file_enough [f4s] (open content)) by exact Hlen.
    cbn [decode_fields decode_field fmt_size calcsize fold_right rest open
         Nat.add].
    rewrite firstn_firstn_same.
    destruct (bytes_eqb (firstn 4 content) RGB6).
    + destruct Hv as (_ & Hv). discriminate.
    + destruct (bytes_eqb (firstn 4 content) RGB9).
      * destruct Hv as (Hlen8 & Hv).
        rewrite unpack_file_enough
          by (cbn [rest calcsize fold_right fmt_size Nat.add];
              rewrite length_skipn; lia).
        cbn [decode_fields decode_field fmt_size calcsize fold_right rest
             Nat.add].
        unfold ret. rewrite firstn_firstn_same, Hv. eexists. reflexivity.
      * unfold ret. eexists. reflexivity.
Qed.

Lemma unknown_format_returns_none_witness :
  exists f', parse_object 10 [x45; x4c; x46; x00; x01] = Ok (None, f').
Proof.
  apply (proj2 (unknown_format_returns_none 10 [x45; x4c; x46; x00; x01])).
  split; [simpl; lia|exact I].
Defined.

(** * Further properties of the run *)

(** What [print_all] has written when it ends: the names up to the first
    one that [stdout] cannot encode. *)
Lemma print_all_prefix encodes names : forall stdout out r,
  print_all encodes names stdout = (out, r) ->
  exists written rest,
    out = stdout ++ written
    /\ names = written ++ rest
    /\ forallb encodes written = true
    /\ ((r = Ok tt /\ rest = [])
        \/ (r = Raise UnicodeEncodeError
            /\ exists name rest', rest = name :: rest' /\ encodes name = false)).
Proof.
  induction names as [|name names IH]; intros stdout out r H; simpl in H.
  - injection H as <- <-. exists [], []. rewrite app_nil_r. repeat split. now left.
  - destruct (encodes name) eqn:E.
    + apply IH in H. destruct H as (written & rest & -> & -> & Hall & Hr).
      exists (name :: written), rest. rewrite <- app_assoc. simpl. rewrite E.
      repeat split; assumption.
    + injection H as <- <-. exists [], (name :: names). rewrite app_nil_r.
      repeat split. right. split; [reflexivity|]. now exists name, names.
Qed.

Lemma print_all_app encodes a b : forall stdout,
  print_all encodes (a ++ b) stdout
  = match print_all encodes a stdout with
    | (out, Ok _) => print_all encodes b out
    | (out, Raise e) => (out, Raise e)
    | (out, OutOfFuel) => (out, OutOfFuel)
    end.
Proof.
  induction a as [|name a IH]; intros stdout; simpl; [reflexivity|].
  destruct (encodes name); [apply IH|reflexivity].
Qed.

Lemma print_all_all encodes names : forall stdout,
  forallb encodes names = true ->
  print_all encodes names stdout = (stdout ++ names, Ok tt).
Proof.
  induction names as [|name names IH]; intros stdout H; simpl in *.
  - now rewrite app_nil_r.
  - apply andb_true_iff in H. destruct H as (-> & H).
    rewrite IH by exact H. now rewrite <- app_assoc.
Qed.

Lemma file_loop_analysis_stdout encodes fuel files : forall g out0 out r,
  file_loop encodes fuel false files g out0 = (out, r) -> out = out0.
Proof.
  induction files as [|content files IH]; intros g out0 out r H; simpl in H.
  - now injection H as <- _.
  - destruct (parse_object fuel content) as [[[obj|] f]| |];
      try (now injection H as <- _).
    destruct (analyse_object fuel obj g) as [t| |];
      try (now injection H as <- _).
    now apply IH in H.
Qed.

(** X9: in analysis mode nothing is written to standard output before
    every file is parsed and tallied. Either the file loop has completed,
    and what is written is the report up to its end or up to the first name
    that [stdout] cannot encode, where the run ends in
    [UnicodeEncodeError]; or nothing is written, and the run has not
    reached its end. *)
Theorem analysis_reports_only_at_the_end :
  forall encodes fuel files out r,
    main encodes fuel false files = (out, r) ->
    (exists objs g rest,
        parse_all fuel files = Ok objs
        /\ analyse_all fuel objs [] = Ok g
        /\ report g = out ++ rest
        /\ forallb encodes out = true
        /\ ((r = Ok tt /\ rest = [])
            \/ (r = Raise UnicodeEncodeError
                /\ exists name rest', rest = name :: rest' /\ encodes name = false)))
    \/ (out = [] /\ r <> Ok tt).
Proof.
  intros encodes fuel files out r H. unfold main in H.
  destruct (file_loop encodes fuel false files [] []) as [stdout res] eqn:E.
  pose proof (file_loop_analysis_stdout _ _ _ _ _ _ _ E) as ->.
  destruct res as [g| |].
  - left. apply file_loop_analysis in E. destruct E as (_ & objs & Hp & Ha).
    apply print_all_prefix in H.
    destruct H as (written & rest & -> & Hrep & Hall & Hr).
    exists objs, g, rest. simpl. now repeat split.
  - right. injection H as <- <-. split; [reflexivity|discriminate].
  - right. injection H as <- <-. split; [reflexivity|discriminate].
Qed.

Lemma analysis_reports_only_at_the_end_witness :
  let e_acute := string_of_list_byte [xc3; xa9] in
  let content := RGB6 ++ le32 3 ++ le32 0
                 ++ cstr "A" ++ [x01] ++ [xc3; xa9; x00; x01] ++ cstr "B" ++ [x01] in
  main ascii_stdout 10 false [content] = (["A"%string], Raise UnicodeEncodeError)
  /\ main utf8_stdout 10 false [content] = (["A"%string; e_acute; "B"%string], Ok tt)
  /\ main ascii_stdout 10 false [content; Examples.v14_one_assertion]
     = ([], Raise TypeError)
  /\ exists objs g name rest',
       parse_all 10 [content] = Ok objs
       /\ analyse_all 10 objs [] = Ok g
       /\ report g = ["A"%string] ++ name :: rest'
       /\ ascii_stdout name = false.
Proof.
  intros e_acute content.
  assert (H : main ascii_stdout 10 false [content]
              = (["A"%string], Raise UnicodeEncodeError))
    by (vm_compute; reflexivity).
  split; [exact H|]. split; [vm_compute; reflexivity|].
  split; [vm_compute; reflexivity|].
  destruct (analysis_reports_only_at_the_end ascii_stdout 10 [content]
              ["A"%string] (Raise UnicodeEncodeError) H)
    as [(objs & g & rest & Hp & Ha & Hrep & _ & Hr)|(Hout & _)];
    [|discriminate Hout].
  destruct Hr as [(Hr & _)|(_ & name & rest' & -> & Hname)]; [discriminate Hr|].
  now exists objs, g, name, rest'.
Defined.

Lemma print_all_result encodes names stdout :
  snd (print_all encodes names stdout) <> OutOfFuel.
Proof.
  revert stdout. induction names as [|name names IH]; intros stdout; simpl.
  - discriminate.
  - destruct (encodes name); [apply IH|discriminate].
Qed.

(** The names the dump of a list of objects prints. *)
Definition dumped_names (objs : list object) : list string :=
  flat_map (fun obj => map sym_name (symbols obj)) objs.

Lemma file_loop_after_analysis encodes fuel before : forall rest_files g out0 objs g',
  parse_all fuel before = Ok objs ->
  analyse_all fuel objs g = Ok g' ->
  file_loop encodes fuel false (before ++ rest_files) g out0
  = file_loop encodes fuel false rest_files g' out0.
Proof.
  induction before as [|content before IH];
    intros rest_files g out0 objs g' Hp Ha; simpl in Hp.
  - injection Hp as <-. simpl in Ha. now injection Ha as <-.
  - simpl. destruct (parse_object fuel content) as [[[obj|] f]| |];
      try discriminate.
    destruct (parse_all fuel before) as [objs'| |] eqn:Ep; try discriminate.
    simpl in Hp. injection Hp as <-. simpl in Ha.
    destruct (analyse_object fuel obj g) as [t| |]; try discriminate.
    simpl in Ha. now apply (IH rest_files (snd t) out0 objs' g').
Qed.

Lemma file_loop_after_dump encodes fuel before : forall rest_files g out0 objs,
  parse_all fuel before = Ok objs ->
  file_loop encodes fuel true (before ++ rest_files) g out0
  = match print_all encodes (dumped_names objs) out0 with
    | (out, Ok _) => file_loop encodes fuel true rest_files g out
    | (out, Raise e) => (out, Raise e)
    | (out, OutOfFuel) => (out, OutOfFuel)
    end.
Proof.
  induction before as [|content before IH];
    intros rest_files g out0 objs Hp; simpl in Hp.
  - injection Hp as <-. reflexivity.
  - simpl. destruct (parse_object fuel content) as [[[obj|] f]| |];
      try discriminate.
    destruct (parse_all fuel before) as [objs'| |] eqn:Ep; try discriminate.
    simpl in Hp. injection Hp as <-. unfold dumped_names. simpl flat_map.
    rewrite print_all_app.
    destruct (print_all encodes (map sym_name (symbols obj)) out0)
      as [out1 [[]| |]]; try reflexivity.
    now apply IH.
Qed.

(** X10: a file of unknown format ends the run with [exit(1)], whatever
    files follow it. In analysis mode nothing has been printed. In dump
    mode the names of the symbols of the files before it have been
    printed, when [stdout] can encode them all; if it cannot, the run has
    ended earlier, in [UnicodeEncodeError], with the names before the
    first such name printed. *)
Theorem unknown_format_exits_with_1 :
  forall encodes fuel before content after objs f',
    parse_all fuel before = Ok objs ->
    parse_object fuel content = Ok (None, f') ->
    (forall g, analyse_all fuel objs [] = Ok g ->
               main encodes fuel false (before ++ content :: after)
               = ([], Raise (SystemExit (Some 1))))
    /\ main encodes fuel true (before ++ content :: after)
       = (fst (print_all encodes (dumped_names objs) []),
          rbind (snd (print_all encodes (dumped_names objs) []))
                (fun _ => Raise (SystemExit (Some 1))))
    /\ (forallb encodes (dumped_names objs) = true ->
        main encodes fuel true (before ++ content :: after)
        = (dumped_names objs, Raise (SystemExit (Some 1)))).
Proof.
  intros encodes fuel before content after objs f' Hp Hnone.
  assert (Hdump : main encodes fuel true (before ++ content :: after)
                  = (fst (print_all encodes (dumped_names objs) []),
                     rbind (snd (print_all encodes (dumped_names objs) []))
                           (fun _ => Raise (SystemExit (Some 1))))).
  { unfold main.
    rewrite (file_loop_after_dump encodes fuel before (content :: after) [] [] objs Hp).
    destruct (print_all encodes (dumped_names objs) []) as [out [[]| |]];
      simpl; try reflexivity.
    now rewrite Hnone. }
  split; [|split].
  - intros g Ha. unfold main.
    rewrite (file_loop_after_analysis encodes fuel before (content :: after)
               [] [] objs g Hp Ha).
    simpl. now rewrite Hnone.
  - exact Hdump.
  - intros Hall. rewrite Hdump, (print_all_all encodes _ [] Hall). reflexivity.
Qed.

Lemma unknown_format_exits_with_1_witness :
  main utf8_stdout 10 true [Examples.import_X_unreferenced; [x45; x4c; x46; x00];
                            Examples.export_X_referenced]
  = (["X"%string; "tmp"%string; "Y"%string], Raise (SystemExit (Some 1))).
Proof.
  exact (proj2 (proj2 (unknown_format_exits_with_1 utf8_stdout 10
                         [Examples.import_X_unreferenced]
                         [x45; x4c; x46; x00] [Examples.export_X_referenced]
                         [Examples.object_A]
                         (mkFile [] [mkEvent (InUnpackFile [f4s]) 4 [x45; x4c; x46; x00]])
                         eq_refl eq_refl)) eq_refl).
Defined.

(** X11: in dump mode, when every file parses, the run prints the names of
    the symbols of each file, LOCAL ones too, in symbol-table order and
    file after file, up to the first name that [stdout] cannot encode: it
    ends with [exit()] when all are printed and in [UnicodeEncodeError] at
    such a name. No expression is scanned, so the run does not fail on what
    the patches hold. *)
Theorem dump_mode_lists_every_symbol :
  forall encodes fuel files objs,
    parse_all fuel files = Ok objs ->
    main encodes fuel true files
    = (fst (print_all encodes (dumped_names objs) []),
       rbind (snd (print_all encodes (dumped_names objs) []))
             (fun _ => Raise (SystemExit None)))
    /\ (forallb encodes (dumped_names objs) = true ->
        main encodes fuel true files = (dumped_names objs, Raise (SystemExit None))).
Proof.
  intros encodes fuel files objs Hp.
  assert (Hdump : main encodes fuel true files
                  = (fst (print_all encodes (dumped_names objs) []),
                     rbind (snd (print_all encodes (dumped_names objs) []))
                           (fun _ => Raise (SystemExit None)))).
  { unfold main.
    pose proof (file_loop_after_dump encodes fuel files [] [] [] objs Hp) as H.
    rewrite app_nil_r in H. rewrite H.
    destruct (print_all encodes (dumped_names objs) []) as [out [[]| |]];
      reflexivity. }
  split; [exact Hdump|].
  intros Hall. rewrite Hdump, (print_all_all encodes _ [] Hall). reflexivity.
Qed.

Lemma dump_mode_lists_every_symbol_witness :
  main utf8_stdout 10 true [Examples.import_X_unreferenced; Examples.export_X_referenced]
  = (["X"%string; "tmp"%string; "Y"%string; "X"%string], Raise (SystemExit None))
  /\ main ascii_stdout 10 true
       [RGB6 ++ le32 3 ++ le32 0
        ++ cstr "A" ++ [x01] ++ [xc3; xa9; x00; x01] ++ cstr "B" ++ [x01]]
     = (["A"%string], Raise UnicodeEncodeError).
Proof.
  split.
  - exact (proj2 (dump_mode_lists_every_symbol utf8_stdout 10
                    [Examples.import_X_unreferenced; Examples.export_X_referenced]
                    [Examples.object_A; Examples.object_B] eq_refl) eq_refl).
  - vm_compute. reflexivity.
Defined.




(** * Further properties of the tally *)

(** ** The tally as a fold over the scanned ids *)

(** The ids the expressions of a list of patches yield, patch after patch. *)
Fixpoint patches_ids (fuel : nat) (patches : list patch) : result (list Z) :=
  match patches with
  | [] => Ok []
  | p :: patches' =>
      rbind (scan_symbol_references fuel (patch_rpn p))
            (fun '(_, ids) =>
               rbind (patches_ids fuel patches') (fun ids' => Ok (ids ++ ids')))
  end.

(** The ids of the ROMX and ROM0 sections of a list of sections. *)
Fixpoint sections_ids (fuel : nat) (secs : list section) : result (list Z) :=
  match secs with
  | [] => Ok []
  | s :: secs' =>
      rbind (if is_rom (sec_type s)
             then match sec_patches s with
                  | Some patches => patches_ids fuel patches
                  | None => Raise KeyError
                  end
             else Ok [])
            (fun ids => rbind (sections_ids fuel secs') (fun ids' => Ok (ids ++ ids')))
  end.

(** All the symbol ids the patch expressions of an object yield. *)
Definition object_ids (fuel : nat) (obj : object) : result (list Z) :=
  sections_ids fuel (sections obj).

Lemma rpn_loop_collect_extends rpn : forall fuel pos acc pos' out,
  rpn_loop collect rpn fuel pos acc = Ok (pos', out) ->
  exists ids, out = acc ++ ids.
Proof.
  intros fuel pos acc pos' out H.
  destruct (rpn_loop_collect collect rpn fuel pos acc pos' out [] H)
    as (ids & _ & Hfold).
  exists ids. clear H. revert acc out Hfold.
  induction ids as [|id ids IH]; intros acc out Hfold; simpl in Hfold.
  - injection Hfold as <-. now rewrite app_nil_r.
  - apply IH in Hfold. rewrite Hfold, <- app_assoc. reflexivity.
Qed.

Lemma rpn_step_collect_inv {S} (on_symbol : Z -> S -> result S) rpn pos acc pos' out st :
  rpn_step collect rpn pos acc = Ok (pos', out) ->
  exists ids,
    out = acc ++ ids
    /\ rpn_step on_symbol rpn pos st
       = rbind (fold_symbols on_symbol ids st) (fun st' => Ok (pos', st')).
Proof.
  unfold rpn_step. destruct (nth_error rpn pos) as [op|]; [|discriminate].
  destruct (Byte.eqb op x51).
  - destruct (skip_to_zero (skipn (pos + 1) rpn) (pos + 1)); simpl;
      try discriminate.
    intros H. injection H as <- <-. exists []. now rewrite app_nil_r.
  - destruct (Byte.eqb op x80).
    + intros H. injection H as <- <-. exists []. now rewrite app_nil_r.
    + destruct (Byte.eqb op x50 || Byte.eqb op x81).
      * destruct (unpack [fI] (slice rpn (pos + 1) (pos + 5))) as [[id u]| |];
          simpl; try discriminate.
        intros H. injection H as <- <-. exists [id]. split; [reflexivity|].
        simpl. destruct (on_symbol id st); reflexivity.
      * intros H. injection H as <- <-. exists []. now rewrite app_nil_r.
Qed.

(** When the scan of an expression yields [ids], the loop of the program
    handles these ids in order, and stops at the first that fails. *)
Lemma rpn_loop_of_scan {S} (on_symbol : Z -> S -> result S) rpn :
  forall fuel pos acc pos' ids st,
    rpn_loop collect rpn fuel pos acc = Ok (pos', acc ++ ids) ->
    rpn_loop on_symbol rpn fuel pos st
    = rbind (fold_symbols on_symbol ids st) (fun st' => Ok (pos', st')).
Proof.
  induction fuel as [|fuel IH]; intros pos acc pos' ids st H;
    rewrite rpn_loop_eq in H; rewrite rpn_loop_eq;
    destruct (pos <? List.length rpn)%nat; try discriminate.
  - injection H as <- H. rewrite <- (app_nil_r acc) in H at 1.
    apply app_inv_head in H. now subst ids.
  - destruct (rpn_step collect rpn pos acc) as [[p1 acc1]| |] eqn:E;
      simpl in H; try discriminate.
    destruct (rpn_step_collect_inv on_symbol rpn pos acc p1 acc1 st E)
      as (ids1 & -> & ->).
    destruct (rpn_loop_collect_extends rpn fuel p1 (acc ++ ids1) pos' _ H)
      as (ids2 & Hout).
    rewrite <- app_assoc in Hout. apply app_inv_head in Hout. subst ids.
    rewrite app_assoc in H. rewrite fold_symbols_app.
    destruct (fold_symbols on_symbol ids1 st) as [st1| |]; simpl;
      try reflexivity.
    now apply (IH p1 (acc ++ ids1)).
  - injection H as <- H. rewrite <- (app_nil_r acc) in H at 1.
    apply app_inv_head in H. now subst ids.
Qed.

Lemma count_patches_fold fuel syms patches : forall ids t,
  patches_ids fuel patches = Ok ids ->
  count_patches fuel syms patches t = fold_symbols (count_reference syms) ids t.
Proof.
  induction patches as [|p patches IH]; intros ids t H; simpl in H.
  - now injection H as <-.
  - destruct (scan_symbol_references fuel (patch_rpn p)) as [[pos ids1]| |] eqn:E;
      simpl in H; try discriminate.
    destruct (patches_ids fuel patches) as [ids2| |]; simpl in H;
      try discriminate.
    injection H as <-. simpl. unfold count_patch.
    rewrite (rpn_loop_of_scan (count_reference syms) (patch_rpn p) fuel 0 []
               pos ids1 t E).
    rewrite fold_symbols_app.
    destruct (fold_symbols (count_reference syms) ids1 t) as [t1| |]; simpl;
      try reflexivity.
    now apply IH.
Qed.

Lemma count_sections_fold fuel syms secs : forall ids t,
  sections_ids fuel secs = Ok ids ->
  count_sections fuel syms secs t = fold_symbols (count_reference syms) ids t.
Proof.
  induction secs as [|s secs IH]; intros ids t H; simpl in H.
  - now injection H as <-.
  - simpl. unfold count_section. destruct (is_rom (sec_type s)).
    + destruct (sec_patches s) as [patches|]; [|discriminate].
      destruct (patches_ids fuel patches) as [ids1| |] eqn:E; simpl in H;
        try discriminate.
      destruct (sections_ids fuel secs) as [ids2| |]; simpl in H;
        try discriminate.
      injection H as <-. rewrite (count_patches_fold fuel syms patches ids1 t E).
      rewrite fold_symbols_app.
      destruct (fold_symbols (count_reference syms) ids1 t) as [t1| |]; simpl;
        try reflexivity.
      now apply IH.
    + simpl in H. destruct (sections_ids fuel secs) as [ids2| |]; simpl in H;
        try discriminate.
      injection H as <-. simpl. now apply IH.
Qed.

Lemma analysis_is_a_fold_helper fuel obj globalsyms ids :
  object_ids fuel obj = Ok ids ->
  analyse_object fuel obj globalsyms
  = fold_symbols (count_reference (symbols obj)) ids
      (touch_all (local_names (symbols obj)) [],
       touch_all (global_names (symbols obj)) globalsyms).
Proof.
  intros H. unfold analyse_object.
  destruct (register_symbols_maps obj globalsyms) as (-> & ->).
  now apply count_sections_fold.
Qed.

(** X12: when every patch expression of an object scans, the tally of the
    file is the registration followed by one [count_reference] per symbol
    id, in the order the scanner yields them: the first id that fails ends
    the file with its exception. *)
Theorem analysis_is_a_fold_over_the_scanned_ids :
  forall fuel obj globalsyms ids,
    object_ids fuel obj = Ok ids ->
    analyse_object fuel obj globalsyms
    = fold_symbols (count_reference (symbols obj)) ids
        (touch_all (local_names (symbols obj)) [],
         touch_all (global_names (symbols obj)) globalsyms).
Proof.
  intros fuel obj g ids H. unfold analyse_object.
  destruct (register_symbols_maps obj g) as (-> & ->).
  now apply count_sections_fold.
Qed.

Lemma analysis_is_a_fold_witness :
  object_ids 10 Examples.object_B = Ok [0]
  /\ analyse_object 10 Examples.object_B [("X"%string, 0)]
     = count_reference (symbols Examples.object_B) 0 ([], [("X"%string, 0)]).
Proof.
  assert (H : object_ids 10 Examples.object_B = Ok [0]) by reflexivity.
  split; [exact H|].
  exact (analysis_is_a_fold_over_the_scanned_ids 10 Examples.object_B
           [("X"%string, 0)] [0] H).
Defined.

(** ** Which exceptions the tally can raise *)

(** Every symbol of the table has its name in the map of its kind. *)
Definition registered (syms : list symbol) (t : tally) : Prop :=
  forall s, In s syms -> dict_get (sym_name s) (map_of s (fst t) (snd t)) <> None.

Lemma registered_step syms t t' :
  tally_step t t' -> registered syms t -> registered syms t'.
Proof.
  intros (Kl & Kg & _) Hreg s Hin. specialize (Hreg s Hin).
  apply dict_get_in_keys. apply dict_get_in_keys in Hreg.
  unfold map_of in *. destruct (sym_type s); congruence.
Qed.

Lemma registered_after_registration obj globalsyms :
  registered (symbols obj)
             (touch_all (local_names (symbols obj)) [],
              touch_all (global_names (symbols obj)) globalsyms).
Proof.
  intros s Hin. unfold map_of. simpl.
  destruct (sym_type s) eqn:Ht.
  - destruct (touch_all_in (local_names (symbols obj)) [] (sym_name s))
      as (v & ->); [apply in_local_names; [assumption|now rewrite Ht]|discriminate].
  - destruct (touch_all_in (global_names (symbols obj)) globalsyms (sym_name s))
      as (v & ->); [apply in_global_names; [assumption|now rewrite Ht]|discriminate].
  - destruct (touch_all_in (global_names (symbols obj)) globalsyms (sym_name s))
      as (v & ->); [apply in_global_names; [assumption|now rewrite Ht]|discriminate].
Qed.

(** On a tally in which every symbol is registered, counting a reference
    fails only on an id past the end of the symbol table. *)
Lemma count_reference_registered syms id t :
  registered syms t ->
  ((Z.to_nat id < List.length syms)%nat ->
   exists t', count_reference syms id t = Ok t')
  /\ ((List.length syms <= Z.to_nat id)%nat ->
      count_reference syms id t = Raise IndexError).
Proof.
  intros Hreg. unfold count_reference. split.
  - intros Hlt. destruct (nth_error syms (Z.to_nat id)) as [s|] eqn:E.
    2:{ apply nth_error_None in E. lia. }
    specialize (Hreg s (nth_error_In _ _ E)). unfold map_of, dict_incr in *.
    destruct (sym_type s); simpl.
    + destruct (dict_get (sym_name s) (fst t)); simpl; [eauto|congruence].
    + destruct (dict_get (sym_name s) (snd t)); simpl; [eauto|congruence].
    + destruct (dict_get (sym_name s) (snd t)); simpl; [eauto|congruence].
  - intros Hge. apply nth_error_None in Hge. now rewrite Hge.
Qed.

Lemma fold_symbols_in_range syms ids : forall t,
  registered syms t ->
  (Forall (fun id => (Z.to_nat id < List.length syms)%nat) ids ->
   exists t', fold_symbols (count_reference syms) ids t = Ok t')
  /\ (Exists (fun id => (List.length syms <= Z.to_nat id)%nat) ids ->
      fold_symbols (count_reference syms) ids t = Raise IndexError).
Proof.
  induction ids as [|id ids IH]; intros t Hreg; simpl.
  - split; [eauto|]. intros H. inversion H.
  - destruct (count_reference_registered syms id t Hreg) as (Hok & Hbad).
    destruct (Nat.lt_ge_cases (Z.to_nat id) (List.length syms)) as [Hlt|Hge].
    + destruct (Hok Hlt) as (t1 & E). rewrite E. simpl.
      assert (Hreg1 : registered syms t1).
      { eapply registered_step; [|exact Hreg].
        exact (count_reference_step _ _ _ _ E). }
      destruct (IH t1 Hreg1) as (IHok & IHbad). split.
      * intros Hall. inversion Hall; subst. now apply IHok.
      * intros Hex. inversion Hex; subst; [lia|now apply IHbad].
    + rewrite (Hbad Hge). simpl. split; [|reflexivity].
      intros Hall. inversion Hall; subst. lia.
Qed.

(** X13: when every patch expression of an object scans, the tally of the
    file succeeds exactly when every symbol id the expressions yield is
    below the number of symbols; with an id past the end of the table it
    ends in [IndexError]. No [KeyError] can occur: registration has put
    every symbol's name in its map before the first reference is counted. *)
Theorem tally_fails_only_on_an_id_out_of_range :
  forall fuel obj globalsyms ids,
    object_ids fuel obj = Ok ids ->
    (Forall (fun id => (Z.to_nat id < List.length (symbols obj))%nat) ids ->
     exists t, analyse_object fuel obj globalsyms = Ok t)
    /\ (Exists (fun id => (List.length (symbols obj) <= Z.to_nat id)%nat) ids ->
        analyse_object fuel obj globalsyms = Raise IndexError).
Proof.
  intros fuel obj g ids H. unfold analyse_object.
  destruct (register_symbols_maps obj g) as (-> & ->).
  rewrite (count_sections_fold fuel (symbols obj) (sections obj) ids _ H).
  apply fold_symbols_in_range, registered_after_registration.
Qed.

Lemma tally_fails_only_on_an_id_out_of_range_witness :
  let stray := mkObject [mkSymbol "X" IMPORT None None None None]
                 [mkSection "code" 0 0 ROM0 1 None (Some [])
                    (Some [mkPatch "a.asm" None 0 None None BYTE (x81 :: le32 1)])]
                 11 None in
  object_ids 5 stray = Ok [1]
  /\ analyse_object 5 stray [] = Raise IndexError.
Proof.
  intros stray.
  assert (H : object_ids 5 stray = Ok [1]) by reflexivity.
  split; [exact H|].
  apply (proj2 (tally_fails_only_on_an_id_out_of_range 5 stray [] [1] H)).
  constructor. simpl. lia.
Defined.

(** ** What the counts are *)

(** [s] is a global symbol called [name]; a LOCAL symbol called [name]. *)
Definition names_global (name : string) (s : symbol) : bool :=
  negb (is_local (sym_type s)) && String.eqb (sym_name s) name.

Definition names_local (name : string) (s : symbol) : bool :=
  is_local (sym_type s) && String.eqb (sym_name s) name.

(** How many of [ids] are the index of a symbol that satisfies [target]. *)
Definition hits (target : symbol -> bool) (syms : list symbol) (ids : list Z) : Z :=
  Z.of_nat (List.length
              (filter (fun id => match nth_error syms (Z.to_nat id) with
                                 | Some s => target s
                                 | None => false
                                 end) ids)).

Lemma hits_cons target syms id ids :
  hits target syms (id :: ids) = hits target syms [id] + hits target syms ids.
Proof.
  unfold hits. cbn [filter].
  destruct (match nth_error syms (Z.to_nat id) with
            | Some s => target s
            | None => false
            end); cbn [List.length]; lia.
Qed.

Definition bump (n : Z) (v : option Z) : option Z := option_map (fun c => c + n) v.

Lemma bump_0 v : bump 0 v = v.
Proof. destruct v; simpl; [f_equal; lia|reflexivity]. Qed.

Lemma bump_bump n m v : bump m (bump n v) = bump (n + m) v.
Proof. destruct v; simpl; [f_equal; lia|reflexivity]. Qed.

Lemma dict_incr_get k d d' name :
  dict_incr k d = Ok d' ->
  dict_get name d' = bump (if String.eqb k name then 1 else 0) (dict_get name d).
Proof.
  intros H. apply dict_incr_ok in H. destruct H as (_ & (v & Hv & Hv') & Hother).
  destruct (String.eqb_spec k name) as [<-|Hne].
  - now rewrite Hv, Hv'.
  - rewrite bump_0. apply Hother. congruence.
Qed.

Lemma count_reference_get syms id t t' name :
  count_reference syms id t = Ok t' ->
  dict_get name (fst t') = bump (hits (names_local name) syms [id]) (dict_get name (fst t))
  /\ dict_get name (snd t')
     = bump (hits (names_global name) syms [id]) (dict_get name (snd t)).
Proof.
  unfold count_reference, hits, names_local, names_global. simpl filter.
  destruct (nth_error syms (Z.to_nat id)) as [s|]; [|discriminate].
  destruct (is_local (sym_type s)); simpl.
  - destruct (dict_incr (sym_name s) (fst t)) as [l| |] eqn:E; try discriminate.
    simpl. intros H. injection H as <-. simpl. rewrite bump_0. split; [|reflexivity].
    rewrite (dict_incr_get _ _ _ name E).
    now destruct (String.eqb (sym_name s) name).
  - destruct (dict_incr (sym_name s) (snd t)) as [g| |] eqn:E; try discriminate.
    simpl. intros H. injection H as <-. simpl. rewrite bump_0. split; [reflexivity|].
    rewrite (dict_incr_get _ _ _ name E).
    now destruct (String.eqb (sym_name s) name).
Qed.

Lemma fold_symbols_get syms name ids : forall t t',
  fold_symbols (count_reference syms) ids t = Ok t' ->
  dict_get name (fst t') = bump (hits (names_local name) syms ids) (dict_get name (fst t))
  /\ dict_get name (snd t')
     = bump (hits (names_global name) syms ids) (dict_get name (snd t)).
Proof.
  induction ids as [|id ids IH]; intros t t' H; simpl in H.
  - injection H as <-. unfold hits. simpl. now rewrite !bump_0.
  - destruct (count_reference syms id t) as [t1| |] eqn:E; try discriminate.
    simpl in H. destruct (IH t1 t' H) as (Hl & Hg).
    destruct (count_reference_get syms id t t1 name E) as (Hl1 & Hg1).
    rewrite Hl, Hg, Hl1, Hg1, !bump_bump, <- !hits_cons. now split.
Qed.

Lemma touch_all_get names : forall d name,
  dict_get name (touch_all names d)
  = match dict_get name d with
    | Some v => Some v
    | None => if existsb (String.eqb name) names then Some 0 else None
    end.
Proof.
  induction names as [|n names IH]; intros d name; simpl.
  - now destruct (dict_get name d).
  - rewrite IH. destruct (dict_touch_get n d) as (Hnew & Hold & Hother).
    destruct (String.eqb_spec name n) as [->|Hne]; simpl.
    + destruct (dict_get n d) as [v|] eqn:E.
      * now rewrite (Hold v eq_refl).
      * now rewrite (Hnew eq_refl).
    + now rewrite (Hother name Hne).
Qed.

Lemma analyse_object_global_get fuel obj globalsyms ids t name :
  object_ids fuel obj = Ok ids ->
  analyse_object fuel obj globalsyms = Ok t ->
  dict_get name (snd t)
  = match dict_get name globalsyms with
    | Some v => Some (v + hits (names_global name) (symbols obj) ids)
    | None =>
        if existsb (String.eqb name) (global_names (symbols obj))
        then Some (hits (names_global name) (symbols obj) ids)
        else None
    end.
Proof.
  intros Hids H.
  rewrite (analysis_is_a_fold_helper fuel obj globalsyms ids Hids) in H.
  destruct (fold_symbols_get _ name _ _ _ H) as (_ & Hg). simpl in Hg.
  rewrite Hg, touch_all_get.
  destruct (dict_get name globalsyms); [reflexivity|].
  now destruct (existsb (String.eqb name) (global_names (symbols obj))).
Qed.

(** X14: when a file has been tallied, the count of a name in
    [globalsyms] is its count before the file plus the number of symbol
    ids, over all the patch expressions of the file, that index a global
    symbol of that name; a name that was not a key starts from 0 if the
    file has a global symbol of that name and is still not a key
    otherwise. *)
Theorem global_counts_add_the_references :
  forall fuel obj globalsyms ids t name,
    object_ids fuel obj = Ok ids ->
    analyse_object fuel obj globalsyms = Ok t ->
    dict_get name (snd t)
    = match dict_get name globalsyms with
      | Some v => Some (v + hits (names_global name) (symbols obj) ids)
      | None =>
          if existsb (String.eqb name) (global_names (symbols obj))
          then Some (hits (names_global name) (symbols obj) ids)
          else None
      end.
Proof.
  intros fuel obj g ids t name Hids H.
  now apply (analyse_object_global_get fuel obj g ids t name).
Qed.

Lemma global_counts_witness :
  object_ids 10 Examples.object_B = Ok [0]
  /\ analyse_object 10 Examples.object_B [("X"%string, 4)]
     = Ok ([], [("X"%string, 5)])
  /\ dict_get "X" [("X"%string, 5)]
     = Some (4 + hits (names_global "X") (symbols Examples.object_B) [0]).
Proof.
  assert (Hids : object_ids 10 Examples.object_B = Ok [0]) by reflexivity.
  assert (H : analyse_object 10 Examples.object_B [("X"%string, 4)]
              = Ok ([], [("X"%string, 5)])) by reflexivity.
  split; [exact Hids|]. split; [exact H|].
  exact (global_counts_add_the_references 10 Examples.object_B [("X"%string, 4)]
           [0] ([], [("X"%string, 5)]) "X"%string Hids H).
Defined.

(** X15: the locals map of a file is a function of the file alone: its
    keys are the names of the LOCAL symbols in order of first occurrence,
    and the count of each is the number of symbol ids in the patch
    expressions of the file that index a LOCAL symbol of that name.
    Nothing of the files processed before is in it. *)
Theorem local_counts_are_per_file :
  forall fuel obj globalsyms ids t,
    object_ids fuel obj = Ok ids ->
    analyse_object fuel obj globalsyms = Ok t ->
    dict_keys (fst t) = first_seen (local_names (symbols obj))
    /\ forall name,
         dict_get name (fst t)
         = if existsb (String.eqb name) (local_names (symbols obj))
           then Some (hits (names_local name) (symbols obj) ids)
           else None.
Proof.
  intros fuel obj g ids t Hids H. split.
  - apply analyse_object_step in H. destruct H as (K & _). simpl in K.
    rewrite K, touch_all_keys, add_keys_first_seen. simpl.
    rewrite <- (filter_ext (fun _ => true)); [|reflexivity].
    induction (first_seen (local_names (symbols obj))) as [|x l IH];
      simpl; congruence.
  - intros name.
    rewrite (analysis_is_a_fold_helper fuel obj g ids Hids) in H.
    destruct (fold_symbols_get _ name _ _ _ H) as (Hl & _). simpl in Hl.
    rewrite Hl, touch_all_get. simpl.
    now destruct (existsb (String.eqb name) (local_names (symbols obj))).
Qed.

Lemma local_counts_are_per_file_witness :
  let obj := mkObject [mkSymbol "loop" LOCAL (Some "a.asm"%string) (Some 1) (Some 0) (Some 0);
                       mkSymbol "X" IMPORT None None None None]
               [mkSection "code" 0 0 ROMX 1 None (Some [])
                  (Some [mkPatch "a.asm" None 0 None None JR
                           (x50 :: le32 0 ++ x50 :: le32 0 ++ x81 :: le32 1)])]
               11 None in
  object_ids 20 obj = Ok [0; 0; 1]
  /\ analyse_object 20 obj [("loop"%string, 7)]
     = Ok ([("loop"%string, 2)], [("loop"%string, 7); ("X"%string, 1)])
  /\ dict_keys [("loop"%string, 2)] = first_seen (local_names (symbols obj)).
Proof.
  intros obj.
  assert (Hids : object_ids 20 obj = Ok [0; 0; 1]) by reflexivity.
  assert (H : analyse_object 20 obj [("loop"%string, 7)]
              = Ok ([("loop"%string, 2)], [("loop"%string, 7); ("X"%string, 1)]))
    by reflexivity.
  split; [exact Hids|]. split; [exact H|].
  exact (proj1 (local_counts_are_per_file 20 obj [("loop"%string, 7)] [0; 0; 1]
                  _ Hids H)).
Defined.

(** ** The tally always ends *)

Lemma count_reference_not_out_of_fuel syms id t :
  count_reference syms id t <> OutOfFuel.
Proof.
  unfold count_reference, dict_incr.
  destruct (nth_error syms (Z.to_nat id)) as [s|]; [|discriminate].
  destruct (is_local (sym_type s)).
  - destruct (dict_get (sym_name s) (fst t)); discriminate.
  - destruct (dict_get (sym_name s) (snd t)); discriminate.
Qed.

Lemma count_patches_enough_fuel fuel syms patches : forall t,
  Forall (fun p => (List.length (patch_rpn p) <= fuel)%nat) patches ->
  count_patches fuel syms patches t <> OutOfFuel.
Proof.
  induction patches as [|p patches IH]; intros t Hall; simpl; [discriminate|].
  inversion Hall as [|? ? Hp Hrest]; subst. unfold count_patch.
  pose proof (rpn_loop_enough_fuel (count_reference syms) (patch_rpn p)
                (count_reference_not_out_of_fuel syms) fuel 0%nat t
                ltac:(lia)) as Hloop.
  destruct (rpn_loop (count_reference syms) (patch_rpn p) fuel 0 t)
    as [[pos t1]| |]; simpl; try discriminate; [|contradiction].
  now apply IH.
Qed.

(** X16: the tally of a file needs no more iterations per expression than
    the expression has bytes: with that much fuel for the longest patch
    expression of the object, [analyse_object] returns or raises. *)
Theorem tally_terminates :
  forall fuel obj globalsyms,
    (forall sec patches p,
        In sec (sections obj) ->
        sec_patches sec = Some patches ->
        In p patches ->
        (List.length (patch_rpn p) <= fuel)%nat) ->
    analyse_object fuel obj globalsyms <> OutOfFuel.
Proof.
  intros fuel obj g Hlen. unfold analyse_object.
  generalize (reg_locals (register_symbols obj g), reg_globals (register_symbols obj g)).
  induction (sections obj) as [|s secs IH]; intros t; simpl; [discriminate|].
  assert (Hs : count_section fuel (symbols obj) t s <> OutOfFuel).
  { unfold count_section. destruct (is_rom (sec_type s)); [|discriminate].
    destruct (sec_patches s) as [patches|] eqn:E; [|discriminate].
    apply count_patches_enough_fuel. apply Forall_forall. intros p Hp.
    apply (Hlen s patches p); [now left|exact E|exact Hp]. }
  destruct (count_section fuel (symbols obj) t s) as [t1| |]; simpl;
    try discriminate; [|contradiction].
  apply IH. intros sec patches p Hin. apply Hlen. now right.
Qed.

Lemma tally_terminates_witness :
  analyse_object 10 Examples.object_B [] <> OutOfFuel.
Proof.
  apply (tally_terminates 10 Examples.object_B []).
  intros sec patches p [<-|[]] Hp. simpl in Hp. injection Hp as <-.
  intros [<-|[]]. simpl. lia.
Defined.

(** ** What can be printed *)

(** X17: every name a completed analysis run prints is the name of an
    IMPORT or EXPORT symbol of one of the files: a name that only LOCAL
    symbols carry is never reported. *)
Theorem only_global_names_are_reported :
  forall encodes fuel files out name,
    main encodes fuel false files = (out, Ok tt) ->
    In name out ->
    exists objs obj s,
      parse_all fuel files = Ok objs
      /\ In obj objs
      /\ In s (symbols obj)
      /\ sym_name s = name
      /\ sym_type s <> LOCAL.
Proof.
  intros encodes fuel files out name H Hin. apply main_analysis in H.
  destruct H as (objs & g & Hp & Ha & ->). exists objs.
  apply report_in in Hin.
  assert (Hkey : In name (dict_keys g)) by (apply dict_get_in_keys; congruence).
  rewrite (analyse_all_keys fuel objs [] g Ha), add_keys_first_seen in Hkey.
  simpl in Hkey. apply filter_In in Hkey. destruct Hkey as (Hkey & _).
  apply (proj1 (first_seen_in _ _)) in Hkey. unfold all_global_names in Hkey.
  apply in_flat_map in Hkey. destruct Hkey as (obj & Hobj & Hname).
  unfold global_names in Hname. apply in_map_iff in Hname.
  destruct Hname as (s & Hs & Hf). apply filter_In in Hf.
  destruct Hf as (Hsin & Hglobal).
  exists obj, s. repeat split; try assumption.
  intros Hl. rewrite Hl in Hglobal. discriminate.
Qed.

Lemma only_global_names_are_reported_witness :
  main utf8_stdout 10 false [Examples.import_X_unreferenced] = (["X"%string; "Y"%string], Ok tt)
  /\ exists objs obj s,
       parse_all 10 [Examples.import_X_unreferenced] = Ok objs
       /\ In obj objs /\ In s (symbols obj)
       /\ sym_name s = "Y"%string /\ sym_type s <> LOCAL.
Proof.
  assert (H : main utf8_stdout 10 false [Examples.import_X_unreferenced]
              = (["X"%string; "Y"%string], Ok tt)) by (vm_compute; reflexivity).
  split; [exact H|].
  apply (only_global_names_are_reported utf8_stdout 10
           [Examples.import_X_unreferenced]
           ["X"%string; "Y"%string] "Y"%string H).
  simpl. auto.
Defined.

(** ** The counters of the registration loop *)

Lemma register_counters syms : forall r,
  reg_imports (fold_left register_symbol syms r)
  = reg_imports r
    + Z.of_nat (List.length (filter (fun s => is_import (sym_type s)) syms))
  /\ reg_exports (fold_left register_symbol syms r)
     = reg_exports r
       + Z.of_nat (List.length (filter (fun s => is_export (sym_type s)) syms)).
Proof.
  induction syms as [|s syms IH]; intros r; simpl fold_left.
  - simpl. lia.
  - destruct (IH (register_symbol r s)) as (Hi & He). rewrite Hi, He.
    unfold register_symbol. cbn [filter].
    destruct (sym_type s); cbn [is_import is_export reg_imports reg_exports
                                 List.length]; lia.
Qed.

Lemma touch_all_empty_zero names : forall d,
  (forall k v, dict_get k d = Some v -> v = 0) ->
  forall k v, dict_get k (touch_all names d) = Some v -> v = 0.
Proof.
  intros d Hd k v. rewrite touch_all_get.
  destruct (dict_get k d) as [v0|] eqn:E.
  - intros H. injection H as <-. now apply (Hd k).
  - destruct (existsb (String.eqb k) names); congruence.
Qed.

(** X18: after the registration loop, [imports] is the number of IMPORT
    entries of the symbol table and [exports] the number of EXPORT entries,
    repeated names counted each time; [localsyms] has one key per distinct
    LOCAL name, in order of first occurrence, each with count 0. *)
Theorem registration_counters :
  forall obj globalsyms,
    let r := register_symbols obj globalsyms in
    reg_imports r
    = Z.of_nat (List.length (filter (fun s => is_import (sym_type s)) (symbols obj)))
    /\ reg_exports r
       = Z.of_nat (List.length (filter (fun s => is_export (sym_type s)) (symbols obj)))
    /\ dict_keys (reg_locals r) = first_seen (local_names (symbols obj))
    /\ (forall name v, dict_get name (reg_locals r) = Some v -> v = 0).
Proof.
  intros obj g r. subst r. unfold register_symbols.
  destruct (register_counters (symbols obj) (mkRegistry [] g 0 0)) as (Hi & He).
  destruct (register_fold (symbols obj) (mkRegistry [] g 0 0)) as (Hl & _).
  simpl in Hi, He, Hl. rewrite Hi, He, Hl. repeat split.
  - rewrite touch_all_keys, add_keys_first_seen. simpl.
    rewrite <- (filter_ext (fun _ => true)); [|reflexivity].
    induction (first_seen (local_names (symbols obj))) as [|x l IH];
      simpl; congruence.
  - apply touch_all_empty_zero. discriminate.
Qed.

(** ** The ids a scan yields *)

(** The byte is one of the two symbol-reference opcodes. *)
Definition is_symbol_opcode (b : byte) : bool := Byte.eqb b x50 || Byte.eqb b x81.

Lemma rpn_step_collect_ids rpn pos acc pos' out :
  rpn_step collect rpn pos acc = Ok (pos', out) ->
  out = acc
  \/ exists op id,
       nth_error rpn pos = Some op
       /\ is_symbol_opcode op = true
       /\ out = acc ++ [id]
       /\ id = le_int (slice rpn (pos + 1) (pos + 5))
       /\ 0 <= id < 2 ^ 32.
Proof.
  unfold rpn_step. destruct (nth_error rpn pos) as [op|]; [|discriminate].
  destruct (Byte.eqb op x51).
  - destruct (skip_to_zero (skipn (pos + 1) rpn) (pos + 1)); simpl;
      try discriminate.
    intros H. injection H as _ <-. now left.
  - destruct (Byte.eqb op x80).
    + intros H. injection H as _ <-. now left.
    + destruct (Byte.eqb op x50 || Byte.eqb op x81) eqn:E.
      * destruct (unpack [fI] (slice rpn (pos + 1) (pos + 5))) as [[id u]| |] eqn:Eu;
          simpl; try discriminate.
        intros H. injection H as _ <-. right. exists op, id.
        apply unpack_ok in Eu. destruct Eu as (Hlen & Hid).
        change (calcsize [fI]) with 4%nat in Hlen.
        destruct (four_bytes _ Hlen) as (a & b & c & d & Hs).
        rewrite Hs in Hid |- *.
        cbn [decode_fields decode_field firstn fmt_size] in Hid.
        injection Hid as -> _.
        repeat split; try reflexivity; try exact E;
          pose proof (le_int_range [a; b; c; d]) as Hr; simpl in Hr; lia.
      * intros H. injection H as _ <-. now left.
Qed.

(** X19: every symbol id a scan yields is an unsigned 32-bit value, so it
    never indexes the symbol table from its end; and a buffer without a
    byte 0x50 or 0x81 yields no id at all. *)
Theorem scanned_ids_are_unsigned :
  forall fuel rpn pos ids,
    scan_symbol_references fuel rpn = Ok (pos, ids) ->
    Forall (fun id => 0 <= id < 2 ^ 32) ids
    /\ (Forall (fun b => is_symbol_opcode b = false) rpn -> ids = []).
Proof.
  intros fuel rpn pos ids. unfold scan_symbol_references.
  assert (Hgen : forall fuel p acc,
             rpn_loop collect rpn fuel p acc = Ok (pos, ids) ->
             (Forall (fun id => 0 <= id < 2 ^ 32) acc ->
              Forall (fun id => 0 <= id < 2 ^ 32) ids)
             /\ (Forall (fun b => is_symbol_opcode b = false) rpn -> ids = acc)).
  { clear fuel. induction fuel as [|fuel IH]; intros p acc H;
      rewrite rpn_loop_eq in H; destruct (p <? List.length rpn)%nat;
      try discriminate; try (injection H as _ <-; now split).
    destruct (rpn_step collect rpn p acc) as [[p1 acc1]| |] eqn:E;
      simpl in H; try discriminate.
    destruct (IH p1 acc1 H) as (Hrange & Hnone).
    destruct (rpn_step_collect_ids rpn p acc p1 acc1 E)
      as [->|(op & id & Hop & Hsym & -> & _ & Hid)].
    - now split.
    - split.
      + intros Hacc. apply Hrange. apply Forall_app. split; [exact Hacc|].
        now repeat constructor.
      + intros Hno. rewrite Forall_forall in Hno.
        rewrite (Hno op (nth_error_In _ _ Hop)) in Hsym. discriminate. }
  intros H. destruct (Hgen fuel 0%nat [] H) as (Hrange & Hnone).
  split; [now apply Hrange|exact Hnone].
Qed.

Lemma scanned_ids_are_unsigned_witness :
  scan_symbol_references 5 [x81; xff; xff; xff; xff] = Ok (5%nat, [4294967295])
  /\ Forall (fun id => 0 <= id < 2 ^ 32) [4294967295].
Proof.
  assert (H : scan_symbol_references 5 [x81; xff; xff; xff; xff]
              = Ok (5%nat, [4294967295])) by reflexivity.
  split; [exact H|].
  exact (proj1 (scanned_ids_are_unsigned 5 _ 5%nat [4294967295] H)).
Defined.

(** ** The shared map over the run *)

Lemma analyse_all_app fuel before : forall after g,
  analyse_all fuel (before ++ after) g
  = rbind (analyse_all fuel before g) (analyse_all fuel after).
Proof.
  induction before as [|obj before IH]; intros after g; simpl; [reflexivity|].
  destruct (analyse_object fuel obj g) as [t| |]; simpl; auto.
Qed.

(** X20: [globalsyms] is never reset and no count in it ever goes down:
    from the map after some files to the map after these and further
    files, every key is kept, in the same order at the front, and every
    count is at least what it was. *)
Theorem globalsyms_only_grows :
  forall fuel before after g1 g2,
    analyse_all fuel before [] = Ok g1 ->
    analyse_all fuel (before ++ after) [] = Ok g2 ->
    (exists later, dict_keys g2 = dict_keys g1 ++ later)
    /\ forall name v1,
         dict_get name g1 = Some v1 ->
         exists v2, dict_get name g2 = Some v2 /\ 0 <= v1 <= v2.
Proof.
  intros fuel before after g1 g2 H1 H2.
  rewrite analyse_all_app, H1 in H2. simpl in H2.
  pose proof (analyse_all_grows fuel before [] g1 H1) as (_ & Hn1).
  pose proof (analyse_all_grows fuel after g1 g2 H2) as (G & _).
  split.
  - rewrite (analyse_all_keys fuel after g1 g2 H2), add_keys_first_seen. eauto.
  - intros name v1 Hv1. destruct (G name v1 Hv1) as (v2 & Hv2 & Hle).
    exists v2. split; [exact Hv2|]. specialize (Hn1 nonneg_empty name v1 Hv1). lia.
Qed.

Lemma globalsyms_only_grows_witness :
  analyse_all 10 [Examples.object_B] [] = Ok [("X"%string, 1)]
  /\ analyse_all 10 ([Examples.object_B] ++ [Examples.object_A]) []
     = Ok [("X"%string, 1); ("Y"%string, 0)]
  /\ exists later,
       dict_keys [("X"%string, 1); ("Y"%string, 0)] = dict_keys [("X"%string, 1)] ++ later.
Proof.
  assert (H1 : analyse_all 10 [Examples.object_B] [] = Ok [("X"%string, 1)])
    by reflexivity.
  assert (H2 : analyse_all 10 ([Examples.object_B] ++ [Examples.object_A]) []
               = Ok [("X"%string, 1); ("Y"%string, 0)]) by reflexivity.
  split; [exact H1|]. split; [exact H2|].
  exact (proj1 (globalsyms_only_grows 10 [Examples.object_B] [Examples.object_A]
                  _ _ H1 H2)).
Defined.

(** ** The final counts *)

Lemma count_patches_ids_ok fuel syms patches : forall t t',
  count_patches fuel syms patches t = Ok t' ->
  exists ids, patches_ids fuel patches = Ok ids.
Proof.
  induction patches as [|p patches IH]; intros t t' H; simpl in H; simpl.
  - eauto.
  - destruct (count_patch fuel syms t p) as [t1| |] eqn:E; try discriminate.
    simpl in H. apply count_patch_scan in E.
    destruct E as (pos & ids1 & -> & _). simpl.
    destruct (IH t1 t' H) as (ids2 & ->). simpl. eauto.
Qed.

Lemma count_sections_ids_ok fuel syms secs : forall t t',
  count_sections fuel syms secs t = Ok t' ->
  exists ids, sections_ids fuel secs = Ok ids.
Proof.
  induction secs as [|s secs IH]; intros t t' H; simpl in H; simpl.
  - eauto.
  - destruct (count_section fuel syms t s) as [t1| |] eqn:E; try discriminate.
    simpl in H. destruct (IH t1 t' H) as (ids2 & ->).
    unfold count_section in E. destruct (is_rom (sec_type s)).
    + destruct (sec_patches s) as [patches|]; [|discriminate].
      destruct (count_patches_ids_ok fuel syms patches t t1 E) as (ids1 & ->).
      simpl. eauto.
    + simpl. eauto.
Qed.

Lemma analyse_object_ids_ok fuel obj g t :
  analyse_object fuel obj g = Ok t -> exists ids, object_ids fuel obj = Ok ids.
Proof. unfold analyse_object, object_ids. apply count_sections_ids_ok. Qed.

(** The references a file makes to the global symbols called [name], and
    those of all the files of a run. *)
Definition file_hits (fuel : nat) (name : string) (obj : object) : Z :=
  match object_ids fuel obj with
  | Ok ids => hits (names_global name) (symbols obj) ids
  | _ => 0
  end.

Definition run_hits (fuel : nat) (name : string) (objs : list object) : Z :=
  fold_right (fun obj n => file_hits fuel name obj + n) 0 objs.

Lemma no_global_of_that_name name syms ids :
  existsb (String.eqb name) (global_names syms) = false ->
  filter (fun id => match nth_error syms (Z.to_nat id) with
                    | Some s => names_global name s
                    | None => false
                    end) ids = [].
Proof.
  intros Hno. induction ids as [|id ids IH]; [reflexivity|]. simpl.
  destruct (nth_error syms (Z.to_nat id)) as [s|] eqn:E; [|exact IH].
  destruct (names_global name s) eqn:Hg; [|exact IH].
  exfalso. unfold names_global in Hg. apply andb_true_iff in Hg.
  destruct Hg as (Hl & Hn). apply String.eqb_eq in Hn. subst name.
  assert (Hin : In (sym_name s) (global_names syms)).
  { apply in_global_names; [exact (nth_error_In _ _ E)|].
    now destruct (is_local (sym_type s)). }
  apply existsb_eqb_in in Hin. congruence.
Qed.

Lemma analyse_all_get fuel name objs : forall g0 g,
  analyse_all fuel objs g0 = Ok g ->
  dict_get name g
  = match dict_get name g0 with
    | Some v => Some (v + run_hits fuel name objs)
    | None =>
        if existsb (String.eqb name) (all_global_names objs)
        then Some (run_hits fuel name objs)
        else None
    end.
Proof.
  induction objs as [|obj objs IH]; intros g0 g H; simpl in H.
  - injection H as <-. simpl.
    destruct (dict_get name g0); [f_equal; lia|reflexivity].
  - destruct (analyse_object fuel obj g0) as [t| |] eqn:E; try discriminate.
    simpl in H. rewrite (IH (snd t) g H).
    destruct (analyse_object_ids_ok fuel obj g0 t E) as (ids & Hids).
    rewrite (analyse_object_global_get fuel obj g0 ids t name Hids E).
    unfold all_global_names. simpl flat_map. rewrite existsb_app.
    simpl run_hits. unfold file_hits at 1 2. rewrite Hids.
    destruct (dict_get name g0) as [v|].
    + f_equal. lia.
    + destruct (existsb (String.eqb name) (global_names (symbols obj))) eqn:Eg;
        simpl.
      * reflexivity.
      * assert (Hzero : hits (names_global name) (symbols obj) ids = 0).
        { unfold hits. now rewrite (no_global_of_that_name name _ ids Eg). }
        rewrite Hzero. reflexivity.
Qed.

(** X21: a completed analysis run prints a name exactly when some file has
    an IMPORT or EXPORT symbol of that name and no patch expression of any
    file references a global symbol of that name; the final count of every
    key of [globalsyms] is the number of such references over the run. *)
Theorem reported_names_are_the_unreferenced_globals :
  forall encodes fuel files out,
    main encodes fuel false files = (out, Ok tt) ->
    exists objs globalsyms,
      parse_all fuel files = Ok objs
      /\ analyse_all fuel objs [] = Ok globalsyms
      /\ (forall name,
            dict_get name globalsyms
            = if existsb (String.eqb name) (all_global_names objs)
              then Some (run_hits fuel name objs)
              else None)
      /\ (forall name,
            In name out
            <-> In name (all_global_names objs) /\ run_hits fuel name objs = 0).
Proof.
  intros encodes fuel files out H. apply main_analysis in H.
  destruct H as (objs & g & Hp & Ha & ->). exists objs, g.
  assert (Hget : forall name,
             dict_get name g
             = if existsb (String.eqb name) (all_global_names objs)
               then Some (run_hits fuel name objs)
               else None).
  { intros name. now rewrite (analyse_all_get fuel name objs [] g Ha). }
  split; [exact Hp|]. split; [exact Ha|]. split; [exact Hget|].
  intros name. rewrite report_in, Hget, <- existsb_eqb_in.
  destruct (existsb (String.eqb name) (all_global_names objs)); split.
  - intros H. injection H as H. now split.
  - intros (_ & ->). reflexivity.
  - discriminate.
  - intros (H & _). discriminate.
Qed.

Lemma reported_names_witness :
  main utf8_stdout 10 false [Examples.import_X_unreferenced; Examples.export_X_referenced]
  = (["Y"%string], Ok tt)
  /\ run_hits 10 "X" [Examples.object_A; Examples.object_B] = 1
  /\ run_hits 10 "Y" [Examples.object_A; Examples.object_B] = 0
  /\ exists objs globalsyms,
       parse_all 10 [Examples.import_X_unreferenced; Examples.export_X_referenced]
       = Ok objs
       /\ analyse_all 10 objs [] = Ok globalsyms
       /\ (forall name,
             dict_get name globalsyms
             = if existsb (String.eqb name) (all_global_names objs)
               then Some (run_hits 10 name objs)
               else None)
       /\ (forall name,
             In name ["Y"%string]
             <-> In name (all_global_names objs) /\ run_hits 10 name objs = 0).
Proof.
  assert (H : main utf8_stdout 10 false [Examples.import_X_unreferenced;
                             Examples.export_X_referenced] = (["Y"%string], Ok tt))
    by (vm_compute; reflexivity).
  split; [exact H|]. split; [reflexivity|]. split; [reflexivity|].
  exact (reported_names_are_the_unreferenced_globals utf8_stdout 10 _
           ["Y"%string] H).
Defined.

Lemma run_hits_permutation fuel name objs objs' :
  Permutation objs objs' -> run_hits fuel name objs = run_hits fuel name objs'.
Proof.
  induction 1 as [|obj l l' _ IH|a b l|l1 l2 l3 _ IH1 _ IH2]; simpl; lia.
Qed.

Lemma existsb_permutation name (l l' : list string) :
  Permutation l l' ->
  existsb (String.eqb name) l = existsb (String.eqb name) l'.
Proof.
  intros Hp.
  destruct (existsb (String.eqb name) l) eqn:E;
    destruct (existsb (String.eqb name) l') eqn:E'; try reflexivity.
  - apply existsb_eqb_in in E. apply (Permutation_in _ Hp) in E.
    apply existsb_eqb_in in E. congruence.
  - apply existsb_eqb_in in E'.
    apply (Permutation_in _ (Permutation_sym Hp)) in E'.
    apply existsb_eqb_in in E'. congruence.
Qed.

(** X22: the order of the files changes the order of the report and
    nothing else: two runs over the same objects in different orders end
    with the same count for every name, so they report the same names. *)
Theorem file_order_does_not_change_the_counts :
  forall fuel objs objs' g g',
    Permutation objs objs' ->
    analyse_all fuel objs [] = Ok g ->
    analyse_all fuel objs' [] = Ok g' ->
    (forall name, dict_get name g = dict_get name g')
    /\ (forall name, In name (report g) <-> In name (report g')).
Proof.
  intros fuel objs objs' g g' Hperm H H'.
  assert (Hget : forall name, dict_get name g = dict_get name g').
  { intros name.
    rewrite (analyse_all_get fuel name objs [] g H),
            (analyse_all_get fuel name objs' [] g' H'). simpl.
    rewrite (run_hits_permutation fuel name objs objs' Hperm).
    unfold all_global_names.
    rewrite (existsb_permutation name _ _
               (@Permutation_flat_map _ _ (fun obj => global_names (symbols obj))
                  objs objs' Hperm)).
    reflexivity. }
  split; [exact Hget|]. intros name. now rewrite !report_in, Hget.
Qed.

Lemma file_order_witness :
  let other := mkObject [mkSymbol "Z" IMPORT None None None None] [] 6 None in
  analyse_all 10 [Examples.object_A; other] []
  = Ok [("X"%string, 0); ("Y"%string, 0); ("Z"%string, 0)]
  /\ analyse_all 10 [other; Examples.object_A] []
     = Ok [("Z"%string, 0); ("X"%string, 0); ("Y"%string, 0)]
  /\ forall name,
       In name (report [("X"%string, 0); ("Y"%string, 0); ("Z"%string, 0)])
       <-> In name (report [("Z"%string, 0); ("X"%string, 0); ("Y"%string, 0)]).
Proof.
  intros other.
  assert (H : analyse_all 10 [Examples.object_A; other] []
              = Ok [("X"%string, 0); ("Y"%string, 0); ("Z"%string, 0)])
    by reflexivity.
  assert (H' : analyse_all 10 [other; Examples.object_A] []
               = Ok [("Z"%string, 0); ("X"%string, 0); ("Y"%string, 0)])
    by reflexivity.
  split; [exact H|]. split; [exact H'|].
  exact (proj2 (file_order_does_not_change_the_counts 10 _ _ _ _
                  (perm_swap other Examples.object_A []) H H')).
Defined.

(** * The sizes of the tables *)

Lemma for_range_length {A} (body : M A) n : forall f l f',
  for_range n body f = Ok (l, f') -> List.length l = n.
Proof.
  induction n as [|n IH]; intros f l f' H; simpl in H.
  - apply ret_ok in H. now destruct H as (-> & _).
  - apply bind_ok in H. destruct H as (a & f1 & _ & H).
    apply bind_ok in H. destruct H as (items & f2 & Hitems & H).
    apply ret_ok in H. destruct H as (-> & _). simpl. f_equal.
    now apply (IH f1 items f2).
Qed.

(** X23: [parse_tables] builds as many symbols and as many sections as the
    two counts at its start declare: the little-endian values of the first
    and of the second 4 bytes it reads. *)
Theorem tables_have_the_declared_sizes :
  forall fuel ver f obj f',
    parse_tables fuel ver f = Ok (obj, f') ->
    (8 <= List.length (rest f))%nat
    /\ List.length (symbols obj) = Z.to_nat (le_int (firstn 4 (rest f)))
    /\ List.length (sections obj)
       = Z.to_nat (le_int (firstn 4 (skipn 4 (rest f)))).
Proof.
  intros fuel ver f obj f' H. unfold parse_tables in H.
  apply bind_ok in H. destruct H as ([ns [nc []]] & f1 & Hu & H).
  pose proof (unpack_file_ok _ _ _ _ Hu) as (got & Hsplit & Hlen & Hv & _).
  change (calcsize [fI; fI]) with 8%nat in Hlen.
  apply bind_ok in H. destruct H as (syms & f2 & Hsyms & H).
  apply bind_ok in H. destruct H as (secs & f3 & Hsecs & H).
  apply bind_ok in H. destruct H as (asserts & f4 & _ & H).
  apply ret_ok in H. destruct H as (-> & _). simpl symbols. simpl sections.
  apply for_range_length in Hsyms. apply for_range_length in Hsecs.
  rewrite Hsyms, Hsecs, Hsplit.
  destruct got as [|a [|b [|c [|d [|a' [|b' [|c' [|d' [|e got]]]]]]]]];
    try discriminate Hlen.
  cbn [decode_fields decode_field firstn skipn fmt_size] in Hv.
  injection Hv as -> ->.
  split; [rewrite length_app; simpl; lia|]. split; reflexivity.
Qed.

Lemma tables_have_the_declared_sizes_witness :
  exists obj f',
    parse_tables 10 6 (open (skipn 4 Examples.import_X_unreferenced)) = Ok (obj, f')
    /\ List.length (symbols obj) = 3%nat
    /\ List.length (sections obj) = 1%nat.
Proof.
  destruct (parse_tables 10 6 (open (skipn 4 Examples.import_X_unreferenced)))
    as [[obj f']| |] eqn:E; try (vm_compute in E; discriminate).
  exists obj, f'. split; [reflexivity|].
  destruct (tables_have_the_declared_sizes 10 6 _ obj f' E) as (_ & Hs & Hc).
  split; [exact Hs|exact Hc].
Defined.
